(** * fast-p2a: the synthetic column generators of [profiling/parquet-cpp/prelim.cc]

    A shallow embedding of the variable-bit-width table generators
    ([generate_int64_delta_varied_bit_width_table],
    [generate_int32_delta_varied_bit_width_table]), of the sidecar files they
    record and of the argument check of [main], with the properties of the
    specification proved (or refuted) on them; then of the other generators
    of the file ([gen_random_string], [generate_int32_table],
    [generate_int64_table], [generate_str_table],
    [generate_int64_str_table]) and of three pieces of
    [examples/prim64/software/cpp/prim64.cpp] ([setPtoaArguments], the
    checksum loop and the check of the result of its [main]), with the
    properties the code itself shows.

    Conventions.
    - A C++ integer of width w is a [Z]; every conversion the source performs
      (implicitly, by assignment or by the usual arithmetic conversions) is
      written out with [to_uint64], [to_int64], [to_uint32], [to_int32].
    - [%] is [Z.rem] (C++ truncates); an operation whose behaviour C++ leaves
      undefined (a remainder by zero, a read outside a buffer, an [int] that
      overflows) makes the embedded function return [None], or [Undef] where
      the function can also throw.
    - The random sources are outside the repository: the 64-bit engine
      ([std::mt19937_64]) and the C library's [rand] are interfaces
      ([Engine64], [CRand]); the theorems hold for every implementation, and
      the concrete instances [mt19937_64] and [iso_c_rand] are used to run the
      code on concrete inputs.
    - The Arrow builder is the list of the values appended to it ([Append]
      and [Finish] do not fail for want of memory); the Parquet writer is a
      parameter of [main].
    - What the bytes of an Arrow buffer are is Arrow's business
      ([values_buffer], [string_buffers]).  The loop that dumps them into
      [check_file] when the recorder is on is [dump_buffer]: it ends
      [generate_int32_table] and [generate_int64_table]; for the two
      variable-bit-width generators the embedded functions are the passes
      and what they return, and [with_check_file] adds the dump that follows
      them; [generate_str_table] takes the dumped bytes as they are, and
      the property that it returns is stated within the sizes where its
      dump loops are defined.

    The file has two parts: the program (with the vocabulary of the
    properties), then the properties. *)

From Stdlib Require Import ZArith List String Ascii Bool Lia Znumtheory.
Import ListNotations.
Open Scope Z_scope.

(* ================================================================= *)
(** ** Fixed-width integers *)

Module CInt.

Definition to_uint64 (z : Z) : Z := z mod 2 ^ 64.
Definition to_int64 (z : Z) : Z := (z + 2 ^ 63) mod 2 ^ 64 - 2 ^ 63.
Definition to_uint32 (z : Z) : Z := z mod 2 ^ 32.
Definition to_int32 (z : Z) : Z := (z + 2 ^ 31) mod 2 ^ 32 - 2 ^ 31.

Definition INT_MAX : Z := 2 ^ 31 - 1.
Definition INT_MIN : Z := - 2 ^ 31.
Definition INT64_MIN : Z := - 2 ^ 63.

End CInt.
Import CInt.

(* ================================================================= *)
(** ** The random sources *)

(** [std::mt19937_64 gen(seed)] and [gen()]: a seedable engine whose results
    are unsigned 64-bit words. *)
Class Engine64 (G : Type) : Type := {
  seed_engine : Z -> G;
  invoke : G -> Z * G;
  invoke_range : forall g, 0 <= fst (invoke g) < 2 ^ 64
}.

(** The C library's [rand()]: a process-wide state, results of type [int] in
    [0, RAND_MAX]; the C standard requires [RAND_MAX >= 32767] and [RAND_MAX]
    is an [int]. *)
Class CRand (R : Type) : Type := {
  RAND_MAX : Z;
  rand : R -> Z * R;
  RAND_MAX_lower : 32767 <= RAND_MAX;
  RAND_MAX_upper : RAND_MAX <= INT_MAX;
  rand_range : forall r, 0 <= fst (rand r) <= RAND_MAX
}.

(** *** [std::mt19937_64], as the C++ standard defines it
    ([mersenne_twister_engine<uint_fast64_t, 64, 312, 156, 31,
    0xb5026f5aa96619e9, 29, 0x5555555555555555, 17, 0x71d67fffeda60000, 37,
    0xfff7eee000000000, 43, 6364136223846793005>]). *)
Module MT64.

Definition n : nat := 312.
Definition m : nat := 156.
Definition matrix_a : Z := 0xb5026f5aa96619e9.
Definition upper_mask : Z := 0xffffffff80000000.
Definition lower_mask : Z := 0x7fffffff.
Definition init_mult : Z := 6364136223846793005.

Record state : Type := { words : list Z; pos : nat }.

Fixpoint init_from (k : nat) (i : Z) (prev : Z) : list Z :=
  match k with
  | O => []
  | S k' =>
      let x := to_uint64 (init_mult * Z.lxor prev (Z.shiftr prev 62) + i) in
      x :: init_from k' (i + 1) x
  end.

Definition seed (s : Z) : state :=
  let x0 := to_uint64 s in
  {| words := x0 :: init_from (n - 1) 1 x0; pos := n |}.

Definition mix (xk xk1 far : Z) : Z :=
  let y := Z.lor (Z.land xk upper_mask) (Z.land xk1 lower_mask) in
  Z.lxor (Z.lxor far (Z.shiftr y 1)) (if Z.odd y then matrix_a else 0).

Fixpoint mix3 (xs nexts fars : list Z) : list Z :=
  match xs, nexts, fars with
  | x :: xs', x1 :: nexts', f :: fars' => mix x x1 f :: mix3 xs' nexts' fars'
  | _, _, _ => []
  end.

(** One regeneration of the 312 words: word [k] is mixed with word [k+1] and
    word [k+156], both taken modulo 312 and the latter already regenerated
    when [k >= 156]. *)
Definition twist (ws : list Z) : list Z :=
  let lo := firstn m ws in
  let hi := skipn m ws in
  let lo' := mix3 lo (tl lo ++ firstn 1 hi) hi in
  let hi' := mix3 hi (tl hi ++ firstn 1 lo') lo' in
  lo' ++ hi'.

Definition temper (x : Z) : Z :=
  let z := Z.lxor x (Z.land (Z.shiftr x 29) 0x5555555555555555) in
  let z := Z.lxor z (Z.land (Z.shiftl z 17) 0x71d67fffeda60000) in
  let z := Z.lxor z (Z.land (Z.shiftl z 37) 0xfff7eee000000000) in
  Z.lxor z (Z.shiftr z 43).

Definition next (g : state) : Z * state :=
  let g := if Nat.leb n (pos g) then {| words := twist (words g); pos := O |}
           else g in
  (to_uint64 (temper (nth (pos g) (words g) 0)),
   {| words := words g; pos := S (pos g) |}).

Fixpoint outputs (k : nat) (g : state) : list Z :=
  match k with
  | O => []
  | S k' => let (x, g') := next g in x :: outputs k' g'
  end.

End MT64.

#[export] Instance mt19937_64 : Engine64 MT64.state.
Proof.
  refine {| seed_engine := MT64.seed; invoke := MT64.next |}.
  intro g. unfold MT64.next. cbn [fst]. unfold to_uint64.
  apply Z.mod_pos_bound. lia.
Defined.

(** *** A [rand()] to run the code with: the portable implementation the C
    standard prints (ISO C 7.22.2.2), [RAND_MAX = 32767]. *)
Module IsoCRand.

Definition rand_max : Z := 32767.

Definition next (s : Z) : Z * Z :=
  let s' := to_uint32 (s * 1103515245 + 12345) in
  (Z.rem (to_uint32 (s' / 65536)) 32768, s').

(** The state of a process that never called [srand]. *)
Definition initial : Z := 1.

End IsoCRand.

#[export] Instance iso_c_rand : CRand Z.
Proof.
  refine {| RAND_MAX := IsoCRand.rand_max; rand := IsoCRand.next |};
    unfold IsoCRand.rand_max, INT_MAX; try lia.
  intro s. unfold IsoCRand.next, to_uint32. cbn [fst].
  set (x := (s * 1103515245 + 12345) mod 2 ^ 32 / 65536).
  assert (Hx : 0 <= x mod 2 ^ 32) by (apply Z.mod_pos_bound; lia).
  rewrite Z.rem_mod_nonneg by lia.
  pose proof (Z.mod_pos_bound (x mod 2 ^ 32) 32768). lia.
Defined.

(* ================================================================= *)
(** ** Formatted output ([operator<<] on a [std::ofstream]) *)

Module Text.

(** [std::endl]: a newline (and a flush, which has no content). *)
Definition endl : string := String (ascii_of_nat 10) EmptyString.

(** The digit characters [num_put] uses without [std::uppercase]. *)
Definition digit_char (d : Z) : ascii :=
  if d <? 10 then ascii_of_nat (Z.to_nat (48 + d))
  else ascii_of_nat (Z.to_nat (87 + d)).

(** The digits of [n >= 0] in [base], most significant first; [acc] holds the
    digits already produced.  [fuel] bounds the number of digits. *)
Fixpoint digits_fuel (base : Z) (fuel : nat) (n : Z) (acc : string) : string :=
  match fuel with
  | O => acc
  | S fuel' =>
      let acc' := String (digit_char (n mod base)) acc in
      if n / base =? 0 then acc' else digits_fuel base fuel' (n / base) acc'
  end.

Definition digits (base : Z) (n : Z) : string :=
  digits_fuel base (S (Z.to_nat (Z.log2 n))) n EmptyString.

(** [os << number] in the default ([std::dec]) base, for a signed integer. *)
Definition to_dec (n : Z) : string :=
  if n <? 0 then String "-"%char (digits 10 (- n)) else digits 10 n.

Fixpoint replicate (k : nat) (c : ascii) : string :=
  match k with
  | O => EmptyString
  | S k' => String c (replicate k' c)
  end.

(** [std::setfill(c) << std::setw(w)]: [w] is a minimum field width; a
    shorter text is filled on the left, a longer one is written whole. *)
Definition setw_fill (w : nat) (c : ascii) (s : string) : string :=
  (replicate (w - String.length s) c ++ s)%string.

(** [os << std::hex << number]: [num_put] converts a signed integer to the
    unsigned type of its width before it prints it in base 16. *)
Definition to_hex64 (n : Z) : string := digits 16 (to_uint64 n).
Definition to_hex32 (n : Z) : string := digits 16 (to_uint32 n).

(** A [std::ofstream]: [None] until [open] is called (a write to a stream
    that is not open puts nothing anywhere). *)
Definition ofstream : Type := option string.

Definition closed_stream : ofstream := None.
Definition open : ofstream := Some EmptyString.
Definition put (os : ofstream) (s : string) : ofstream :=
  option_map (fun content => (content ++ s)%string) os.

(** *** Reading a decimal sidecar file back

    The repository has no reader for the sidecar files; this is the reader
    the round-trip property of the specification speaks of: the file is cut
    at its newlines and every line must be an optional minus sign followed by
    at least one decimal digit. *)

Definition digit_value (c : ascii) : option Z :=
  let k := Z.of_nat (nat_of_ascii c) in
  if (48 <=? k) && (k <=? 57) then Some (k - 48) else None.

Fixpoint parse_digits (s : string) (acc : Z) : option Z :=
  match s with
  | EmptyString => Some acc
  | String c s' =>
      match digit_value c with
      | Some d => parse_digits s' (10 * acc + d)
      | None => None
      end
  end.

Definition parse_dec (s : string) : option Z :=
  match s with
  | EmptyString => None
  | String c s' =>
      if Ascii.eqb c "-"%char then
        match s' with
        | EmptyString => None
        | _ => option_map Z.opp (parse_digits s' 0)
        end
      else parse_digits s 0
  end.

(** The lines of a text, each ended by a newline; [cur] is the line being
    read.  Characters after the last newline are an unfinished line. *)
Fixpoint lines_from (s : string) (cur : string) : option (list string) :=
  match s with
  | EmptyString =>
      match cur with EmptyString => Some [] | _ => None end
  | String c s' =>
      if Ascii.eqb c (ascii_of_nat 10) then
        option_map (cons cur) (lines_from s' EmptyString)
      else lines_from s' (cur ++ String c EmptyString)%string
  end.

Fixpoint parse_all (ls : list string) : option (list Z) :=
  match ls with
  | [] => Some []
  | l :: ls' =>
      match parse_dec l, parse_all ls' with
      | Some v, Some vs => Some (v :: vs)
      | _, _ => None
      end
  end.

Definition parse_dec_file (content : string) : option (list Z) :=
  match lines_from content EmptyString with
  | Some ls => parse_all ls
  | None => None
  end.

End Text.

(* ================================================================= *)
(** ** The generators *)

(** Which library a random draw came from. *)
Inductive rng : Type :=
| Mt19937_64   (* [gen()], a [std::mt19937_64] *)
| CStdlibRand. (* [rand()] *)

Record draw : Type := { d_source : rng; d_value : Z }.

(** What one pass through the loop body did: the draw behind a new [modulo]
    when the pass began a run, the value of [modulo] the remainder was taken
    by, the draw behind [number], and [number]. *)
Record iteration : Type := {
  it_index : Z;
  it_new_modulo : option draw;
  it_modulo : Z;
  it_draw : draw;
  it_number : Z
}.

(** The local variables of a generator: its random state ([gen] in the
    64-bit generator; the 32-bit generator has none of its own and steps the
    process-wide state of [rand]), [modulo], the Arrow builder (the values
    appended so far) and the two text streams.  [trace] is no variable of
    the program: it keeps the record of every pass made so far, for the
    properties to speak of. *)
Record locals (S : Type) : Type := {
  rng_state : S;
  modulo : Z;
  builder : list Z;
  dec_check_file : Text.ofstream;
  hex_check_file : Text.ofstream;
  trace : list iteration
}.
Arguments rng_state {S} _.
Arguments modulo {S} _.
Arguments builder {S} _.
Arguments dec_check_file {S} _.
Arguments hex_check_file {S} _.
Arguments trace {S} _.

(** [arrow::Table::Make(schema, {array})] with the one-field schema. *)
Record field : Type := {
  field_name : string;
  field_bits : Z;
  field_nullable : bool
}.

Record table : Type := { schema : list field; column : list Z }.

Record outcome (S : Type) : Type := { returned : table; final : locals S }.
Arguments returned {S} _.
Arguments final {S} _.

(** [for (int i = 0; i < num_values; i++) body]: [count] passes, starting at
    [i]; a pass with undefined behaviour ends the run. *)
Fixpoint for_loop {S : Type} (body : Z -> S -> option S)
    (count : nat) (i : Z) (s : S) : option S :=
  match count with
  | O => Some s
  | S count' =>
      match body i s with
      | Some s' => for_loop body count' (i + 1) s'
      | None => None
      end
  end.

(** [modulo = 1ULL << (gen() % 64)]: the remainder and the shift are
    unsigned 64-bit, the assignment converts to [int64_t]. *)
Definition new_modulo64 (d : Z) : Z :=
  to_int64 (to_uint64 (Z.shiftl 1 (Z.rem d 64))).

(** [modulo = 1U << (rand() % 32)]: the remainder is an [int], the shift is
    unsigned 32-bit, the assignment converts to [int]. *)
Definition new_modulo32 (d : Z) : Z :=
  to_int32 (to_uint32 (Z.shiftl 1 (Z.rem d 32))).

(** The divisor of [gen() % modulo]: [gen()] is unsigned 64-bit, so [modulo]
    is converted to unsigned 64-bit. *)
Definition divisor64 (m : Z) : Z := to_uint64 m.

(** The divisor of [rand() % modulo]: both are [int]. *)
Definition divisor32 (m : Z) : Z := m.

(** [number = gen() % modulo]: an unsigned 64-bit remainder, converted to
    [int64_t] by the assignment. *)
Definition number64 (d m : Z) : Z := to_int64 (Z.rem d (divisor64 m)).

(** [number = rand() % modulo]: an [int] remainder. *)
Definition number32 (d m : Z) : Z := Z.rem d (divisor32 m).

Definition hex_line64 (number : Z) : string :=
  (Text.setw_fill 8 "0"%char (Text.to_hex64 number) ++ Text.endl)%string.

Definition hex_line32 (number : Z) : string :=
  (Text.setw_fill 8 "0"%char (Text.to_hex32 number) ++ Text.endl)%string.

Definition dec_line (number : Z) : string :=
  (Text.to_dec number ++ Text.endl)%string.

Section Generators.

Context {G : Type} {EG : Engine64 G} {R : Type} {CR : CRand R}.

(** What a run finds around it: the value [std::random_device{}()] returns
    and the state of [rand()] (nothing in the program calls [srand]). *)
Record env : Type := { random_device : Z; rand_state : R }.

(** Lines 162-176. *)
Definition body64 (run_length : Z) (write_to_file : bool)
    (i : Z) (l : locals G) : option (locals G) :=
  if run_length =? 0 then None
  else
    let '(fresh, modulo', g1) :=
      if Z.rem i run_length =? 0 then
        let (d, g') := invoke (rng_state l) in
        (Some {| d_source := Mt19937_64; d_value := d |}, new_modulo64 d, g')
      else (None, modulo l, rng_state l) in
    let (d2, g2) := invoke g1 in
    if divisor64 modulo' =? 0 then None
    else
      let number := number64 d2 modulo' in
      Some {| rng_state := g2;
              modulo := modulo';
              builder := builder l ++ [number];
              dec_check_file :=
                if write_to_file
                then Text.put (dec_check_file l) (dec_line number)
                else dec_check_file l;
              hex_check_file :=
                if write_to_file
                then Text.put (hex_check_file l) (hex_line64 number)
                else hex_check_file l;
              trace := trace l ++
                [{| it_index := i; it_new_modulo := fresh;
                    it_modulo := modulo';
                    it_draw := {| d_source := Mt19937_64; d_value := d2 |};
                    it_number := number |}] |}.

(** Lines 144-160. *)
Definition init64 (e : env) (write_to_file : bool) : locals G :=
  {| rng_state := seed_engine (random_device e);
     modulo := 0;
     builder := [];
     dec_check_file := if write_to_file then Text.open else Text.closed_stream;
     hex_check_file := if write_to_file then Text.open else Text.closed_stream;
     trace := [] |}.

Definition generate_int64_delta_varied_bit_width_table
    (e : env) (num_values run_length : Z) (write_to_file : bool)
    : option (outcome G) :=
  match for_loop (body64 run_length write_to_file) (Z.to_nat num_values) 0
          (init64 e write_to_file) with
  | Some l =>
      Some {| returned :=
                {| schema := [{| field_name := "int"; field_bits := 64;
                                 field_nullable := false |}];
                   column := builder l |};
              final := l |}
  | None => None
  end.

(** Lines 212-226. *)
Definition body32 (run_length : Z) (write_to_file : bool)
    (i : Z) (l : locals R) : option (locals R) :=
  if run_length =? 0 then None
  else
    let '(fresh, modulo', r1) :=
      if Z.rem i run_length =? 0 then
        let (d, r') := rand (rng_state l) in
        (Some {| d_source := CStdlibRand; d_value := d |}, new_modulo32 d, r')
      else (None, modulo l, rng_state l) in
    let (d2, r2) := rand r1 in
    if divisor32 modulo' =? 0 then None
    else
      let number := number32 d2 modulo' in
      Some {| rng_state := r2;
              modulo := modulo';
              builder := builder l ++ [number];
              dec_check_file :=
                if write_to_file
                then Text.put (dec_check_file l) (dec_line number)
                else dec_check_file l;
              hex_check_file :=
                if write_to_file
                then Text.put (hex_check_file l) (hex_line32 number)
                else hex_check_file l;
              trace := trace l ++
                [{| it_index := i; it_new_modulo := fresh;
                    it_modulo := modulo';
                    it_draw := {| d_source := CStdlibRand; d_value := d2 |};
                    it_number := number |}] |}.

(** Lines 197-210. *)
Definition init32 (e : env) (write_to_file : bool) : locals R :=
  {| rng_state := rand_state e;
     modulo := 0;
     builder := [];
     dec_check_file := if write_to_file then Text.open else Text.closed_stream;
     hex_check_file := if write_to_file then Text.open else Text.closed_stream;
     trace := [] |}.

Definition generate_int32_delta_varied_bit_width_table
    (e : env) (num_values run_length : Z) (write_to_file : bool)
    : option (outcome R) :=
  match for_loop (body32 run_length write_to_file) (Z.to_nat num_values) 0
          (init32 e write_to_file) with
  | Some l =>
      Some {| returned :=
                {| schema := [{| field_name := "int"; field_bits := 32;
                                 field_nullable := false |}];
                   column := builder l |};
              final := l |}
  | None => None
  end.

End Generators.

Arguments env : clear implicits.

(* ================================================================= *)
(** ** The driver ([main]) *)

Definition is_space (c : ascii) : bool :=
  let k := nat_of_ascii c in
  Nat.eqb k 32 || (Nat.leb 9 k && Nat.leb k 13).

Fixpoint skip_spaces (s : string) : string :=
  match s with
  | EmptyString => EmptyString
  | String c s' => if is_space c then skip_spaces s' else s
  end.

Fixpoint leading_digits (s : string) (acc : Z) : Z :=
  match s with
  | EmptyString => acc
  | String c s' =>
      match Text.digit_value c with
      | Some d => leading_digits s' (10 * acc + d)
      | None => acc
      end
  end.

(** [atoi]: white space, an optional sign, then the digits there are; the
    behaviour is undefined ([None]) when the value is not an [int]. *)
Definition atoi (s : string) : option Z :=
  let v :=
    match skip_spaces s with
    | EmptyString => 0
    | String c s' =>
        if Ascii.eqb c "-"%char then - leading_digits s' 0
        else if Ascii.eqb c "+"%char then leading_digits s' 0
        else leading_digits (String c s') 0
    end in
  if (INT_MIN <=? v) && (v <=? INT_MAX) then Some v else None.

(** How a process ends: [main] returns a status, an exception nobody catches
    ends it ([std::terminate]), or its behaviour is undefined. *)
Inductive ending : Type :=
| Returned (status : Z)
| Terminated
| Undefined.

(** What the program wrote on [std::cout] and on [std::cerr], and how it
    ended. *)
Record process : Type := { cout : string; cerr : string; ended : ending }.

Definition usage_line : string :=
  ("Usage: prelim num_values [iterations] [modulo]" ++ Text.endl)%string.

Section Driver.

Context {G : Type} {EG : Engine64 G} {R : Type} {CR : CRand R}.

(** [write_parquet_file] only calls the Parquet library; [true] when the
    file was written, [false] when [PARQUET_THROW_NOT_OK] threw. *)
Variable write_parquet_file : table -> string -> Z -> bool -> bool -> bool.

(** Lines 474-551; [argv] holds the program name and the arguments. *)
Definition main (e : env R) (argv : list string) : process :=
  let argc := Z.of_nat (List.length argv) in
  if argc <? 2 then
    {| cout := usage_line; cerr := EmptyString; ended := Returned 1 |}
  else
    let undefined :=
      {| cout := EmptyString; cerr := EmptyString; ended := Undefined |} in
    match atoi (nth 1 argv EmptyString),
          (if 3 <=? argc then atoi (nth 2 argv EmptyString) else Some 1),
          (if 4 <=? argc then atoi (nth 3 argv EmptyString) else Some 0) with
    | Some num_values, Some _, Some _ =>
        let out1 :=
          ("Size of Arrow table: " ++ Text.to_dec num_values ++ " values."
           ++ Text.endl)%string in
        match generate_int64_delta_varied_bit_width_table e num_values 256
                false with
        | None =>
            {| cout := out1; cerr := EmptyString; ended := Undefined |}
        | Some r =>
            let out2 :=
              (out1 ++ "Finished Arrow table generation." ++ Text.endl
               ++ "Starting Parquet file writing." ++ Text.endl)%string in
            {| cout := out2; cerr := EmptyString;
               ended :=
                 if write_parquet_file (returned r)
                      "../../gen-input/ref_delta_varied_int64.parquet"
                      num_values false false
                 then Returned 0 else Terminated |}
        end
    | _, _, _ => undefined
    end.

End Driver.

(* ================================================================= *)
(** ** The other generators of [prelim.cc] *)

(** What a function that can throw comes to: a value, an exception that
    leaves it, or undefined behaviour. *)
Inductive res (A : Type) : Type :=
| Done (a : A)
| Throws
| Undef.
Arguments Done {A} a.
Arguments Throws {A}.
Arguments Undef {A}.

(** [for (int i = 0; i < count; i++) body] for a body that can throw. *)
Fixpoint for_loop_res {S : Type} (body : Z -> S -> res S)
    (count : nat) (i : Z) (s : S) : res S :=
  match count with
  | O => Done s
  | S count' =>
      match body i s with
      | Done s' => for_loop_res body count' (i + 1) s'
      | Throws => Throws
      | Undef => Undef
      end
  end.

(** An [int] result: signed overflow is undefined. *)
Definition fits_int (z : Z) : bool := (INT_MIN <=? z) && (z <=? INT_MAX).

(** Lines 89-91 and 134-136:
    [for(int i=0; i<buffer->size(); i++){ check_file << buffer->data()[i]; }].
    [size()] is a 64-bit count of bytes, to which [i] is converted for the
    comparison; the [i++] of a pass is undefined when it leaves [int]. *)
Definition body_dump (buffer : list Z) (i : Z) (check_file : list Z)
    : option (list Z) :=
  match nth_error buffer (Z.to_nat i) with
  | Some b => if fits_int (i + 1) then Some (check_file ++ [b]) else None
  | None => None
  end.

Definition dump_buffer (buffer : list Z) : option (list Z) :=
  for_loop (body_dump buffer) (List.length buffer) 0 [].

(** Lines 184-191 and 234-241: the two variable-bit-width generators end
    with the same dump when the recorder is on, after their passes and
    before they return.  [run] is what the passes left (the functions
    [generate_int64_delta_varied_bit_width_table] and
    [generate_int32_delta_varied_bit_width_table] above), [values_buffer]
    gives the bytes of the values buffer of an array; the result is the
    outcome with the bytes written to [check_file], if it was opened. *)
Definition with_check_file {S : Type}
    (values_buffer : Z -> list Z -> list Z) (bits : Z)
    (write_to_file : bool) (run : option (outcome S))
    : option (outcome S * option (list Z)) :=
  match run with
  | Some r =>
      if write_to_file
      then
        match dump_buffer (values_buffer bits (column (returned r))) with
        | Some bytes => Some (r, Some bytes)
        | None => None
        end
      else Some (r, None)
  | None => None
  end.

(** Line 47: the table of [gen_random_string], 62 characters and the
    terminating zero ([sizeof(alphanum) - 1 = 62]). *)
Definition alphanum : string :=
  "0123456789ABCDEFGHIJKLMNOPQRSTUVWXYZabcdefghijklmnopqrstuvwxyz".

(** [(int) c] for a [char] (signed, as on x86-64). *)
Definition char_to_int (c : ascii) : Z :=
  let k := Z.of_nat (nat_of_ascii c) in
  if k <? 128 then k else k - 256.

(** [hex_char_file << std::hex << std::setfill('0') << std::setw(2)
    << (int) c << std::dec << std::endl]. *)
Definition hex_char_line (c : ascii) : string :=
  (Text.setw_fill 2 "0"%char (Text.to_hex32 (char_to_int c))
   ++ Text.endl)%string.

(** The types and fields of the schemas these functions make. *)
Inductive arrow_type : Type :=
| arrow_int32
| arrow_int64
| arrow_utf8.

Record arrow_field : Type := {
  af_name : string;
  af_type : arrow_type;
  af_nullable : bool
}.

(** [arrow::Table::Make(schema, columns)] with integer and string columns. *)
Record arrow_table : Type := {
  at_schema : list arrow_field;
  at_ints : list (list Z);
  at_strings : list (list string)
}.

(** [modulo <= 0 ? rand() : rand() % modulo], in [int] (lines 74-78 and
    302-306). *)
Definition rand_number (modulo d : Z) : Z :=
  if modulo <=? 0 then d else Z.rem d modulo.

(** [modulo <= 0 ? gen() : gen() % modulo], stored in [int64_t]: the
    remainder is unsigned 64-bit, [modulo] being converted (lines 112-116). *)
Definition gen_number (modulo d : Z) : Z :=
  if modulo <=? 0 then to_int64 d
  else to_int64 (Z.rem d (to_uint64 modulo)).

Section OtherGenerators.

Context {G : Type} {EG : Engine64 G} {R : Type} {CR : CRand R}.

(** What the bytes of an Arrow buffer are is Arrow's business: the values
    buffer of an integer array of the given width, and the offsets and data
    buffers of a string array. *)
Variable values_buffer : Z -> list Z -> list Z.
Variable string_buffers : list string -> list Z * list Z.

(** Lines 54-56: [result[i] = alphanum[rand() % (sizeof(alphanum) - 1)]];
    the remainder is unsigned 64-bit. *)
Fixpoint gen_random_string_loop (count : nat) (r : R) : option (string * R) :=
  match count with
  | O => Some (EmptyString, r)
  | S count' =>
      let (d, r1) := rand r in
      match String.get (Z.to_nat (Z.rem (to_uint64 d) 62)) alphanum with
      | Some c =>
          match gen_random_string_loop count' r1 with
          | Some (s, r2) => Some (String c s, r2)
          | None => None
          end
      | None => None
      end
  end.

(** Lines 46-59.  [std::string result(length, 0)] converts [length] to an
    unsigned size: a negative one is more than any string can hold and the
    constructor throws [std::length_error]. *)
Definition gen_random_string (length : Z) (r : R) : res (string * R) :=
  if length <? 0 then Throws
  else
    match gen_random_string_loop (Z.to_nat length) r with
    | Some sr => Done sr
    | None => Undef
    end.

(** The local variables of [generate_int32_table] and
    [generate_int64_table]: the random state and the builder. *)
Record int_locals (S : Type) : Type := {
  il_rng : S;
  il_builder : list Z
}.

(** What these two functions leave: the table, the bytes written to
    [check_file] (if it was opened) and the random state. *)
Record int_outcome (S : Type) : Type := {
  io_table : table;
  io_check_file : option (list Z);
  io_rng : S
}.

(** Lines 73-80. *)
Definition body_int32_table (modulo : Z) (i : Z) (l : int_locals R)
    : option (int_locals R) :=
  let (d, r1) := rand (il_rng _ l) in
  Some {| il_rng := r1;
          il_builder := il_builder _ l ++ [rand_number modulo d] |}.

(** Lines 61-95. *)
Definition generate_int32_table
    (e : env R) (num_values modulo : Z) (write_to_file : bool)
    : option (int_outcome R) :=
  match for_loop (body_int32_table modulo) (Z.to_nat num_values) 0
          {| il_rng := rand_state e; il_builder := [] |} with
  | Some l =>
      let i32array := il_builder _ l in
      let table :=
        {| schema := [{| field_name := "int"; field_bits := 32;
                         field_nullable := false |}];
           column := i32array |} in
      if write_to_file
      then
        match dump_buffer (values_buffer 32 i32array) with
        | Some bytes =>
            Some {| io_table := table; io_check_file := Some bytes;
                    io_rng := il_rng _ l |}
        | None => None
        end
      else
        Some {| io_table := table; io_check_file := None;
                io_rng := il_rng _ l |}
  | None => None
  end.

(** Lines 111-125. *)
Definition body_int64_table (modulo : Z) (i : Z) (l : int_locals G)
    : option (int_locals G) :=
  let (d, g1) := invoke (il_rng _ l) in
  Some {| il_rng := g1;
          il_builder := il_builder _ l ++ [gen_number modulo d] |}.

(** Lines 97-140. *)
Definition generate_int64_table
    (e : env R) (num_values modulo : Z) (write_to_file : bool)
    : option (int_outcome G) :=
  match for_loop (body_int64_table modulo) (Z.to_nat num_values) 0
          {| il_rng := seed_engine (random_device e); il_builder := [] |} with
  | Some l =>
      let i64array := il_builder _ l in
      let table :=
        {| schema := [{| field_name := "int"; field_bits := 64;
                         field_nullable := false |}];
           column := i64array |} in
      if write_to_file
      then
        match dump_buffer (values_buffer 64 i64array) with
        | Some bytes =>
            Some {| io_table := table; io_check_file := Some bytes;
                    io_rng := il_rng _ l |}
        | None => None
        end
      else
        Some {| io_table := table; io_check_file := None;
                io_rng := il_rng _ l |}
  | None => None
  end.

(** Lines 261-262 and 323-324:
    [length = rand() % (max_length - min_length + 1) + min_length] in [int],
    then [gen_random_string(length)]. *)
Definition random_string_between (min_length max_length : Z) (r : R)
    : res (Z * string * R) :=
  let k := max_length - min_length + 1 in
  if negb (fits_int (max_length - min_length)) || negb (fits_int k)
  then Undef
  else if k =? 0 then Undef
  else
    let (d, r1) := rand r in
    let length := Z.rem d k + min_length in
    if negb (fits_int length) then Undef
    else
      match gen_random_string length r1 with
      | Done (s, r2) => Done (length, s, r2)
      | Throws => Throws
      | Undef => Undef
      end.

(** The local variables of [generate_str_table]. *)
Record str_locals : Type := {
  sl_rng : R;
  sl_builder : list string;
  hex_length_file : Text.ofstream;
  hex_char_file : Text.ofstream
}.

(** Lines 266-268: one line for every character of the string. *)
Fixpoint put_chars (os : Text.ofstream) (s : string) : Text.ofstream :=
  match s with
  | EmptyString => os
  | String c s' => put_chars (Text.put os (hex_char_line c)) s'
  end.

(** Lines 260-272. *)
Definition body_str_table (min_length max_length : Z) (write_to_file : bool)
    (i : Z) (l : str_locals) : res str_locals :=
  match random_string_between min_length max_length (sl_rng l) with
  | Done (length, rand_string, r2) =>
      Done {| sl_rng := r2;
              sl_builder := sl_builder l ++ [rand_string];
              hex_length_file :=
                if write_to_file
                then Text.put (hex_length_file l) (hex_line32 length)
                else hex_length_file l;
              hex_char_file :=
                if write_to_file
                then put_chars (hex_char_file l) rand_string
                else hex_char_file l |}
  | Throws => Throws
  | Undef => Undef
  end.

(** What [generate_str_table] leaves: the table, the two hexadecimal texts,
    the bytes of the two binary files and the state of [rand()]. *)
Record str_outcome : Type := {
  so_table : arrow_table;
  so_hex_length_file : Text.ofstream;
  so_hex_char_file : Text.ofstream;
  so_bin_length_file : option (list Z);
  so_bin_char_file : option (list Z);
  so_rng : R
}.

(** Lines 246-293. *)
Definition generate_str_table
    (e : env R) (num_values min_length max_length : Z) (write_to_file : bool)
    : res str_outcome :=
  match for_loop_res (body_str_table min_length max_length write_to_file)
          (Z.to_nat num_values) 0
          {| sl_rng := rand_state e;
             sl_builder := [];
             hex_length_file :=
               if write_to_file then Text.open else Text.closed_stream;
             hex_char_file :=
               if write_to_file then Text.open else Text.closed_stream |} with
  | Done l =>
      Done {| so_table :=
                {| at_schema := [{| af_name := "str"; af_type := arrow_utf8;
                                    af_nullable := false |}];
                   at_ints := [];
                   at_strings := [sl_builder l] |};
              so_hex_length_file := hex_length_file l;
              so_hex_char_file := hex_char_file l;
              so_bin_length_file :=
                if write_to_file
                then Some (fst (string_buffers (sl_builder l))) else None;
              so_bin_char_file :=
                if write_to_file
                then Some (snd (string_buffers (sl_builder l))) else None;
              so_rng := sl_rng l |}
  | Throws => Throws
  | Undef => Undef
  end.

(** Lines 301-316: [int number], appended to an [Int64Builder]. *)
Definition body_int64_str_ints (modulo : Z) (i : Z) (l : int_locals R)
    : res (int_locals R) :=
  let (d, r1) := rand (il_rng _ l) in
  Done {| il_rng := r1;
          il_builder := il_builder _ l ++ [rand_number modulo d] |}.

(** Lines 322-326. *)
Definition body_int64_str_strings (min_length max_length : Z)
    (i : Z) (l : R * list string) : res (R * list string) :=
  match random_string_between min_length max_length (fst l) with
  | Done (_, rand_string, r2) => Done (r2, snd l ++ [rand_string])
  | Throws => Throws
  | Undef => Undef
  end.

(** Lines 295-334. *)
Definition generate_int64_str_table
    (e : env R) (num_values min_length max_length modulo : Z)
    : res (arrow_table * R) :=
  match for_loop_res (body_int64_str_ints modulo) (Z.to_nat num_values) 0
          {| il_rng := rand_state e; il_builder := [] |} with
  | Done l =>
      match for_loop_res (body_int64_str_strings min_length max_length)
              (Z.to_nat num_values) 0 (il_rng _ l, []) with
      | Done (r2, strs) =>
          Done ({| at_schema :=
                     [{| af_name := "int"; af_type := arrow_int64;
                         af_nullable := true |};
                      {| af_name := "str"; af_type := arrow_utf8;
                         af_nullable := true |}];
                   at_ints := [il_builder _ l];
                   at_strings := [strs] |}, r2)
      | Throws => Throws
      | Undef => Undef
      end
  | Throws => Throws
  | Undef => Undef
  end.

End OtherGenerators.

(* ================================================================= *)
(** ** [prim64.cpp]: the registers, the checksum and the check of the result *)

Definition REG_BASE : Z := 10.

(** Modelled from Fletcher's declaration of [dau_t], which is not in this
    repository: a union of the 64-bit [full] with a struct of the two 32-bit
    halves [lo] and [hi], in this order, on a little-endian host. *)
Definition dau_lo (full : Z) : Z := to_uint32 (to_uint64 full).
Definition dau_hi (full : Z) : Z := to_uint32 (to_uint64 full / 2 ^ 32).

(** [platform->WriteMMIO(offset, value)] with a 32-bit [value]: the platform
    is outside the repository, so a platform is the list of the writes made
    to it, oldest first. *)
Definition WriteMMIO (writes : list (Z * Z)) (offset value : Z)
    : list (Z * Z) :=
  writes ++ [(offset, to_uint32 value)].

(** Lines 73-88. *)
Definition setPtoaArguments (platform : list (Z * Z))
    (num_val max_size device_parquet_address : Z) : list (Z * Z) :=
  let platform := WriteMMIO platform (REG_BASE + 0) num_val in
  let platform := WriteMMIO platform (REG_BASE + 1)
                    (dau_lo device_parquet_address) in
  let platform := WriteMMIO platform (REG_BASE + 2)
                    (dau_hi device_parquet_address) in
  let platform := WriteMMIO platform (REG_BASE + 3) (dau_lo max_size) in
  WriteMMIO platform (REG_BASE + 4) (dau_hi max_size).

(** Lines 171-183 of [main]: the buffer [file_data] holds the
    [file_size - 4] bytes after the magic number; the loop adds
    [file_data[i]] for every [i < file_size] into an [unsigned int].  A read
    outside the buffer is undefined ([None]); so is everything when
    [file_size - 4] wraps around. *)
Definition checksum_step (file_data : list Z) (i : Z) (checksum : Z)
    : option Z :=
  match nth_error file_data (Z.to_nat i) with
  | Some b => Some (to_uint32 (checksum + b))
  | None => None
  end.

Definition parquet_checksum (file : list Z) : option Z :=
  let file_size := Z.of_nat (List.length file) in
  if file_size <? 4 then None
  else
    let file_data := skipn 4 file in
    for_loop (checksum_step file_data) (List.length file) 0 0.

(** The local variables of the check of the result: [error_count] and what
    was written on [std::cout]. *)
Record check_locals : Type := { error_count : Z; check_cout : string }.

(** Lines 290-297, with the [i++] that follows them; [Value(i)] outside an
    array is undefined, and so is an [int] that overflows. *)
Definition body_check (result_array correct_array : list Z)
    (i : Z) (l : check_locals) : option check_locals :=
  match nth_error result_array (Z.to_nat i),
        nth_error correct_array (Z.to_nat i) with
  | Some r, Some c =>
      let count :=
        if negb (r =? c) then error_count l + 1 else error_count l in
      if fits_int count && fits_int (i + 1)
      then
        Some {| error_count := count;
                check_cout :=
                  if i <? 20
                  then (check_cout l ++ Text.to_dec r ++ " " ++ Text.to_dec c
                        ++ Text.endl)%string
                  else check_cout l |}
      else None
  | _, _ => None
  end.

Definition test_passed : string := ("Test passed!" ++ Text.endl)%string.

Definition test_failed (error_count : Z) : string :=
  ("Test failed. Found " ++ Text.to_dec error_count
   ++ " errors in the output Arrow array" ++ Text.endl)%string.

(** Lines 284-308 of [main]: what is written on [std::cout].  [equals] is
    what Arrow's [Equals] answered; [length()] is an [int64_t], to which the
    [uint32_t num_val] is converted. *)
Definition check_result (equals : bool) (result_array correct_array : list Z)
    (num_val : Z) : option string :=
  if equals then Some test_passed
  else
    match for_loop (body_check result_array correct_array)
            (List.length result_array) 0
            {| error_count := 0; check_cout := EmptyString |} with
    | Some l =>
        let errors :=
          if negb (Z.of_nat (List.length result_array) =? to_uint32 num_val)
          then error_count l + 1 else error_count l in
        let verdict :=
          if errors =? 0 then test_passed else test_failed errors in
        if fits_int errors then Some (check_cout l ++ verdict)%string
        else None
    | None => None
    end.

(* ================================================================= *)
(** ** Vocabulary of the properties

    None of this is code of the program: these definitions name what the
    properties below speak of. *)

(** The text a stream holds after the values [vs] were recorded on it. *)
Definition record_all (write_to_file : bool) (line : Z -> string)
    (os : Text.ofstream) (vs : list Z) : Text.ofstream :=
  fold_left (fun os v => if write_to_file then Text.put os (line v) else os)
    vs os.

Definition is_fresh (it : iteration) : bool :=
  match it_new_modulo it with Some _ => true | None => false end.

(** How many moduli a run drew. *)
Definition moduli_drawn (t : list iteration) : nat :=
  List.length (filter is_fresh t).

(** The first index of the run that holds index [i]. *)
Definition run_start (run_length i : Z) : Z := run_length * (i / run_length).

Section PassVocabulary.

Variable L : Z.
Variable src : rng.
Variable in_range : Z -> Prop.
Variable new_modulo : Z -> Z.
Variable divisor : Z -> Z.
Variable number_of : Z -> Z -> Z.

(** One pass at index [i] that found [m_in] in [modulo]. *)
Definition pass_ok (i m_in : Z) (it : iteration) : Prop :=
  it_index it = i /\
  (if Z.rem i L =? 0
   then exists d, in_range d /\
          it_new_modulo it = Some {| d_source := src; d_value := d |} /\
          it_modulo it = new_modulo d
   else it_new_modulo it = None /\ it_modulo it = m_in) /\
  exists d2, in_range d2 /\
    it_draw it = {| d_source := src; d_value := d2 |} /\
    divisor (it_modulo it) <> 0 /\
    it_number it = number_of d2 (it_modulo it).

(** Consecutive passes from index [i] on, the first finding [m] in
    [modulo], each next one what the pass before it left there. *)
Inductive passes : Z -> Z -> list iteration -> Prop :=
| passes_nil : forall i m, passes i m []
| passes_cons : forall i m it t,
    pass_ok i m it -> passes (i + 1) (it_modulo it) t ->
    passes i m (it :: t).

(** What pass [j] of [t] found in [modulo]. *)
Definition incoming (m : Z) (t : list iteration) (j : nat) : Z :=
  match j with
  | O => m
  | S j' => match nth_error t j' with Some p => it_modulo p | None => m end
  end.

End PassVocabulary.

Definition in_uint64 (d : Z) : Prop := 0 <= d < 2 ^ 64.

Definition passes64 (L : Z) : Z -> Z -> list iteration -> Prop :=
  passes L Mt19937_64 in_uint64 new_modulo64 divisor64 number64.

Definition in_rand {R : Type} {CR : CRand R} (d : Z) : Prop :=
  0 <= d <= RAND_MAX.

Definition passes32 {R : Type} {CR : CRand R} (L : Z)
    : Z -> Z -> list iteration -> Prop :=
  passes L CStdlibRand in_rand new_modulo32 divisor32 number32.

(** What one pass leaves in the local variables. *)
Definition pass_effect {S : Type} (write_to_file : bool)
    (hex_line : Z -> string) (l l1 : locals S) (it : iteration) : Prop :=
  modulo l1 = it_modulo it /\
  trace l1 = trace l ++ [it] /\
  builder l1 = builder l ++ [it_number it] /\
  dec_check_file l1
  = record_all write_to_file dec_line (dec_check_file l) [it_number it] /\
  hex_check_file l1
  = record_all write_to_file hex_line (hex_check_file l) [it_number it].

Definition loop_effect {S : Type} (write_to_file : bool)
    (hex_line : Z -> string) (l l' : locals S) (t : list iteration) : Prop :=
  trace l' = trace l ++ t /\
  builder l' = builder l ++ map it_number t /\
  dec_check_file l'
  = record_all write_to_file dec_line (dec_check_file l) (map it_number t) /\
  hex_check_file l'
  = record_all write_to_file hex_line (hex_check_file l) (map it_number t).

(** The lines of a column, one after the other. *)
Fixpoint render (line : Z -> string) (vs : list Z) : string :=
  match vs with
  | [] => EmptyString
  | v :: vs' => (line v ++ render line vs')%string
  end.

(** What a whole run of a generator leaves. *)
Definition run_effect {S : Type} (write_to_file : bool)
    (hex_line : Z -> string) (bits : Z) (num_values : Z)
    (r : outcome S) : Prop :=
  let t := trace (final r) in
  List.length t = Z.to_nat num_values /\
  column (returned r) = map it_number t /\
  schema (returned r)
  = [{| field_name := "int"; field_bits := bits; field_nullable := false |}] /\
  dec_check_file (final r)
  = record_all write_to_file dec_line
      (if write_to_file then Text.open else Text.closed_stream)
      (column (returned r)) /\
  hex_check_file (final r)
  = record_all write_to_file hex_line
      (if write_to_file then Text.open else Text.closed_stream)
      (column (returned r)).

(** The draws a run made, in the order it made them. *)
Definition draws_of (t : list iteration) : list draw :=
  flat_map (fun it =>
              match it_new_modulo it with
              | Some d => [d; it_draw it]
              | None => [it_draw it]
              end) t.

(** A text with no newline in it. *)
Fixpoint no_newline (s : string) : Prop :=
  match s with
  | EmptyString => True
  | String c s' => Ascii.eqb c (ascii_of_nat 10) = false /\ no_newline s'
  end.

(** All lines of a text have one width. *)
Definition common_width (ls : list string) : Prop :=
  exists w, Forall (fun l => String.length l = w) ls.

(* ================================================================= *)
(** ** More vocabulary *)

(** One of the 62 characters of [alphanum], by its code. *)
Definition is_alnum (c : ascii) : bool :=
  let k := nat_of_ascii c in
  (Nat.leb 48 k && Nat.leb k 57) || (Nat.leb 65 k && Nat.leb k 90)
  || (Nat.leb 97 k && Nat.leb k 122).

Fixpoint all_chars (p : ascii -> bool) (s : string) : bool :=
  match s with
  | EmptyString => true
  | String c s' => p c && all_chars p s'
  end.

(** The first [k] results of a random source, and the state after them. *)
Fixpoint draws {S : Type} (step : S -> Z * S) (k : nat) (s : S) : list Z * S :=
  match k with
  | O => ([], s)
  | S k' =>
      let (d, s1) := step s in
      let (ds, s2) := draws step k' s1 in
      (d :: ds, s2)
  end.

(** The value a register holds: the last one written to it. *)
Fixpoint register (writes : list (Z * Z)) (offset : Z) : option Z :=
  match writes with
  | [] => None
  | (o, v) :: rest =>
      match register rest offset with
      | Some later => Some later
      | None => if o =? offset then Some v else None
      end
  end.

(** The indices at which two arrays differ. *)
Fixpoint differences (xs ys : list Z) : Z :=
  match xs, ys with
  | x :: xs', y :: ys' =>
      (if x =? y then 0 else 1) + differences xs' ys'
  | _, _ => 0
  end.

(** The comparison lines of the check: one for each of the first [k]
    indices. *)
Fixpoint comparison_lines (k : nat) (xs ys : list Z) : string :=
  match k, xs, ys with
  | S k', x :: xs', y :: ys' =>
      (Text.to_dec x ++ " " ++ Text.to_dec y ++ Text.endl
       ++ comparison_lines k' xs' ys')%string
  | _, _, _ => EmptyString
  end.

(** Reading a hexadecimal sidecar file back: as for the decimal one, the
    repository has no reader; the text is cut at its newlines and every line
    must be one or more digits [0-9a-f]. *)
Definition hex_digit_value (c : ascii) : option Z :=
  let k := Z.of_nat (nat_of_ascii c) in
  if (48 <=? k) && (k <=? 57) then Some (k - 48)
  else if (97 <=? k) && (k <=? 102) then Some (k - 87)
  else None.

Fixpoint parse_hex_digits (s : string) (acc : Z) : option Z :=
  match s with
  | EmptyString => Some acc
  | String c s' =>
      match hex_digit_value c with
      | Some d => parse_hex_digits s' (16 * acc + d)
      | None => None
      end
  end.

Definition parse_hex (s : string) : option Z :=
  match s with
  | EmptyString => None
  | _ => parse_hex_digits s 0
  end.

Fixpoint parse_all_hex (ls : list string) : option (list Z) :=
  match ls with
  | [] => Some []
  | l :: ls' =>
      match parse_hex l, parse_all_hex ls' with
      | Some v, Some vs => Some (v :: vs)
      | _, _ => None
      end
  end.

Definition parse_hex_file (content : string) : option (list Z) :=
  match Text.lines_from content EmptyString with
  | Some ls => parse_all_hex ls
  | None => None
  end.

(** The characters of a text, and of the texts of a column. *)
Fixpoint chars_of (s : string) : list ascii :=
  match s with
  | EmptyString => []
  | String c s' => c :: chars_of s'
  end.

(** The text of the given fields, one per line. *)
Fixpoint lines_text (fields : list string) : string :=
  match fields with
  | [] => EmptyString
  | f :: fields' => (f ++ Text.endl ++ lines_text fields')%string
  end.

(** A string of [generate_str_table]: its length within the bounds, its
    characters out of [alphanum]. *)
Definition string_between (min_length max_length : Z) (s : string) : Prop :=
  min_length <= Z.of_nat (String.length s) <= max_length /\
  all_chars is_alnum s = true.

(** The characters of all strings of a column. *)
Definition total_length (strs : list string) : nat :=
  list_sum (map String.length strs).

(** The fields of the two hexadecimal files of [generate_str_table]. *)
Definition length_field (s : string) : string :=
  Text.setw_fill 8 "0"%char (Text.to_hex32 (Z.of_nat (String.length s))).

Definition char_field (c : ascii) : string :=
  Text.setw_fill 2 "0"%char (Text.to_hex32 (char_to_int c)).

(** What the two streams hold after the strings [strs] were recorded. *)
Definition record_lengths (write_to_file : bool) (os : Text.ofstream)
    (strs : list string) : Text.ofstream :=
  fold_left
    (fun os s =>
       if write_to_file
       then Text.put os (hex_line32 (Z.of_nat (String.length s))) else os)
    strs os.

Definition record_chars (write_to_file : bool) (os : Text.ofstream)
    (strs : list string) : Text.ofstream :=
  fold_left (fun os s => if write_to_file then put_chars os s else os)
    strs os.

(** Two states of a generator that differ at most in their text streams. *)
Definition same_but_streams {S : Type} (l1 l2 : locals S) : Prop :=
  rng_state l1 = rng_state l2 /\ modulo l1 = modulo l2 /\
  builder l1 = builder l2 /\ trace l1 = trace l2.

(** A text [atoi] stops reading digits at: the end, or a character that is
    no decimal digit. *)
Definition no_digit_next (rest : string) : Prop :=
  match rest with
  | EmptyString => True
  | String c _ => Text.digit_value c = None
  end.

(** A character occurs in a text; a text occurs in another one, at its
    beginning, at its end or in between. *)
Fixpoint has_char (c : ascii) (s : string) : bool :=
  match s with
  | EmptyString => false
  | String c' s' => Ascii.eqb c c' || has_char c s'
  end.

Definition occurs_in (part whole : string) : Prop :=
  exists before after, whole = (before ++ part ++ after)%string.

(* ================================================================= *)
(** ** Concrete surroundings to run the code in *)

(** A run whose [std::random_device] gave 5489, in a process that has not
    called [rand()] yet; and one that found [rand()] in another state. *)
Definition env_5489 : env Z :=
  {| random_device := 5489; rand_state := IsoCRand.initial |}.

Definition env_5489_later : env Z :=
  {| random_device := 5489; rand_state := 2024 |}.

(** A run whose [std::random_device] gave 1, again before any [rand()]. *)
Definition env_1 : env Z :=
  {| random_device := 1; rand_state := IsoCRand.initial |}.

Definition always_written : table -> string -> Z -> bool -> bool -> bool :=
  fun _ _ _ _ _ => true.

(** The bytes of a buffer, for the runs below: the values themselves, and
    the lengths with the character codes. *)
Definition plain_values : Z -> list Z -> list Z := fun _ vs => vs.

Definition plain_strings : list string -> list Z * list Z :=
  fun strs =>
    (map (fun s => Z.of_nat (String.length s)) strs,
     map char_to_int (flat_map chars_of strs)).

(* ================================================================= *)
(** * Properties *)

(* ================================================================= *)
(** ** The library models agree with the libraries *)

(** The values the C++ standard and libstdc++ give for the default seed. *)
Example mt19937_64_first_outputs :
  MT64.outputs 3 (MT64.seed 5489)
  = [14514284786278117030; 4620546740167642908; 13109570281517897720].
Proof. vm_compute. reflexivity. Qed.

Example mt19937_64_10000th :
  nth (Z.to_nat 9999) (MT64.outputs (Z.to_nat 10000) (MT64.seed 5489)) 0
  = 9981545732273789042.
Proof. vm_compute. reflexivity. Qed.


(* ================================================================= *)
(** ** Facts about the fixed-width conversions *)

Lemma to_uint64_small (z : Z) : 0 <= z < 2 ^ 64 -> to_uint64 z = z.
Proof. intro Hz. unfold to_uint64. apply Z.mod_small. exact Hz. Qed.

Lemma to_uint32_small (z : Z) : 0 <= z < 2 ^ 32 -> to_uint32 z = z.
Proof. intro Hz. unfold to_uint32. apply Z.mod_small. exact Hz. Qed.

Lemma to_int64_small (z : Z) : - 2 ^ 63 <= z < 2 ^ 63 -> to_int64 z = z.
Proof. intro Hz. unfold to_int64. rewrite Z.mod_small; lia. Qed.

Lemma to_int32_small (z : Z) : - 2 ^ 31 <= z < 2 ^ 31 -> to_int32 z = z.
Proof. intro Hz. unfold to_int32. rewrite Z.mod_small; lia. Qed.

Lemma to_uint64_to_int64 (z : Z) : to_uint64 (to_int64 z) = to_uint64 z.
Proof.
  unfold to_uint64, to_int64.
  rewrite Zminus_mod_idemp_l. f_equal. lia.
Qed.

Lemma to_uint32_to_int32 (z : Z) : to_uint32 (to_int32 z) = to_uint32 z.
Proof.
  unfold to_uint32, to_int32.
  rewrite Zminus_mod_idemp_l. f_equal. lia.
Qed.

Lemma pow2_bounds (e w : Z) : 0 <= e < w -> 1 <= 2 ^ e <= 2 ^ (w - 1).
Proof.
  intro He. split.
  - change 1 with (2 ^ 0). apply Z.pow_le_mono_r; lia.
  - apply Z.pow_le_mono_r; lia.
Qed.

(** The exponent of a draw, [gen() % 64] or [rand() % 32]. *)
Lemma exponent_range (d w : Z) :
  0 <= d -> 0 < w -> Z.rem d w = d mod w /\ 0 <= d mod w < w.
Proof.
  intros Hd Hw. split.
  - apply Z.rem_mod_nonneg; lia.
  - apply Z.mod_pos_bound. exact Hw.
Qed.

(** [1ULL << e] is [2^e], an unsigned 64-bit word with one bit set. *)
Lemma shift64_value (d : Z) :
  0 <= d -> to_uint64 (Z.shiftl 1 (Z.rem d 64)) = 2 ^ (d mod 64).
Proof.
  intro Hd. destruct (exponent_range d 64 Hd ltac:(lia)) as [-> He].
  rewrite Z.shiftl_1_l. apply to_uint64_small.
  pose proof (pow2_bounds (d mod 64) 64 He). simpl (64 - 1) in *.
  assert (2 ^ 63 < 2 ^ 64) by (apply Z.pow_lt_mono_r; lia). lia.
Qed.

Lemma shift32_value (d : Z) :
  0 <= d -> to_uint32 (Z.shiftl 1 (Z.rem d 32)) = 2 ^ (d mod 32).
Proof.
  intro Hd. destruct (exponent_range d 32 Hd ltac:(lia)) as [-> He].
  rewrite Z.shiftl_1_l. apply to_uint32_small.
  pose proof (pow2_bounds (d mod 32) 32 He). simpl (32 - 1) in *.
  assert (2 ^ 31 < 2 ^ 32) by (apply Z.pow_lt_mono_r; lia). lia.
Qed.

(** The divisor the 64-bit generator takes remainders by is the power of two
    that was drawn, also when [int64_t modulo] holds it as [INT64_MIN]. *)
Lemma divisor64_new_modulo64 (d : Z) :
  0 <= d -> divisor64 (new_modulo64 d) = 2 ^ (d mod 64).
Proof.
  intro Hd. unfold divisor64, new_modulo64.
  rewrite to_uint64_to_int64, (shift64_value d Hd).
  destruct (exponent_range d 64 Hd ltac:(lia)) as [_ He].
  pose proof (pow2_bounds (d mod 64) 64 He) as Hb. simpl (64 - 1) in Hb.
  apply to_uint64_small.
  assert (2 ^ 63 < 2 ^ 64) by (apply Z.pow_lt_mono_r; lia). lia.
Qed.

(** What [int64_t modulo] holds after the assignment. *)
Lemma new_modulo64_stored (d : Z) :
  0 <= d ->
  new_modulo64 d = if d mod 64 =? 63 then INT64_MIN else 2 ^ (d mod 64).
Proof.
  intro Hd. unfold new_modulo64. rewrite (shift64_value d Hd).
  destruct (exponent_range d 64 Hd ltac:(lia)) as [_ He].
  destruct (Z.eqb_spec (d mod 64) 63) as [E | E].
  - rewrite E. reflexivity.
  - apply to_int64_small.
    assert (2 ^ (d mod 64) <= 2 ^ 62) by (apply Z.pow_le_mono_r; lia).
    assert (0 < 2 ^ (d mod 64)) by (apply Z.pow_pos_nonneg; lia).
    lia.
Qed.

(** What [int modulo] holds after the assignment. *)
Lemma new_modulo32_stored (d : Z) :
  0 <= d ->
  new_modulo32 d = if d mod 32 =? 31 then INT_MIN else 2 ^ (d mod 32).
Proof.
  intro Hd. unfold new_modulo32. rewrite (shift32_value d Hd).
  destruct (exponent_range d 32 Hd ltac:(lia)) as [_ He].
  destruct (Z.eqb_spec (d mod 32) 31) as [E | E].
  - rewrite E. reflexivity.
  - apply to_int32_small.
    assert (2 ^ (d mod 32) <= 2 ^ 30) by (apply Z.pow_le_mono_r; lia).
    assert (0 < 2 ^ (d mod 32)) by (apply Z.pow_pos_nonneg; lia).
    lia.
Qed.

(** The magnitude of [int modulo] is the power of two that was drawn. *)
Lemma abs_new_modulo32 (d : Z) :
  0 <= d -> Z.abs (divisor32 (new_modulo32 d)) = 2 ^ (d mod 32).
Proof.
  intro Hd. unfold divisor32. rewrite (new_modulo32_stored d Hd).
  destruct (exponent_range d 32 Hd ltac:(lia)) as [_ He].
  destruct (Z.eqb_spec (d mod 32) 31) as [E | E].
  - rewrite E. reflexivity.
  - apply Z.abs_eq. apply Z.pow_nonneg. lia.
Qed.

(** [gen() % modulo], stored in [int64_t number]: the unsigned remainder. *)
Lemma number64_value (d2 m e : Z) :
  0 <= d2 -> 0 <= e < 64 -> divisor64 m = 2 ^ e ->
  to_int64 (Z.rem d2 (divisor64 m)) = d2 mod 2 ^ e /\
  0 <= d2 mod 2 ^ e < 2 ^ e.
Proof.
  intros Hd He ->.
  assert (Hp : 0 < 2 ^ e) by (apply Z.pow_pos_nonneg; lia).
  pose proof (pow2_bounds e 64 He) as Hb. simpl (64 - 1) in Hb.
  pose proof (Z.mod_pos_bound d2 (2 ^ e) Hp) as Hm.
  rewrite Z.rem_mod_nonneg by lia.
  split; [apply to_int64_small; lia | exact Hm].
Qed.

(** [rand() % modulo] in [int]: for a draw that is not negative, the
    remainder by the magnitude of [modulo]. *)
Lemma number32_value (d2 m e : Z) :
  0 <= d2 -> 0 <= e < 32 -> Z.abs (divisor32 m) = 2 ^ e ->
  Z.rem d2 (divisor32 m) = d2 mod 2 ^ e /\ 0 <= d2 mod 2 ^ e < 2 ^ e.
Proof.
  intros Hd He Habs.
  assert (Hp : 0 < 2 ^ e) by (apply Z.pow_pos_nonneg; lia).
  assert (Hnz : divisor32 m <> 0) by lia.
  rewrite <- (Z.rem_abs_r d2 (divisor32 m) Hnz), Habs.
  rewrite Z.rem_mod_nonneg by lia.
  split; [reflexivity | apply Z.mod_pos_bound; exact Hp].
Qed.

(* ================================================================= *)
(** ** The passes of a run *)

Section Passes.

Variable L : Z.
Variable src : rng.
Variable in_range : Z -> Prop.
Variable new_modulo : Z -> Z.
Variable divisor : Z -> Z.
Variable number_of : Z -> Z -> Z.

Local Abbreviation pass_ok :=
  (pass_ok L src in_range new_modulo divisor number_of).
Local Abbreviation passes :=
  (passes L src in_range new_modulo divisor number_of).

Lemma passes_nth :
  forall i m t, passes i m t ->
  forall j it, nth_error t j = Some it ->
  pass_ok (i + Z.of_nat j) (incoming m t j) it.
Proof.
  induction 1 as [i m | i m it0 t Hok Hrest IH]; intros j it Hj.
  - destruct j; discriminate.
  - destruct j as [| j'].
    + simpl in Hj. injection Hj as <-. simpl. rewrite Z.add_0_r. exact Hok.
    + change (nth_error t j' = Some it) in Hj. specialize (IH j' it Hj).
      replace (i + Z.of_nat (S j')) with (i + 1 + Z.of_nat j') by lia.
      destruct j' as [| j'']; [exact IH |].
      unfold incoming in *. change (nth_error (it0 :: t) (S j''))
        with (nth_error t j'').
      destruct (nth_error t j'') as [p |] eqn:Ep; [exact IH |].
      apply nth_error_None in Ep.
      assert (Hlt : (S j'' < List.length t)%nat)
        by (apply nth_error_Some; congruence).
      lia.
Qed.

Lemma fresh_iff (i m : Z) (it : iteration) :
  pass_ok i m it -> is_fresh it = (Z.rem i L =? 0).
Proof.
  intros (_ & Hm & _). unfold is_fresh.
  destruct (Z.rem i L =? 0).
  - destruct Hm as (d & _ & -> & _). reflexivity.
  - destruct Hm as [-> _]. reflexivity.
Qed.

End Passes.

Lemma div_step (L i : Z) :
  0 < L -> 0 <= i ->
  (i + L) / L - (i + L - 1) / L = if Z.rem i L =? 0 then 1 else 0.
Proof.
  intros HL Hi. rewrite Z.rem_mod_nonneg by lia.
  pose proof (Z.div_mod i L ltac:(lia)) as Hdm.
  pose proof (Z.mod_pos_bound i L HL) as Hr.
  assert (E1 : (i + L) / L = i / L + 1).
  { symmetry. apply (Z.div_unique (i + L) L (i / L + 1) (i mod L)); lia. }
  rewrite E1. destruct (Z.eqb_spec (i mod L) 0) as [E | E].
  - assert ((i + L - 1) / L = i / L).
    { symmetry. apply (Z.div_unique (i + L - 1) L (i / L) (L - 1)); lia. }
    lia.
  - assert ((i + L - 1) / L = i / L + 1).
    { symmetry.
      apply (Z.div_unique (i + L - 1) L (i / L + 1) (i mod L - 1)); lia. }
    lia.
Qed.

Section PassesFrom.

Variable L : Z.
Variable src : rng.
Variable in_range : Z -> Prop.
Variable new_modulo : Z -> Z.
Variable divisor : Z -> Z.
Variable number_of : Z -> Z -> Z.
Hypothesis L_pos : 0 < L.

Local Abbreviation run :=
  (passes L src in_range new_modulo divisor number_of).

(** The moduli drawn over the indices [i .. i + length t - 1]. *)
Lemma moduli_drawn_passes :
  forall i m t, run i m t -> 0 <= i ->
  Z.of_nat (moduli_drawn t)
  = (i + Z.of_nat (List.length t) + L - 1) / L - (i + L - 1) / L.
Proof.
  induction 1 as [i m | i m it t Hok Hrest IH]; intro Hi.
  - simpl. replace (i + 0 + L - 1) with (i + L - 1) by lia. lia.
  - unfold moduli_drawn in *. cbn [filter List.length].
    rewrite (fresh_iff _ _ _ _ _ _ _ _ _ Hok).
    specialize (IH ltac:(lia)).
    pose proof (div_step L i L_pos Hi) as Hstep.
    replace (i + 1 + L - 1) with (i + L) in IH by lia.
    replace (i + Z.of_nat (S (List.length t)) + L - 1)
      with (i + 1 + Z.of_nat (List.length t) + L - 1) by lia.
    destruct (Z.rem i L =? 0); cbn [List.length]; lia.
Qed.

(** Every pass takes its remainder by the modulus drawn at the first index
    of its run. *)
Lemma modulo_of_run_start :
  forall m t, run 0 m t ->
  forall j it, nth_error t j = Some it ->
  exists it0,
    nth_error t (Z.to_nat (run_start L (Z.of_nat j))) = Some it0 /\
    is_fresh it0 = true /\
    it_modulo it = it_modulo it0.
Proof.
  intros m t Hrun j.
  induction j as [j IHj] using (well_founded_induction lt_wf).
  intros it Hj.
  pose proof (passes_nth _ _ _ _ _ _ _ _ _ Hrun j it Hj) as Hok.
  rewrite Z.add_0_l in Hok.
  pose proof (fresh_iff _ _ _ _ _ _ _ _ _ Hok) as Hfresh.
  destruct Hok as (_ & Hm & _).
  pose proof (Z.div_mod (Z.of_nat j) L ltac:(lia)) as Hdm.
  pose proof (Z.mod_pos_bound (Z.of_nat j) L L_pos) as Hr.
  rewrite Z.rem_mod_nonneg in Hm, Hfresh by lia.
  destruct (Z.eqb_spec (Z.of_nat j mod L) 0) as [E | E].
  - exists it. unfold run_start.
    replace (L * (Z.of_nat j / L)) with (Z.of_nat j) by lia.
    rewrite Nat2Z.id. auto.
  - destruct Hm as [_ Hm].
    destruct j as [| j']; [rewrite Z.mod_0_l in E by lia; lia |].
    simpl in Hm.
    destruct (nth_error t j') as [p |] eqn:Ep.
    + destruct (IHj j' ltac:(lia) p Ep) as (it0 & H0 & Hf0 & Hm0).
      exists it0. split; [| split; [exact Hf0 | congruence]].
      assert (Hq : Z.of_nat j' / L = Z.of_nat (S j') / L).
      { symmetry.
        apply (Z.div_unique (Z.of_nat j') L (Z.of_nat (S j') / L)
                 (Z.of_nat (S j') mod L - 1)); lia. }
      unfold run_start in *. rewrite <- Hq. exact H0.
    + apply nth_error_None in Ep.
      assert (Hlt : (S j' < List.length t)%nat)
        by (apply nth_error_Some; congruence).
      lia.
Qed.

End PassesFrom.

(* ================================================================= *)
(** ** The two generators as runs of passes *)

Lemma loop_effect_nil {S : Type} (w : bool) (hl : Z -> string)
    (l : locals S) : loop_effect w hl l l [].
Proof.
  unfold loop_effect. simpl. rewrite !app_nil_r. auto.
Qed.

Lemma loop_effect_cons {S : Type} (w : bool) (hl : Z -> string)
    (l l1 l' : locals S) (it : iteration) (t : list iteration) :
  pass_effect w hl l l1 it -> loop_effect w hl l1 l' t ->
  loop_effect w hl l l' (it :: t).
Proof.
  intros (_ & Ht & Hb & Hd & Hh) (Ht' & Hb' & Hd' & Hh').
  unfold loop_effect.
  rewrite Ht', Hb', Hd', Hh', Ht, Hb, Hd, Hh, <- !app_assoc.
  simpl. auto.
Qed.

(** The effect of a pass is read off the record the body returns; the pass
    record is found in its [trace]. *)
Ltac read_pass_effect w :=
  unfold pass_effect, record_all; cbn;
  refine (conj _ (conj eq_refl _)); [reflexivity | destruct w; auto].

Section GeneratorFacts.

Context {G : Type} {EG : Engine64 G} {R : Type} {CR : CRand R}.

Lemma new_modulo64_divisor_nonzero (d : Z) :
  in_uint64 d -> divisor64 (new_modulo64 d) <> 0.
Proof.
  intros [Hd _]. rewrite (divisor64_new_modulo64 d Hd).
  apply Z.pow_nonzero; [lia |].
  apply Z.mod_pos_bound. lia.
Qed.

Lemma new_modulo32_divisor_nonzero (d : Z) :
  in_rand d -> divisor32 (new_modulo32 d) <> 0.
Proof.
  intros [Hd _]. pose proof (abs_new_modulo32 d Hd) as Habs.
  assert (0 < 2 ^ (d mod 32)).
  { apply Z.pow_pos_nonneg; [lia |]. apply Z.mod_pos_bound. lia. }
  lia.
Qed.

Lemma invoke_in_range (g : G) : in_uint64 (fst (invoke g)).
Proof. exact (invoke_range g). Qed.

Lemma rand_in_range (r : R) : in_rand (fst (rand r)).
Proof. exact (rand_range r). Qed.

Lemma body64_spec (L : Z) (w : bool) (i : Z) (l l1 : locals G) :
  body64 L w i l = Some l1 ->
  exists it, pass_ok L Mt19937_64 in_uint64 new_modulo64 divisor64 number64
               i (modulo l) it /\
             pass_effect w hex_line64 l l1 it.
Proof.
  unfold body64. destruct (L =? 0); [discriminate |].
  destruct (Z.rem i L =? 0) eqn:Eb.
  - pose proof (invoke_in_range (rng_state l)) as Hd.
    destruct (invoke (rng_state l)) as [d g1]. cbn [fst] in Hd.
    pose proof (invoke_in_range g1) as Hd2.
    destruct (invoke g1) as [d2 g2]. cbn [fst] in Hd2.
    destruct (Z.eqb_spec (divisor64 (new_modulo64 d)) 0) as [| Hnz];
      [discriminate |].
    intros [= <-]. eexists. split; cycle 1.
    + read_pass_effect w.
    + unfold pass_ok. cbn. rewrite Eb.
      split; [reflexivity |]. split; [exists d; auto |].
      exists d2. auto.
  - pose proof (invoke_in_range (rng_state l)) as Hd2.
    destruct (invoke (rng_state l)) as [d2 g2]. cbn [fst] in Hd2.
    destruct (Z.eqb_spec (divisor64 (modulo l)) 0) as [| Hnz];
      [discriminate |].
    intros [= <-]. eexists. split; cycle 1.
    + read_pass_effect w.
    + unfold pass_ok. cbn. rewrite Eb.
      split; [reflexivity |]. split; [auto |].
      exists d2. auto.
Qed.

Lemma body32_spec (L : Z) (w : bool) (i : Z) (l l1 : locals R) :
  body32 L w i l = Some l1 ->
  exists it, pass_ok L CStdlibRand in_rand new_modulo32 divisor32 number32
               i (modulo l) it /\
             pass_effect w hex_line32 l l1 it.
Proof.
  unfold body32. destruct (L =? 0); [discriminate |].
  destruct (Z.rem i L =? 0) eqn:Eb.
  - pose proof (rand_in_range (rng_state l)) as Hd.
    destruct (rand (rng_state l)) as [d r1]. cbn [fst] in Hd.
    pose proof (rand_in_range r1) as Hd2.
    destruct (rand r1) as [d2 r2]. cbn [fst] in Hd2.
    destruct (Z.eqb_spec (divisor32 (new_modulo32 d)) 0) as [| Hnz];
      [discriminate |].
    intros [= <-]. eexists. split; cycle 1.
    + read_pass_effect w.
    + unfold pass_ok. cbn. rewrite Eb.
      split; [reflexivity |]. split; [exists d; auto |].
      exists d2. auto.
  - pose proof (rand_in_range (rng_state l)) as Hd2.
    destruct (rand (rng_state l)) as [d2 r2]. cbn [fst] in Hd2.
    destruct (Z.eqb_spec (divisor32 (modulo l)) 0) as [| Hnz];
      [discriminate |].
    intros [= <-]. eexists. split; cycle 1.
    + read_pass_effect w.
    + unfold pass_ok. cbn. rewrite Eb.
      split; [reflexivity |]. split; [auto |].
      exists d2. auto.
Qed.

(** A pass is defined as soon as [run_length] is not zero and [modulo] is
    not zero where the pass does not draw a new one. *)
Lemma body64_defined (L : Z) (w : bool) (i : Z) (l : locals G) :
  L <> 0 -> Z.rem i L = 0 \/ divisor64 (modulo l) <> 0 ->
  exists l1, body64 L w i l = Some l1.
Proof.
  intros HL Hpre. unfold body64.
  destruct (Z.eqb_spec L 0) as [| _]; [contradiction |].
  destruct (Z.eqb_spec (Z.rem i L) 0) as [E | E].
  - pose proof (invoke_in_range (rng_state l)) as Hd.
    destruct (invoke (rng_state l)) as [d g1]. cbn [fst] in Hd.
    destruct (invoke g1) as [d2 g2].
    pose proof (new_modulo64_divisor_nonzero d Hd) as Hnz.
    destruct (Z.eqb_spec (divisor64 (new_modulo64 d)) 0) as [| _];
      [contradiction |].
    eexists. reflexivity.
  - destruct Hpre as [| Hnz]; [contradiction |].
    destruct (invoke (rng_state l)) as [d2 g2].
    destruct (Z.eqb_spec (divisor64 (modulo l)) 0) as [| _];
      [contradiction |].
    eexists. reflexivity.
Qed.

Lemma body32_defined (L : Z) (w : bool) (i : Z) (l : locals R) :
  L <> 0 -> Z.rem i L = 0 \/ divisor32 (modulo l) <> 0 ->
  exists l1, body32 L w i l = Some l1.
Proof.
  intros HL Hpre. unfold body32.
  destruct (Z.eqb_spec L 0) as [| _]; [contradiction |].
  destruct (Z.eqb_spec (Z.rem i L) 0) as [E | E].
  - pose proof (rand_in_range (rng_state l)) as Hd.
    destruct (rand (rng_state l)) as [d r1]. cbn [fst] in Hd.
    destruct (rand r1) as [d2 r2].
    pose proof (new_modulo32_divisor_nonzero d Hd) as Hnz.
    destruct (Z.eqb_spec (divisor32 (new_modulo32 d)) 0) as [| _];
      [contradiction |].
    eexists. reflexivity.
  - destruct Hpre as [| Hnz]; [contradiction |].
    destruct (rand (rng_state l)) as [d2 r2].
    destruct (Z.eqb_spec (divisor32 (modulo l)) 0) as [| _];
      [contradiction |].
    eexists. reflexivity.
Qed.

End GeneratorFacts.

(** The loop, for any body that makes passes. *)
Section Loop.

Variable S : Type.
Variable body : Z -> locals S -> option (locals S).
Variable L : Z.
Variable src : rng.
Variable in_range : Z -> Prop.
Variable new_modulo : Z -> Z.
Variable divisor : Z -> Z.
Variable number_of : Z -> Z -> Z.
Variable w : bool.
Variable hex_line : Z -> string.

Local Abbreviation ok :=
  (pass_ok L src in_range new_modulo divisor number_of).
Local Abbreviation run :=
  (passes L src in_range new_modulo divisor number_of).

Hypothesis body_spec :
  forall i l l1, body i l = Some l1 ->
  exists it, ok i (modulo l) it /\ pass_effect w hex_line l l1 it.

Hypothesis body_defined :
  forall i l, Z.rem i L = 0 \/ divisor (modulo l) <> 0 ->
  exists l1, body i l = Some l1.

Lemma for_loop_passes :
  forall count i l l', for_loop body count i l = Some l' ->
  exists t, List.length t = count /\ run i (modulo l) t /\
            loop_effect w hex_line l l' t.
Proof.
  induction count as [| count IH]; intros i l l' Hloop.
  - injection Hloop as <-. exists []. split; [reflexivity |].
    split; [constructor | apply loop_effect_nil].
  - cbn [for_loop] in Hloop.
    destruct (body i l) as [l1 |] eqn:Hbody; [| discriminate].
    destruct (body_spec i l l1 Hbody) as (it & Hok & Heff).
    destruct (IH (i + 1) l1 l' Hloop) as (t & Hlen & Hrun & Hle).
    exists (it :: t). split; [simpl; congruence |]. split.
    + constructor; [exact Hok |].
      destruct Heff as (Hm & _). rewrite <- Hm. exact Hrun.
    + eapply loop_effect_cons; eassumption.
Qed.

Lemma for_loop_defined :
  forall count i l, Z.rem i L = 0 \/ divisor (modulo l) <> 0 ->
  exists l', for_loop body count i l = Some l'.
Proof.
  induction count as [| count IH]; intros i l Hpre.
  - exists l. reflexivity.
  - cbn [for_loop].
    destruct (body_defined i l Hpre) as (l1 & Hbody). rewrite Hbody.
    destruct (body_spec i l l1 Hbody) as (it & Hok & Hm & _).
    apply IH. right. rewrite Hm.
    destruct Hok as (_ & _ & d2 & _ & _ & Hnz & _). exact Hnz.
Qed.

End Loop.

Lemma string_app_nil_r (s : string) : (s ++ EmptyString)%string = s.
Proof. induction s as [| c s IH]; simpl; [reflexivity | now rewrite IH]. Qed.

Lemma string_app_assoc (a b c : string) :
  ((a ++ b) ++ c)%string = (a ++ (b ++ c))%string.
Proof. induction a as [| x a IH]; simpl; [reflexivity | now rewrite IH]. Qed.

(** The text of a stream that is open when the loop begins. *)
Lemma record_all_open (line : Z -> string) (vs : list Z) (content : string) :
  record_all true line (Some content) vs
  = Some (content ++ render line vs)%string.
Proof.
  revert content. induction vs as [| v vs IH]; intro content.
  - simpl. now rewrite string_app_nil_r.
  - unfold record_all in *. cbn [fold_left render Text.put option_map].
    rewrite IH. now rewrite string_app_assoc.
Qed.

Lemma record_all_off (line : Z -> string) (vs : list Z) (os : Text.ofstream) :
  record_all false line os vs = os.
Proof.
  revert os. induction vs as [| v vs IH]; intro os; [reflexivity |].
  unfold record_all in *. simpl. apply IH.
Qed.

Section Runs.

Context {G : Type} {EG : Engine64 G} {R : Type} {CR : CRand R}.

(** For a [run_length] that is not zero the 64-bit generator returns, and
    its passes are a run from index 0 that found 0 in [modulo]. *)
Lemma generate_int64_run (e : env R) (n L : Z) (w : bool) :
  L <> 0 ->
  exists r, generate_int64_delta_varied_bit_width_table e n L w = Some r /\
            passes64 L 0 0 (trace (final r)) /\
            run_effect w hex_line64 64 n r.
Proof.
  intro HL. unfold generate_int64_delta_varied_bit_width_table.
  destruct (for_loop_defined G (body64 L w) L Mt19937_64 in_uint64
              new_modulo64 divisor64 number64 w hex_line64
              (body64_spec L w) (fun i l => body64_defined L w i l HL)
              (Z.to_nat n) 0 (init64 e w))
    as (l' & Hloop).
  { left. apply Z.rem_0_l. exact HL. }
  rewrite Hloop. eexists. split; [reflexivity |].
  destruct (for_loop_passes G (body64 L w) L Mt19937_64 in_uint64
              new_modulo64 divisor64 number64 w hex_line64
              (body64_spec L w) _ _ _ _ Hloop)
    as (t & Hlen & Hrun & Ht & Hb & Hd & Hh).
  cbn in Ht, Hb, Hd, Hh, Hrun. subst t.
  split; [exact Hrun |].
  unfold run_effect. cbn. rewrite Hb. auto.
Qed.

Lemma generate_int32_run (e : env R) (n L : Z) (w : bool) :
  L <> 0 ->
  exists r, generate_int32_delta_varied_bit_width_table e n L w = Some r /\
            passes32 L 0 0 (trace (final r)) /\
            run_effect w hex_line32 32 n r.
Proof.
  intro HL. unfold generate_int32_delta_varied_bit_width_table.
  destruct (for_loop_defined R (body32 L w) L CStdlibRand in_rand
              new_modulo32 divisor32 number32 w hex_line32
              (body32_spec L w) (fun i l => body32_defined L w i l HL)
              (Z.to_nat n) 0 (init32 e w))
    as (l' & Hloop).
  { left. apply Z.rem_0_l. exact HL. }
  rewrite Hloop. eexists. split; [reflexivity |].
  destruct (for_loop_passes R (body32 L w) L CStdlibRand in_rand
              new_modulo32 divisor32 number32 w hex_line32
              (body32_spec L w) _ _ _ _ Hloop)
    as (t & Hlen & Hrun & Ht & Hb & Hd & Hh).
  cbn in Ht, Hb, Hd, Hh, Hrun. subst t.
  split; [exact Hrun |].
  unfold run_effect. cbn. rewrite Hb. auto.
Qed.

End Runs.

(* ================================================================= *)
(** ** The draws of a run are the results of its random source *)

(** Drawing [j] and then [k] is drawing [j + k]. *)
Lemma draws_add {S : Type} (step : S -> Z * S) (j k : nat) :
  forall s,
  draws step (j + k) s
  = (fst (draws step j s) ++ fst (draws step k (snd (draws step j s))),
     snd (draws step k (snd (draws step j s)))).
Proof.
  induction j as [| j IH]; intro s.
  - cbn [Nat.add draws fst snd app].
    destruct (draws step k s); reflexivity.
  - cbn [Nat.add draws]. destruct (step s) as [d s1].
    rewrite (IH s1). destruct (draws step j s1) as [ds s2].
    cbn [fst snd app]. reflexivity.
Qed.

Lemma draws_of_app (a b : list iteration) :
  draws_of (a ++ b) = draws_of a ++ draws_of b.
Proof. unfold draws_of. apply flat_map_app. Qed.

Section DrawsOfARun.

Context {G : Type} {EG : Engine64 G} {R : Type} {CR : CRand R}.

Lemma body64_draws (L : Z) (w : bool) (i : Z) (l l1 : locals G) :
  body64 L w i l = Some l1 ->
  exists it,
    trace l1 = trace l ++ [it] /\
    draws invoke (List.length (draws_of [it])) (rng_state l)
    = (map d_value (draws_of [it]), rng_state l1).
Proof.
  unfold body64. destruct (L =? 0); [discriminate |].
  destruct (Z.rem i L =? 0).
  - destruct (invoke (rng_state l)) as [d g1] eqn:E1.
    destruct (invoke g1) as [d2 g2] eqn:E2.
    destruct (divisor64 (new_modulo64 d) =? 0); [discriminate |].
    intros [= <-]. eexists. split; [reflexivity |].
    cbn. rewrite E1, E2. reflexivity.
  - destruct (invoke (rng_state l)) as [d2 g2] eqn:E2.
    destruct (divisor64 (modulo l) =? 0); [discriminate |].
    intros [= <-]. eexists. split; [reflexivity |].
    cbn. rewrite E2. reflexivity.
Qed.

Lemma body32_draws (L : Z) (w : bool) (i : Z) (l l1 : locals R) :
  body32 L w i l = Some l1 ->
  exists it,
    trace l1 = trace l ++ [it] /\
    draws rand (List.length (draws_of [it])) (rng_state l)
    = (map d_value (draws_of [it]), rng_state l1).
Proof.
  unfold body32. destruct (L =? 0); [discriminate |].
  destruct (Z.rem i L =? 0).
  - destruct (rand (rng_state l)) as [d g1] eqn:E1.
    destruct (rand g1) as [d2 g2] eqn:E2.
    destruct (divisor32 (new_modulo32 d) =? 0); [discriminate |].
    intros [= <-]. eexists. split; [reflexivity |].
    cbn. rewrite E1, E2. reflexivity.
  - destruct (rand (rng_state l)) as [d2 g2] eqn:E2.
    destruct (divisor32 (modulo l) =? 0); [discriminate |].
    intros [= <-]. eexists. split; [reflexivity |].
    cbn. rewrite E2. reflexivity.
Qed.

Lemma for_loop_draws {S : Type} (step : S -> Z * S)
    (body : Z -> locals S -> option (locals S)) :
  (forall i l l1, body i l = Some l1 ->
     exists it,
       trace l1 = trace l ++ [it] /\
       draws step (List.length (draws_of [it])) (rng_state l)
       = (map d_value (draws_of [it]), rng_state l1)) ->
  forall count i l l', for_loop body count i l = Some l' ->
  exists t,
    trace l' = trace l ++ t /\
    draws step (List.length (draws_of t)) (rng_state l)
    = (map d_value (draws_of t), rng_state l').
Proof.
  intro Hbody. induction count as [| count IH]; intros i l l' Hloop.
  - injection Hloop as <-. exists []. rewrite app_nil_r. auto.
  - cbn [for_loop] in Hloop.
    destruct (body i l) as [l1 |] eqn:E; [| discriminate].
    destruct (Hbody _ _ _ E) as (it & Ht & Hd).
    destruct (IH _ _ _ Hloop) as (t & Ht' & Hd').
    exists (it :: t). split; [rewrite Ht', Ht, <- app_assoc; reflexivity |].
    change (it :: t) with ([it] ++ t).
    rewrite draws_of_app, length_app, map_app, draws_add, Hd.
    cbn [fst snd]. rewrite Hd'. reflexivity.
Qed.

(** The draws a run of the 64-bit generator records are, in order, the
    first results of the engine seeded with what [std::random_device] gave,
    and the engine is left in the state after them. *)
Lemma generate_int64_draws (e : env R) (n L : Z) (w : bool) (r : outcome G) :
  generate_int64_delta_varied_bit_width_table e n L w = Some r ->
  draws invoke (List.length (draws_of (trace (final r))))
    (seed_engine (random_device e))
  = (map d_value (draws_of (trace (final r))), rng_state (final r)).
Proof.
  unfold generate_int64_delta_varied_bit_width_table.
  destruct (for_loop (body64 L w) _ 0 _) as [l |] eqn:E; [| discriminate].
  intros [= <-]. cbn [final].
  destruct (for_loop_draws invoke _ (body64_draws L w) _ _ _ _ E)
    as (t & Ht & Hd).
  cbn [init64 trace rng_state app] in Ht, Hd. subst t. exact Hd.
Qed.

(** Those of the 32-bit generator are the next results of [rand()]. *)
Lemma generate_int32_draws (e : env R) (n L : Z) (w : bool) (r : outcome R) :
  generate_int32_delta_varied_bit_width_table e n L w = Some r ->
  draws rand (List.length (draws_of (trace (final r)))) (rand_state e)
  = (map d_value (draws_of (trace (final r))), rng_state (final r)).
Proof.
  unfold generate_int32_delta_varied_bit_width_table.
  destruct (for_loop (body32 L w) _ 0 _) as [l |] eqn:E; [| discriminate].
  intros [= <-]. cbn [final].
  destruct (for_loop_draws rand _ (body32_draws L w) _ _ _ _ E)
    as (t & Ht & Hd).
  cbn [init32 trace rng_state app] in Ht, Hd. subst t. exact Hd.
Qed.

End DrawsOfARun.

(* ================================================================= *)
(** ** The schedule of moduli and the range of the values *)

Section Schedule.

Variable L : Z.
Variable src : rng.
Variable in_range : Z -> Prop.
Variable new_modulo : Z -> Z.
Variable divisor : Z -> Z.
Variable number_of : Z -> Z -> Z.

Local Abbreviation ok :=
  (pass_ok L src in_range new_modulo divisor number_of).

Lemma fresh_pass (i m : Z) (it : iteration) :
  ok i m it -> is_fresh it = true ->
  exists d, in_range d /\
    it_new_modulo it = Some {| d_source := src; d_value := d |} /\
    it_modulo it = new_modulo d.
Proof.
  intros Hok Hf. rewrite (fresh_iff _ _ _ _ _ _ _ _ _ Hok) in Hf.
  destruct Hok as (_ & Hm & _). rewrite Hf in Hm. exact Hm.
Qed.

Lemma pass_draw (i m : Z) (it : iteration) :
  ok i m it ->
  exists d2, in_range d2 /\
    it_draw it = {| d_source := src; d_value := d2 |} /\
    divisor (it_modulo it) <> 0 /\
    it_number it = number_of d2 (it_modulo it).
Proof. intros (_ & _ & H). exact H. Qed.

End Schedule.

Lemma nth_error_in_range {A : Type} (t : list A) (n i : Z) :
  List.length t = Z.to_nat n -> 0 <= i < n ->
  exists x, nth_error t (Z.to_nat i) = Some x.
Proof.
  intros Hlen Hi.
  destruct (nth_error t (Z.to_nat i)) as [x |] eqn:E; [eauto |].
  apply nth_error_None in E. lia.
Qed.

Lemma run_start_bounds (L i : Z) :
  0 < L -> 0 <= i -> 0 <= run_start L i <= i /\ Z.rem (run_start L i) L = 0.
Proof.
  intros HL Hi. unfold run_start.
  pose proof (Z.div_mod i L ltac:(lia)) as Hdm.
  pose proof (Z.mod_pos_bound i L HL) as Hr.
  assert (0 <= i / L) by (apply Z.div_pos; lia).
  split; [nia |].
  rewrite Z.rem_mod_nonneg by nia.
  rewrite Z.mul_comm. apply Z.mod_mul. lia.
Qed.

(** The facts about pass [i] of a run of the 64-bit generator: the modulus
    it divides by is the power of two drawn at the first index of its run,
    and its value is the unsigned remainder of its own draw. *)
Lemma pass64_facts (L m : Z) (t : list iteration) (i : Z) (it : iteration) :
  0 < L -> passes64 L 0 m t -> 0 <= i ->
  nth_error t (Z.to_nat i) = Some it ->
  exists it0 e d,
    nth_error t (Z.to_nat (run_start L i)) = Some it0 /\
    it_new_modulo it0 = Some {| d_source := Mt19937_64; d_value := e |} /\
    in_uint64 e /\
    it_modulo it0 = new_modulo64 e /\
    it_modulo it = it_modulo it0 /\
    divisor64 (it_modulo it) = 2 ^ (e mod 64) /\
    it_draw it = {| d_source := Mt19937_64; d_value := d |} /\
    in_uint64 d /\
    it_number it = d mod 2 ^ (e mod 64) /\
    0 <= it_number it < divisor64 (it_modulo it).
Proof.
  intros HL Hrun Hi Hnth.
  destruct (modulo_of_run_start L _ _ _ _ _ HL m t Hrun _ it Hnth)
    as (it0 & Hnth0 & Hf0 & Hm).
  rewrite Z2Nat.id in Hnth0 by exact Hi.
  pose proof (passes_nth _ _ _ _ _ _ _ _ _ Hrun _ _ Hnth0) as Hok0.
  destruct (fresh_pass _ _ _ _ _ _ _ _ _ Hok0 Hf0) as (e & He & Hnew & Hm0).
  pose proof (passes_nth _ _ _ _ _ _ _ _ _ Hrun _ _ Hnth) as Hok.
  destruct (pass_draw _ _ _ _ _ _ _ _ _ Hok) as (d & Hd & Hdraw & _ & Hnum).
  assert (Hdiv : divisor64 (it_modulo it) = 2 ^ (e mod 64)).
  { rewrite Hm, Hm0. apply divisor64_new_modulo64. apply He. }
  assert (Hrange : 0 <= e mod 64 < 64) by (apply Z.mod_pos_bound; lia).
  destruct (number64_value d (it_modulo it) (e mod 64)
              ltac:(apply Hd) Hrange Hdiv) as [Hv Hb].
  exists it0, e, d. unfold number64 in Hnum.
  rewrite Hnum, Hv, Hdiv.
  exact (conj Hnth0 (conj Hnew (conj He (conj Hm0 (conj Hm (conj eq_refl
           (conj Hdraw (conj Hd (conj eq_refl Hb))))))))).
Qed.

Lemma incoming_prev (m : Z) (t : list iteration) (j : nat) (it : iteration) :
  nth_error t (S j) = Some it ->
  exists prev, nth_error t j = Some prev /\
               incoming m t (S j) = it_modulo prev.
Proof.
  intro Hnth. unfold incoming.
  destruct (nth_error t j) as [p |] eqn:Ep; [eauto |].
  apply nth_error_None in Ep.
  assert (Hlt : (S j < List.length t)%nat)
    by (apply nth_error_Some; congruence).
  lia.
Qed.

(** The same facts for the 32-bit generator, whose remainder is signed: the
    magnitude of [modulo] is the power of two that was drawn. *)
Lemma pass32_facts {R : Type} {CR : CRand R}
    (L m : Z) (t : list iteration) (i : Z) (it : iteration) :
  0 < L -> passes32 L 0 m t -> 0 <= i ->
  nth_error t (Z.to_nat i) = Some it ->
  exists it0 e d,
    nth_error t (Z.to_nat (run_start L i)) = Some it0 /\
    it_new_modulo it0 = Some {| d_source := CStdlibRand; d_value := e |} /\
    in_rand e /\
    it_modulo it0 = new_modulo32 e /\
    it_modulo it = it_modulo it0 /\
    Z.abs (divisor32 (it_modulo it)) = 2 ^ (e mod 32) /\
    it_draw it = {| d_source := CStdlibRand; d_value := d |} /\
    in_rand d /\
    it_number it = d mod 2 ^ (e mod 32) /\
    0 <= it_number it < 2 ^ (e mod 32).
Proof.
  intros HL Hrun Hi Hnth.
  destruct (modulo_of_run_start L _ _ _ _ _ HL m t Hrun _ it Hnth)
    as (it0 & Hnth0 & Hf0 & Hm).
  rewrite Z2Nat.id in Hnth0 by exact Hi.
  pose proof (passes_nth _ _ _ _ _ _ _ _ _ Hrun _ _ Hnth0) as Hok0.
  destruct (fresh_pass _ _ _ _ _ _ _ _ _ Hok0 Hf0) as (e & He & Hnew & Hm0).
  pose proof (passes_nth _ _ _ _ _ _ _ _ _ Hrun _ _ Hnth) as Hok.
  destruct (pass_draw _ _ _ _ _ _ _ _ _ Hok) as (d & Hd & Hdraw & _ & Hnum).
  assert (Hdiv : Z.abs (divisor32 (it_modulo it)) = 2 ^ (e mod 32)).
  { rewrite Hm, Hm0. apply abs_new_modulo32. apply He. }
  assert (Hrange : 0 <= e mod 32 < 32) by (apply Z.mod_pos_bound; lia).
  destruct (number32_value d (it_modulo it) (e mod 32)
              ltac:(apply Hd) Hrange Hdiv) as [Hv Hb].
  exists it0, e, d. unfold number32 in Hnum.
  rewrite Hnum, Hv.
  exact (conj Hnth0 (conj Hnew (conj He (conj Hm0 (conj Hm (conj Hdiv
           (conj Hdraw (conj Hd (conj eq_refl Hb))))))))).
Qed.

Lemma passes_Forall (L : Z) (src : rng) (in_range : Z -> Prop)
    (new_modulo divisor : Z -> Z) (number_of : Z -> Z -> Z) :
  forall i m t, passes L src in_range new_modulo divisor number_of i m t ->
  Forall (fun it => exists j m',
            pass_ok L src in_range new_modulo divisor number_of j m' it) t.
Proof.
  induction 1 as [i m | i m it t Hok Hrest IH]; constructor; eauto.
Qed.

Lemma draws_of_pass (L : Z) (src : rng) (in_range : Z -> Prop)
    (new_modulo divisor : Z -> Z) (number_of : Z -> Z -> Z) :
  forall i m t, passes L src in_range new_modulo divisor number_of i m t ->
  Forall (fun d => d_source d = src /\ in_range (d_value d)) (draws_of t).
Proof.
  intros i m t Hrun. unfold draws_of. apply Forall_flat_map.
  eapply Forall_impl; [| exact (passes_Forall _ _ _ _ _ _ _ _ _ Hrun)].
  intros it (j & m' & Hok).
  destruct (pass_draw _ _ _ _ _ _ _ _ _ Hok) as (d2 & Hd2 & -> & _).
  destruct (it_new_modulo it) as [d |] eqn:Enew.
  - assert (Hf : is_fresh it = true) by (unfold is_fresh; now rewrite Enew).
    destruct (fresh_pass _ _ _ _ _ _ _ _ _ Hok Hf) as (x & Hx & Hnew & _).
    rewrite Enew in Hnew. injection Hnew as ->.
    repeat constructor; assumption.
  - repeat constructor; assumption.
Qed.

Section MainResults.

Context {G : Type} {EG : Engine64 G} {R : Type} {CR : CRand R}.

(** C1. For the 64-bit variable-bit-width generator with [num_values > 0]
    and [run_length > 0], the generator returns, and the value at every
    position [i] in [0, num_values) is at least 0 and less than the modulus
    of the run that holds [i]: the power of two [2^e] whose exponent was
    drawn at the first index of that run.  The value is the unsigned
    remainder of the 64-bit draw by that power, also for [e = 63], where
    [int64_t modulo] holds [INT64_MIN] and the divisor is [2^63]. *)
Theorem value_below_active_modulus
    (e : env R) (num_values run_length : Z) (write_to_file : bool) :
  0 < num_values -> 0 < run_length ->
  exists r,
    generate_int64_delta_varied_bit_width_table e num_values run_length
      write_to_file = Some r /\
    forall i, 0 <= i < num_values ->
    exists it it0 exp_draw d,
      nth_error (trace (final r)) (Z.to_nat i) = Some it /\
      nth_error (column (returned r)) (Z.to_nat i) = Some (it_number it) /\
      nth_error (trace (final r)) (Z.to_nat (run_start run_length i))
      = Some it0 /\
      it_new_modulo it0
      = Some {| d_source := Mt19937_64; d_value := exp_draw |} /\
      it_modulo it = it_modulo it0 /\
      0 <= exp_draw mod 64 < 64 /\
      divisor64 (it_modulo it) = 2 ^ (exp_draw mod 64) /\
      (exp_draw mod 64 = 63 ->
       it_modulo it = INT64_MIN /\ divisor64 (it_modulo it) = 2 ^ 63) /\
      it_draw it = {| d_source := Mt19937_64; d_value := d |} /\
      0 <= d < 2 ^ 64 /\
      it_number it = d mod divisor64 (it_modulo it) /\
      0 <= it_number it < divisor64 (it_modulo it).
Proof.
  intros Hn HL.
  destruct (generate_int64_run e num_values run_length write_to_file
              ltac:(lia)) as (r & Hgen & Hrun & Hlen & Hcol & _).
  exists r. split; [exact Hgen |]. intros i Hi.
  destruct (nth_error_in_range _ _ _ Hlen Hi) as (it & Hnth).
  destruct (pass64_facts _ _ _ _ _ HL Hrun (proj1 Hi) Hnth)
    as (it0 & ed & d & H0 & Hnew & Hed & Hm0 & Hm & Hdiv & Hdraw & Hd
        & Hnum & Hb).
  exists it, it0, ed, d.
  assert (He : 0 <= ed mod 64 < 64) by (apply Z.mod_pos_bound; lia).
  assert (Hcoli : nth_error (column (returned r)) (Z.to_nat i)
                  = Some (it_number it)).
  { rewrite Hcol, nth_error_map, Hnth. reflexivity. }
  assert (Hedge : ed mod 64 = 63 ->
                  it_modulo it = INT64_MIN /\
                  divisor64 (it_modulo it) = 2 ^ 63).
  { intro E. split.
    - rewrite Hm, Hm0, (new_modulo64_stored ed ltac:(apply Hed)).
      rewrite E. reflexivity.
    - rewrite Hdiv, E. reflexivity. }
  rewrite <- Hdiv in Hnum.
  exact (conj Hnth (conj Hcoli (conj H0 (conj Hnew (conj Hm (conj He
           (conj Hdiv (conj Hedge (conj Hdraw (conj Hd
             (conj Hnum Hb))))))))))).
Qed.

(** What a run of the 64-bit generator over [n] values with a positive
    [run_length] leaves: [n] values, one modulus for every run begun, and at
    every index the modulus of its run. *)
Lemma run64_summary (e : env R) (n L : Z) (w : bool) :
  0 <= n -> 0 < L ->
  exists r,
    generate_int64_delta_varied_bit_width_table e n L w = Some r /\
    List.length (trace (final r)) = Z.to_nat n /\
    List.length (column (returned r)) = Z.to_nat n /\
    Z.of_nat (moduli_drawn (trace (final r))) = (n + L - 1) / L /\
    forall i it, 0 <= i ->
      nth_error (trace (final r)) (Z.to_nat i) = Some it ->
      exists it0,
        nth_error (trace (final r)) (Z.to_nat (run_start L i)) = Some it0 /\
        is_fresh it0 = true /\
        it_modulo it = it_modulo it0 /\
        0 <= it_number it < divisor64 (it_modulo it).
Proof.
  intros Hn HL.
  destruct (generate_int64_run e n L w ltac:(lia))
    as (r & Hgen & Hrun & Hlen & Hcol & _).
  exists r. split; [exact Hgen |]. split; [exact Hlen |].
  split; [rewrite Hcol, length_map; exact Hlen |]. split.
  - rewrite (moduli_drawn_passes L _ _ _ _ _ HL _ _ _ Hrun ltac:(lia)).
    rewrite Hlen, Z2Nat.id by lia.
    rewrite (Z.div_small (0 + L - 1) L) by lia.
    replace (0 + n + L - 1) with (n + L - 1) by lia. lia.
  - intros i it Hi Hnth.
    destruct (pass64_facts _ _ _ _ _ HL Hrun Hi Hnth)
      as (it0 & ed & d & H0 & Hnew & _ & _ & Hm & _ & _ & _ & _ & Hb).
    exists it0. unfold is_fresh. rewrite Hnew. auto.
Qed.

(** C2. In the 64-bit variable-bit-width generator, for [run_length > 0],
    pass [i] draws a new modulus exactly when [i mod run_length = 0] (so the
    first pass, at index 0, draws one); every other pass draws none and
    divides by the modulus of the pass before it, so the modulus is the same
    at all indices of one run. *)
Theorem modulus_drawn_exactly_at_run_boundaries
    (e : env R) (num_values run_length : Z) (write_to_file : bool) :
  0 < run_length ->
  exists r,
    generate_int64_delta_varied_bit_width_table e num_values run_length
      write_to_file = Some r /\
    List.length (trace (final r)) = Z.to_nat num_values /\
    forall i it, 0 <= i ->
      nth_error (trace (final r)) (Z.to_nat i) = Some it ->
      it_index it = i /\
      (is_fresh it = true <-> i mod run_length = 0) /\
      (i mod run_length = 0 ->
       exists d, 0 <= d < 2 ^ 64 /\
         it_new_modulo it
         = Some {| d_source := Mt19937_64; d_value := d |} /\
         it_modulo it = new_modulo64 d) /\
      (i mod run_length <> 0 ->
       it_new_modulo it = None /\
       exists prev,
         nth_error (trace (final r)) (Z.to_nat (i - 1)) = Some prev /\
         it_modulo it = it_modulo prev) /\
      (forall j jt, 0 <= j ->
         nth_error (trace (final r)) (Z.to_nat j) = Some jt ->
         i / run_length = j / run_length ->
         it_modulo it = it_modulo jt).
Proof.
  intro HL.
  destruct (generate_int64_run e num_values run_length write_to_file
              ltac:(lia)) as (r & Hgen & Hrun & Hlen & _).
  exists r. split; [exact Hgen |]. split; [exact Hlen |].
  intros i it Hi Hnth.
  pose proof (passes_nth _ _ _ _ _ _ _ _ _ Hrun _ _ Hnth) as Hok.
  rewrite Z.add_0_l, Z2Nat.id in Hok by exact Hi.
  pose proof (fresh_iff _ _ _ _ _ _ _ _ _ Hok) as Hfresh.
  destruct Hok as (Hidx & Hm & _).
  rewrite Z.rem_mod_nonneg in Hm, Hfresh by lia.
  split; [exact Hidx |].
  destruct (Z.eqb_spec (i mod run_length) 0) as [E | E].
  - split; [rewrite Hfresh; tauto |].
    split; [intros _; exact Hm |].
    split; [intro; contradiction |].
    intros j jt Hj Hnthj Hq.
    destruct (pass64_facts _ _ _ _ _ HL Hrun Hi Hnth)
      as (a & _ & _ & Ha & _ & _ & _ & Hma & _).
    destruct (pass64_facts _ _ _ _ _ HL Hrun Hj Hnthj)
      as (b & _ & _ & Hb & _ & _ & _ & Hmb & _).
    unfold run_start in Ha, Hb. rewrite Hq in Ha. congruence.
  - split; [rewrite Hfresh; split; [discriminate | contradiction] |].
    split; [intro; contradiction |].
    split.
    + intros _. destruct Hm as [Hnone Hin]. split; [exact Hnone |].
      assert (Hi1 : 1 <= i).
      { destruct (Z.eq_dec i 0) as [-> |]; [| lia].
        rewrite Z.mod_0_l in E by lia. contradiction. }
      replace (Z.to_nat i) with (S (Z.to_nat (i - 1))) in Hnth, Hin by lia.
      destruct (incoming_prev 0 _ _ _ Hnth) as (prev & Hprev & Hinc).
      exists prev. split; [exact Hprev | congruence].
    + intros j jt Hj Hnthj Hq.
      destruct (pass64_facts _ _ _ _ _ HL Hrun Hi Hnth)
        as (a & _ & _ & Ha & _ & _ & _ & Hma & _).
      destruct (pass64_facts _ _ _ _ _ HL Hrun Hj Hnthj)
        as (b & _ & _ & Hb & _ & _ & _ & Hmb & _).
      unfold run_start in Ha, Hb. rewrite Hq in Ha. congruence.
Qed.

(** C3. For every [num_values > 0] and [run_length > 0] the column of the
    64-bit generator has exactly [num_values] values (and one modulus was
    drawn for every run begun).  With [num_values = 10], [run_length = 5]
    exactly two moduli are drawn, at indices 0 and 5, the first dividing at
    indices 0..4 and the second at 5..9; with [num_values = 1],
    [run_length = 1000] exactly one; and whenever [run_length] is larger than
    [num_values] exactly one, which divides at every index. *)
Theorem column_length_and_moduli_drawn (e : env R) (write_to_file : bool) :
  (forall num_values run_length, 0 < num_values -> 0 < run_length ->
   exists r,
     generate_int64_delta_varied_bit_width_table e num_values run_length
       write_to_file = Some r /\
     Z.of_nat (List.length (column (returned r))) = num_values /\
     Z.of_nat (moduli_drawn (trace (final r)))
     = (num_values + run_length - 1) / run_length) /\
  (exists r it0 it5,
     generate_int64_delta_varied_bit_width_table e 10 5 write_to_file
     = Some r /\
     List.length (column (returned r)) = 10%nat /\
     moduli_drawn (trace (final r)) = 2%nat /\
     nth_error (trace (final r)) 0 = Some it0 /\ is_fresh it0 = true /\
     nth_error (trace (final r)) 5 = Some it5 /\ is_fresh it5 = true /\
     forall i it, 0 <= i ->
       nth_error (trace (final r)) (Z.to_nat i) = Some it ->
       (i < 5 -> it_modulo it = it_modulo it0) /\
       (5 <= i -> it_modulo it = it_modulo it5) /\
       0 <= it_number it < divisor64 (it_modulo it)) /\
  (exists r it0,
     generate_int64_delta_varied_bit_width_table e 1 1000 write_to_file
     = Some r /\
     List.length (column (returned r)) = 1%nat /\
     moduli_drawn (trace (final r)) = 1%nat /\
     trace (final r) = [it0] /\ is_fresh it0 = true /\
     column (returned r) = [it_number it0] /\
     0 <= it_number it0 < divisor64 (it_modulo it0)) /\
  (forall num_values run_length, 0 < num_values -> num_values < run_length ->
   exists r it0,
     generate_int64_delta_varied_bit_width_table e num_values run_length
       write_to_file = Some r /\
     moduli_drawn (trace (final r)) = 1%nat /\
     nth_error (trace (final r)) 0 = Some it0 /\ is_fresh it0 = true /\
     forall i it, 0 <= i ->
       nth_error (trace (final r)) (Z.to_nat i) = Some it ->
       it_modulo it = it_modulo it0).
Proof.
  split; [| split; [| split]].
  - intros n L Hn HL.
    destruct (run64_summary e n L write_to_file ltac:(lia) HL)
      as (r & Hgen & _ & Hcol & Hcount & _).
    exists r. split; [exact Hgen |]. split; [lia | exact Hcount].
  - destruct (run64_summary e 10 5 write_to_file ltac:(lia) ltac:(lia))
      as (r & Hgen & Hlen & Hcol & Hcount & Hruns).
    change ((10 + 5 - 1) / 5) with 2 in Hcount.
    destruct (nth_error_in_range _ 10 0 Hlen ltac:(lia)) as (it0 & H0).
    destruct (nth_error_in_range _ 10 5 Hlen ltac:(lia)) as (it5 & H5).
    destruct (Hruns 0 it0 ltac:(lia) H0) as (a & Ha & Hfa & _).
    destruct (Hruns 5 it5 ltac:(lia) H5) as (b & Hb & Hfb & _).
    change (Z.to_nat (run_start 5 0)) with (Z.to_nat 0) in Ha.
    change (Z.to_nat (run_start 5 5)) with (Z.to_nat 5) in Hb.
    assert (a = it0) by congruence. assert (b = it5) by congruence.
    subst a b.
    exists r, it0, it5.
    split; [exact Hgen |]. split; [exact Hcol |]. split; [lia |].
    split; [exact H0 |]. split; [exact Hfa |].
    split; [exact H5 |]. split; [exact Hfb |].
    intros i it Hi Hnth.
    destruct (Hruns i it Hi Hnth) as (c & Hc & _ & Hm & Hrange).
    assert (Hlt : i < 10).
    { assert (Hlt : (Z.to_nat i < List.length (trace (final r)))%nat)
        by (apply nth_error_Some; congruence).
      lia. }
    split; [| split; [| exact Hrange]].
    + intro Hi5. unfold run_start in Hc.
      rewrite (Z.div_small i 5) in Hc by lia. simpl (5 * 0) in Hc.
      congruence.
    + intro Hi5. unfold run_start in Hc.
      assert (E : i / 5 = 1)
        by (symmetry; apply (Z.div_unique i 5 1 (i - 5)); lia).
      rewrite E in Hc. simpl (5 * 1) in Hc. congruence.
  - destruct (run64_summary e 1 1000 write_to_file ltac:(lia) ltac:(lia))
      as (r & Hgen & Hlen & Hcol & Hcount & Hruns).
    change ((1 + 1000 - 1) / 1000) with 1 in Hcount.
    destruct (generate_int64_run e 1 1000 write_to_file ltac:(lia))
      as (r' & Hgen' & _ & _ & Hmap & _).
    assert (r' = r) by congruence. subst r'.
    destruct (trace (final r)) as [| it0 [| it1 rest]] eqn:Et;
      try discriminate Hlen.
    destruct (Hruns 0 it0 ltac:(lia) eq_refl) as (a & Ha & Hfa & _ & Hrange).
    change (Z.to_nat (run_start 1000 0)) with 0%nat in Ha.
    simpl in Ha. injection Ha as <-.
    exists r, it0. rewrite Et.
    split; [exact Hgen |]. split; [exact Hcol |]. split; [lia |].
    split; [reflexivity |]. split; [exact Hfa |].
    split; [rewrite Hmap; reflexivity | exact Hrange].
  - intros n L Hn HL.
    destruct (run64_summary e n L write_to_file ltac:(lia) ltac:(lia))
      as (r & Hgen & Hlen & Hcol & Hcount & Hruns).
    assert (E : (n + L - 1) / L = 1)
      by (symmetry; apply (Z.div_unique (n + L - 1) L 1 (n - 1)); lia).
    rewrite E in Hcount.
    destruct (nth_error_in_range _ n 0 Hlen ltac:(lia)) as (it0 & H0).
    destruct (Hruns 0 it0 ltac:(lia) H0) as (a & Ha & Hfa & _).
    unfold run_start in Ha. rewrite Z.div_0_l, Z.mul_0_r in Ha by lia.
    assert (a = it0) by congruence. subst a.
    exists r, it0.
    split; [exact Hgen |]. split; [lia |].
    split; [exact H0 |]. split; [exact Hfa |].
    intros i it Hi Hnth.
    destruct (Hruns i it Hi Hnth) as (c & Hc & _ & Hm & _).
    assert (Hlt : i < n).
    { assert (Hlt : (Z.to_nat i < List.length (trace (final r)))%nat)
        by (apply nth_error_Some; congruence).
      lia. }
    unfold run_start in Hc. rewrite (Z.div_small i L), Z.mul_0_r in Hc by lia.
    congruence.
Qed.

(** Equal exponents have equally many draws: the draws with exponent [ex]
    are the numbers [w * q + ex] with [0 <= q < range / w]. *)
Lemma exponent_fibre (w range ex d : Z) :
  0 < w -> range mod w = 0 -> 0 <= ex < w -> 0 <= d < range ->
  (d mod w = ex <-> exists q, 0 <= q < range / w /\ d = w * q + ex).
Proof.
  intros Hw Hrange Hex Hd.
  pose proof (Z.div_mod d w ltac:(lia)) as Hdm.
  pose proof (Z.div_mod range w ltac:(lia)) as Hrm.
  rewrite Hrange, Z.add_0_r in Hrm.
  split.
  - intro E. exists (d / w). split; [| lia].
    split; [apply Z.div_pos; lia |].
    apply Z.div_lt_upper_bound; [lia |]. rewrite <- Hrm. lia.
  - intros (q & Hq & ->).
    rewrite Z.mul_comm, Z.add_comm, Z.mod_add by lia.
    apply Z.mod_small. exact Hex.
Qed.

(** C4. Every modulus the generators draw is a power of two [2^e] whose
    exponent is the draw modulo the bit width [W] of the column type (64 for
    the 64-bit generator, 32 for the 32-bit one): [0 <= e < W], the value of
    the shift lies in [2^0, 2^(W-1)], and it is the modulus every pass of the
    run divides by.  Each exponent is reached by equally many draws, so a
    uniform draw gives a uniform exponent (for [rand], when its [RAND_MAX + 1]
    results divide evenly over the 32 exponents, as they do for
    [RAND_MAX = 2^31 - 1] and [RAND_MAX = 32767]).  The signed variable
    [modulo] holds [2^e], except that for [e = W - 1] it holds [-2^(W-1)]:
    the 64-bit generator converts it back to [2^63] for the unsigned
    remainder, and the 32-bit generator divides by a modulus of magnitude
    [2^31]. *)
Theorem modulus_is_power_of_two :
  (forall d, 0 <= d < 2 ^ 64 ->
     Z.rem d 64 = d mod 64 /\ 0 <= d mod 64 < 64 /\
     to_uint64 (Z.shiftl 1 (Z.rem d 64)) = 2 ^ (d mod 64) /\
     2 ^ 0 <= 2 ^ (d mod 64) <= 2 ^ (64 - 1) /\
     divisor64 (new_modulo64 d) = 2 ^ (d mod 64) /\
     new_modulo64 d = if d mod 64 =? 63 then INT64_MIN else 2 ^ (d mod 64)) /\
  (forall ex d, 0 <= ex < 64 -> 0 <= d < 2 ^ 64 ->
     (d mod 64 = ex <-> exists q, 0 <= q < 2 ^ 64 / 64 /\ d = 64 * q + ex)) /\
  (forall d, 0 <= d <= RAND_MAX ->
     Z.rem d 32 = d mod 32 /\ 0 <= d mod 32 < 32 /\
     to_uint32 (Z.shiftl 1 (Z.rem d 32)) = 2 ^ (d mod 32) /\
     2 ^ 0 <= 2 ^ (d mod 32) <= 2 ^ (32 - 1) /\
     Z.abs (divisor32 (new_modulo32 d)) = 2 ^ (d mod 32) /\
     new_modulo32 d = if d mod 32 =? 31 then INT_MIN else 2 ^ (d mod 32)) /\
  ((RAND_MAX + 1) mod 32 = 0 ->
   forall ex d, 0 <= ex < 32 -> 0 <= d <= RAND_MAX ->
     (d mod 32 = ex <->
      exists q, 0 <= q < (RAND_MAX + 1) / 32 /\ d = 32 * q + ex)) /\
  (forall (e : env R) num_values run_length write_to_file,
     0 < run_length ->
     exists r,
       generate_int64_delta_varied_bit_width_table e num_values run_length
         write_to_file = Some r /\
       forall i it, 0 <= i ->
         nth_error (trace (final r)) (Z.to_nat i) = Some it ->
         exists it0 d,
           nth_error (trace (final r)) (Z.to_nat (run_start run_length i))
           = Some it0 /\
           it_new_modulo it0
           = Some {| d_source := Mt19937_64; d_value := d |} /\
           0 <= d < 2 ^ 64 /\
           it_modulo it = new_modulo64 d /\
           divisor64 (it_modulo it) = 2 ^ (d mod 64)) /\
  (forall (e : env R) num_values run_length write_to_file,
     0 < run_length ->
     exists r,
       generate_int32_delta_varied_bit_width_table e num_values run_length
         write_to_file = Some r /\
       forall i it, 0 <= i ->
         nth_error (trace (final r)) (Z.to_nat i) = Some it ->
         exists it0 d,
           nth_error (trace (final r)) (Z.to_nat (run_start run_length i))
           = Some it0 /\
           it_new_modulo it0
           = Some {| d_source := CStdlibRand; d_value := d |} /\
           0 <= d <= RAND_MAX /\
           it_modulo it = new_modulo32 d /\
           Z.abs (divisor32 (it_modulo it)) = 2 ^ (d mod 32)).
Proof.
  split; [| split; [| split; [| split; [| split]]]].
  - intros d Hd.
    destruct (exponent_range d 64 ltac:(lia) ltac:(lia)) as [Hrem He].
    split; [exact Hrem |]. split; [exact He |].
    split; [apply shift64_value; lia |].
    split; [apply (pow2_bounds _ 64 He) |].
    split; [apply divisor64_new_modulo64; lia
           | apply new_modulo64_stored; lia].
  - intros ex d Hex Hd.
    apply exponent_fibre; [lia | reflexivity | exact Hex | exact Hd].
  - intros d Hd.
    destruct (exponent_range d 32 ltac:(lia) ltac:(lia)) as [Hrem He].
    split; [exact Hrem |]. split; [exact He |].
    split; [apply shift32_value; lia |].
    split; [apply (pow2_bounds _ 32 He) |].
    split; [apply abs_new_modulo32; lia | apply new_modulo32_stored; lia].
  - intros Hdiv ex d Hex Hd.
    apply exponent_fibre; [lia | exact Hdiv | exact Hex | lia].
  - intros e n L w HL.
    destruct (generate_int64_run e n L w ltac:(lia))
      as (r & Hgen & Hrun & _).
    exists r. split; [exact Hgen |]. intros i it Hi Hnth.
    destruct (pass64_facts _ _ _ _ _ HL Hrun Hi Hnth)
      as (it0 & d & _ & H0 & Hnew & Hd & Hm0 & Hm & Hdiv & _).
    exists it0, d.
    split; [exact H0 |]. split; [exact Hnew |]. split; [exact Hd |].
    split; [congruence | exact Hdiv].
  - intros e n L w HL.
    destruct (generate_int32_run e n L w ltac:(lia))
      as (r & Hgen & Hrun & _).
    exists r. split; [exact Hgen |]. intros i it Hi Hnth.
    destruct (pass32_facts _ _ _ _ _ HL Hrun Hi Hnth)
      as (it0 & d & _ & H0 & Hnew & Hd & Hm0 & Hm & Hdiv & _).
    exists it0, d.
    split; [exact H0 |]. split; [exact Hnew |]. split; [exact Hd |].
    split; [congruence | exact Hdiv].
Qed.

(** X2. For the 32-bit generator with [num_values > 0] and
    [run_length > 0], the value at every position is the draw of its pass
    modulo [2^e], at least 0 and less than [2^e], where [e] is the exponent
    drawn at the first index of its run and [2^e] the magnitude of [modulo];
    for [e = 31], where [int modulo] holds [INT_MIN], the value is the draw
    itself. *)
Theorem value32_below_active_modulus
    (e : env R) (num_values run_length : Z) (write_to_file : bool) :
  0 < num_values -> 0 < run_length ->
  exists r,
    generate_int32_delta_varied_bit_width_table e num_values run_length
      write_to_file = Some r /\
    Z.of_nat (List.length (column (returned r))) = num_values /\
    forall i, 0 <= i < num_values ->
    exists it it0 exp_draw d,
      nth_error (trace (final r)) (Z.to_nat i) = Some it /\
      nth_error (column (returned r)) (Z.to_nat i) = Some (it_number it) /\
      nth_error (trace (final r)) (Z.to_nat (run_start run_length i))
      = Some it0 /\
      it_new_modulo it0
      = Some {| d_source := CStdlibRand; d_value := exp_draw |} /\
      it_modulo it = it_modulo it0 /\
      0 <= exp_draw mod 32 < 32 /\
      Z.abs (divisor32 (it_modulo it)) = 2 ^ (exp_draw mod 32) /\
      it_draw it = {| d_source := CStdlibRand; d_value := d |} /\
      0 <= d <= RAND_MAX /\
      it_number it = d mod 2 ^ (exp_draw mod 32) /\
      0 <= it_number it < 2 ^ (exp_draw mod 32) /\
      (exp_draw mod 32 = 31 ->
       it_modulo it = INT_MIN /\ it_number it = d).
Proof.
  intros Hn HL.
  destruct (generate_int32_run e num_values run_length write_to_file
              ltac:(lia)) as (r & Hgen & Hrun & Hlen & Hcol & _).
  exists r. split; [exact Hgen |].
  split; [rewrite Hcol, length_map, Hlen; lia |].
  intros i Hi.
  destruct (nth_error_in_range _ _ _ Hlen Hi) as (it & Hnth).
  destruct (pass32_facts _ _ _ _ _ HL Hrun (proj1 Hi) Hnth)
    as (it0 & ed & d & H0 & Hnew & Hed & Hm0 & Hm & Hdiv & Hdraw & Hd
        & Hnum & Hb).
  exists it, it0, ed, d.
  assert (He : 0 <= ed mod 32 < 32) by (apply Z.mod_pos_bound; lia).
  assert (Hcoli : nth_error (column (returned r)) (Z.to_nat i)
                  = Some (it_number it)).
  { rewrite Hcol, nth_error_map, Hnth. reflexivity. }
  assert (Hedge : ed mod 32 = 31 ->
                  it_modulo it = INT_MIN /\ it_number it = d).
  { intro E. split.
    - rewrite Hm, Hm0, (new_modulo32_stored ed ltac:(apply Hed)).
      rewrite E. reflexivity.
    - rewrite Hnum, E. apply Z.mod_small.
      unfold in_rand in Hd. pose proof RAND_MAX_upper.
      unfold INT_MAX in *. lia. }
  exact (conj Hnth (conj Hcoli (conj H0 (conj Hnew (conj Hm (conj He
           (conj Hdiv (conj Hdraw (conj Hd (conj Hnum
             (conj Hb Hedge))))))))))).
Qed.

(** C10. Both generators start with [modulo = 0]; for [num_values >= 1]
    and [run_length > 0] the first pass, at index 0, draws a modulus before
    it takes a remainder, and every remainder of the run is taken by a
    divisor that is not zero: a power of two (for the 32-bit generator, an
    [int] whose magnitude is a power of two).  The embedded generators stop
    with [None] at a remainder by zero, so that they return [Some] says that
    none was evaluated. *)
Theorem remainder_never_by_zero
    (e : env R) (num_values run_length : Z) (write_to_file : bool) :
  1 <= num_values -> 0 < run_length ->
  modulo (init64 (G := G) e write_to_file) = 0 /\
  modulo (init32 e write_to_file) = 0 /\
  (exists r it0 d,
     generate_int64_delta_varied_bit_width_table e num_values run_length
       write_to_file = Some r /\
     nth_error (trace (final r)) 0 = Some it0 /\
     it_new_modulo it0 = Some {| d_source := Mt19937_64; d_value := d |} /\
     it_modulo it0 = new_modulo64 d /\
     forall i it, 0 <= i ->
       nth_error (trace (final r)) (Z.to_nat i) = Some it ->
       divisor64 (it_modulo it) <> 0 /\
       exists k, 0 <= k < 64 /\ divisor64 (it_modulo it) = 2 ^ k) /\
  (exists r it0 d,
     generate_int32_delta_varied_bit_width_table e num_values run_length
       write_to_file = Some r /\
     nth_error (trace (final r)) 0 = Some it0 /\
     it_new_modulo it0 = Some {| d_source := CStdlibRand; d_value := d |} /\
     it_modulo it0 = new_modulo32 d /\
     forall i it, 0 <= i ->
       nth_error (trace (final r)) (Z.to_nat i) = Some it ->
       divisor32 (it_modulo it) <> 0 /\
       exists k, 0 <= k < 32 /\ Z.abs (divisor32 (it_modulo it)) = 2 ^ k).
Proof.
  intros Hn HL. split; [reflexivity |]. split; [reflexivity |]. split.
  - destruct (generate_int64_run e num_values run_length write_to_file
                ltac:(lia)) as (r & Hgen & Hrun & Hlen & _).
    destruct (nth_error_in_range _ num_values 0 Hlen ltac:(lia))
      as (it0 & H0).
    destruct (pass64_facts _ _ _ _ _ HL Hrun (Z.le_refl 0) H0)
      as (a & d & _ & Ha & Hnew & _ & Hm0 & _).
    unfold run_start in Ha. rewrite Z.div_0_l, Z.mul_0_r in Ha by lia.
    assert (a = it0) by congruence. subst a.
    exists r, it0, d.
    split; [exact Hgen |]. split; [exact H0 |]. split; [exact Hnew |].
    split; [exact Hm0 |].
    intros i it Hi Hnth.
    destruct (pass64_facts _ _ _ _ _ HL Hrun Hi Hnth)
      as (_ & x & _ & _ & _ & _ & _ & _ & Hdiv & _).
    assert (Hk : 0 <= x mod 64 < 64) by (apply Z.mod_pos_bound; lia).
    split; [| exists (x mod 64); auto].
    rewrite Hdiv. apply Z.pow_nonzero; lia.
  - destruct (generate_int32_run e num_values run_length write_to_file
                ltac:(lia)) as (r & Hgen & Hrun & Hlen & _).
    destruct (nth_error_in_range _ num_values 0 Hlen ltac:(lia))
      as (it0 & H0).
    destruct (pass32_facts _ _ _ _ _ HL Hrun (Z.le_refl 0) H0)
      as (a & d & _ & Ha & Hnew & _ & Hm0 & _).
    unfold run_start in Ha. rewrite Z.div_0_l, Z.mul_0_r in Ha by lia.
    assert (a = it0) by congruence. subst a.
    exists r, it0, d.
    split; [exact Hgen |]. split; [exact H0 |]. split; [exact Hnew |].
    split; [exact Hm0 |].
    intros i it Hi Hnth.
    destruct (pass32_facts _ _ _ _ _ HL Hrun Hi Hnth)
      as (_ & x & _ & _ & _ & _ & _ & _ & Hdiv & _).
    assert (Hk : 0 <= x mod 32 < 32) by (apply Z.mod_pos_bound; lia).
    split; [| exists (x mod 32); auto].
    assert (0 < 2 ^ (x mod 32)) by (apply Z.pow_pos_nonneg; lia).
    lia.
Qed.

(** C5, as the code has it.  The 64-bit generator takes every draw from its
    64-bit engine ([std::mt19937_64]): the draws of a run are, in the order
    they were made, the first results of the engine seeded with what
    [std::random_device] gave, the engine is left in the state after them,
    and every value of the column is computed from two of them (the draw of
    its pass and the draw that gave the modulus of its run).  The 32-bit
    generator has no such engine: in the same way its draws are the next
    results of [rand()], each an [int] in [0, RAND_MAX] (below [2^31]); it
    computes the remainder in [int] and appends it as it is, with no
    narrowing conversion; what it returns depends on the state of [rand()]
    and not on [std::random_device]. *)
Theorem random_source_of_each_generator
    (e : env R) (num_values run_length : Z) (write_to_file : bool) :
  0 < run_length ->
  (exists r,
     generate_int64_delta_varied_bit_width_table e num_values run_length
       write_to_file = Some r /\
     Forall (fun d => d_source d = Mt19937_64 /\ 0 <= d_value d < 2 ^ 64)
       (draws_of (trace (final r))) /\
     draws invoke (List.length (draws_of (trace (final r))))
       (seed_engine (random_device e))
     = (map d_value (draws_of (trace (final r))), rng_state (final r)) /\
     column (returned r) = map it_number (trace (final r)) /\
     forall i it, 0 <= i ->
       nth_error (trace (final r)) (Z.to_nat i) = Some it ->
       exists it0 x d,
         nth_error (trace (final r)) (Z.to_nat (run_start run_length i))
         = Some it0 /\
         it_new_modulo it0
         = Some {| d_source := Mt19937_64; d_value := x |} /\
         it_modulo it = new_modulo64 x /\
         it_draw it = {| d_source := Mt19937_64; d_value := d |} /\
         it_number it = number64 d (it_modulo it)) /\
  (exists r,
     generate_int32_delta_varied_bit_width_table e num_values run_length
       write_to_file = Some r /\
     Forall (fun d => d_source d = CStdlibRand /\
                      0 <= d_value d <= RAND_MAX /\ d_value d < 2 ^ 31)
       (draws_of (trace (final r))) /\
     draws rand (List.length (draws_of (trace (final r)))) (rand_state e)
     = (map d_value (draws_of (trace (final r))), rng_state (final r)) /\
     column (returned r) = map it_number (trace (final r)) /\
     (forall i it, 0 <= i ->
        nth_error (trace (final r)) (Z.to_nat i) = Some it ->
        exists it0 x,
          nth_error (trace (final r)) (Z.to_nat (run_start run_length i))
          = Some it0 /\
          it_new_modulo it0
          = Some {| d_source := CStdlibRand; d_value := x |} /\
          it_modulo it = new_modulo32 x) /\
     forall i it, 0 <= i ->
       nth_error (trace (final r)) (Z.to_nat i) = Some it ->
       it_number it = Z.rem (d_value (it_draw it)) (it_modulo it) /\
       to_int32 (it_number it) = it_number it) /\
  (forall e' : env R, rand_state e' = rand_state e ->
     generate_int32_delta_varied_bit_width_table e' num_values run_length
       write_to_file
     = generate_int32_delta_varied_bit_width_table e num_values run_length
         write_to_file).
Proof.
  intro HL. split; [| split].
  - destruct (generate_int64_run e num_values run_length write_to_file
                ltac:(lia)) as (r & Hgen & Hrun & _ & Hcol & _).
    exists r. split; [exact Hgen |].
    split; [exact (draws_of_pass _ _ _ _ _ _ _ _ _ Hrun) |].
    split; [exact (generate_int64_draws _ _ _ _ _ Hgen) |].
    split; [exact Hcol |].
    intros i it Hi Hnth.
    destruct (pass64_facts _ _ _ _ _ HL Hrun Hi Hnth)
      as (it0 & x & d & Hnth0 & Hnew & _ & Hm0 & Hm & _ & Hdraw & _).
    pose proof (passes_nth _ _ _ _ _ _ _ _ _ Hrun _ _ Hnth) as Hok.
    destruct (pass_draw _ _ _ _ _ _ _ _ _ Hok)
      as (d2 & _ & Hdraw2 & _ & Hnum).
    exists it0, x, d. split; [exact Hnth0 |]. split; [exact Hnew |].
    split; [rewrite Hm; exact Hm0 |]. split; [exact Hdraw |].
    rewrite Hdraw in Hdraw2. injection Hdraw2 as ->. exact Hnum.
  - destruct (generate_int32_run e num_values run_length write_to_file
                ltac:(lia)) as (r & Hgen & Hrun & _ & Hcol & _).
    exists r. split; [exact Hgen |]. split.
    { eapply Forall_impl; [| exact (draws_of_pass _ _ _ _ _ _ _ _ _ Hrun)].
      intros d (Hsrc & Hd). unfold in_rand in Hd.
      pose proof RAND_MAX_upper. unfold INT_MAX in *.
      split; [exact Hsrc |]. split; [exact Hd | lia]. }
    split; [exact (generate_int32_draws _ _ _ _ _ Hgen) |].
    split; [exact Hcol |]. split.
    + intros i it Hi Hnth.
      destruct (pass32_facts _ _ _ _ _ HL Hrun Hi Hnth)
        as (it0 & x & d & Hnth0 & Hnew & _ & Hm0 & Hm & _).
      exists it0, x. split; [exact Hnth0 |]. split; [exact Hnew |].
      rewrite Hm. exact Hm0.
    + intros i it Hi Hnth.
      pose proof (passes_nth _ _ _ _ _ _ _ _ _ Hrun _ _ Hnth) as Hok.
      destruct (pass_draw _ _ _ _ _ _ _ _ _ Hok)
        as (d2 & _ & Hdraw & _ & Hnum).
      destruct (pass32_facts _ _ _ _ _ HL Hrun Hi Hnth)
        as (_ & x & _ & _ & _ & _ & _ & _ & _ & _ & _ & _ & Hb).
      assert (Hk : 0 <= x mod 32 < 32) by (apply Z.mod_pos_bound; lia).
      pose proof (pow2_bounds _ 32 Hk) as Hp. simpl (32 - 1) in Hp.
      split; [rewrite Hdraw; exact Hnum |].
      apply to_int32_small. lia.
  - intros e' He'.
    unfold generate_int32_delta_varied_bit_width_table, init32.
    rewrite He'. reflexivity.
Qed.

(** C6. Two runs of the 64-bit generator with the same [num_values],
    [run_length] and [write_to_file] whose engines were seeded with the same
    value return the same column, leave the same sidecar texts and make the
    same draws, whatever else differs around them (here, the state of
    [rand()]).  The seed is the value [std::random_device] gives the run; the
    generator has no parameter for it. *)
Theorem same_seed_same_output
    (e1 e2 : env R) (num_values run_length : Z) (write_to_file : bool) :
  random_device e1 = random_device e2 ->
  generate_int64_delta_varied_bit_width_table e1 num_values run_length
    write_to_file
  = generate_int64_delta_varied_bit_width_table e2 num_values run_length
      write_to_file.
Proof.
  intro Hseed.
  unfold generate_int64_delta_varied_bit_width_table, init64.
  rewrite Hseed. reflexivity.
Qed.

End MainResults.

(* ================================================================= *)
(** ** The decimal sidecar file read back *)

Lemma digit_value_digit_char (d : Z) :
  0 <= d < 10 -> Text.digit_value (Text.digit_char d) = Some d.
Proof.
  intro Hd.
  assert (H : d = 0 \/ d = 1 \/ d = 2 \/ d = 3 \/ d = 4 \/ d = 5 \/ d = 6 \/
              d = 7 \/ d = 8 \/ d = 9) by lia.
  repeat (destruct H as [-> | H]; [reflexivity |]).
  subst d. reflexivity.
Qed.

Lemma digits_fuel_app (base : Z) (fuel : nat) :
  forall n acc,
  Text.digits_fuel base fuel n acc
  = (Text.digits_fuel base fuel n EmptyString ++ acc)%string.
Proof.
  induction fuel as [| fuel IH]; intros n acc; [reflexivity |].
  cbn [Text.digits_fuel].
  destruct (n / base =? 0); [reflexivity |].
  rewrite (IH (n / base) (String _ acc)).
  rewrite (IH (n / base) (String _ EmptyString)).
  rewrite string_app_assoc. reflexivity.
Qed.

Lemma parse_digits_app (s1 s2 : string) :
  forall acc,
  Text.parse_digits (s1 ++ s2) acc
  = match Text.parse_digits s1 acc with
    | Some v => Text.parse_digits s2 v
    | None => None
    end.
Proof.
  induction s1 as [| c s1 IH]; intro acc; [reflexivity |].
  cbn [String.append Text.parse_digits].
  destruct (Text.digit_value c); [apply IH | reflexivity].
Qed.

Lemma parse_digits_digits_fuel (fuel : nat) :
  forall n, 0 <= n < 10 ^ Z.of_nat fuel ->
  Text.parse_digits (Text.digits_fuel 10 fuel n EmptyString) 0 = Some n.
Proof.
  induction fuel as [| fuel IH]; intros n Hn.
  - simpl in Hn. assert (n = 0) by lia. subst n. reflexivity.
  - rewrite Nat2Z.inj_succ, Z.pow_succ_r in Hn by lia.
    pose proof (Z.div_mod n 10 ltac:(lia)) as Hdm.
    pose proof (Z.mod_pos_bound n 10 ltac:(lia)) as Hr.
    cbn [Text.digits_fuel].
    destruct (Z.eqb_spec (n / 10) 0) as [E | E].
    + cbn [Text.parse_digits].
      rewrite (digit_value_digit_char _ Hr). f_equal. lia.
    + rewrite digits_fuel_app, parse_digits_app.
      rewrite IH.
      * cbn [Text.parse_digits].
        rewrite (digit_value_digit_char _ Hr). f_equal. lia.
      * split; [apply Z.div_pos; lia |].
        apply Z.div_lt_upper_bound; lia.
Qed.

Lemma digits_fuel_enough (n : Z) :
  0 <= n -> n < 10 ^ Z.of_nat (S (Z.to_nat (Z.log2 n))).
Proof.
  intro Hn.
  pose proof (Z.log2_nonneg n) as Hl.
  rewrite Nat2Z.inj_succ, Z2Nat.id by lia.
  destruct (Z.eq_dec n 0) as [-> | Hnz]; [reflexivity |].
  destruct (Z.log2_spec n ltac:(lia)) as [_ Hup].
  assert (2 ^ Z.succ (Z.log2 n) <= 10 ^ Z.succ (Z.log2 n))
    by (apply Z.pow_le_mono_l; lia).
  lia.
Qed.

Lemma parse_digits_digits (n : Z) :
  0 <= n -> Text.parse_digits (Text.digits 10 n) 0 = Some n.
Proof.
  intro Hn. unfold Text.digits. apply parse_digits_digits_fuel.
  split; [exact Hn | apply digits_fuel_enough; exact Hn].
Qed.

Lemma digits_nonempty (base n : Z) : Text.digits base n <> EmptyString.
Proof.
  unfold Text.digits. cbn [Text.digits_fuel].
  destruct (n / base =? 0); [discriminate |].
  rewrite digits_fuel_app.
  destruct (Text.digits_fuel base _ (n / base) EmptyString); discriminate.
Qed.

Lemma parse_dec_to_dec (v : Z) : Text.parse_dec (Text.to_dec v) = Some v.
Proof.
  unfold Text.to_dec. destruct (Z.ltb_spec v 0) as [Hneg | Hpos].
  - cbn [Text.parse_dec]. rewrite Ascii.eqb_refl.
    pose proof (digits_nonempty 10 (- v)) as Hne.
    destruct (Text.digits 10 (- v)) as [| c s] eqn:E; [contradiction |].
    rewrite <- E, parse_digits_digits by lia.
    cbn. f_equal. lia.
  - pose proof (parse_digits_digits v Hpos) as Hparse.
    pose proof (digits_nonempty 10 v) as Hne.
    destruct (Text.digits 10 v) as [| c s] eqn:E; [contradiction |].
    cbn [Text.parse_dec].
    destruct (Ascii.eqb_spec c "-"%char) as [-> | _]; [| exact Hparse].
    discriminate Hparse.
Qed.

Lemma parse_digits_no_newline (s : string) :
  forall acc v, Text.parse_digits s acc = Some v -> no_newline s.
Proof.
  induction s as [| c s IH]; intros acc v Hparse; [exact I |].
  cbn [Text.parse_digits] in Hparse. cbn [no_newline].
  destruct (Text.digit_value c) as [d |] eqn:Ed; [| discriminate].
  split; [| eapply IH; exact Hparse].
  destruct (Ascii.eqb_spec c (ascii_of_nat 10)) as [-> | _];
    [discriminate Ed | reflexivity].
Qed.

Lemma to_dec_no_newline (v : Z) : no_newline (Text.to_dec v).
Proof.
  unfold Text.to_dec. destruct (Z.ltb_spec v 0) as [Hneg | Hpos].
  - split; [reflexivity |].
    eapply parse_digits_no_newline. apply parse_digits_digits. lia.
  - eapply parse_digits_no_newline. apply parse_digits_digits. exact Hpos.
Qed.

Lemma lines_from_line (s rest : string) :
  no_newline s ->
  forall cur,
  Text.lines_from (s ++ Text.endl ++ rest) cur
  = option_map (cons (cur ++ s)%string) (Text.lines_from rest EmptyString).
Proof.
  induction s as [| c s IH]; intros Hs cur.
  - cbn. rewrite string_app_nil_r. reflexivity.
  - destruct Hs as [Hc Hs].
    cbn [String.append Text.lines_from]. rewrite Hc.
    rewrite (IH Hs), string_app_assoc. reflexivity.
Qed.

Lemma lines_from_render (vs : list Z) :
  Text.lines_from (render dec_line vs) EmptyString
  = Some (map Text.to_dec vs).
Proof.
  induction vs as [| v vs IH]; [reflexivity |].
  cbn [render map]. unfold dec_line at 1.
  rewrite string_app_assoc, (lines_from_line _ _ (to_dec_no_newline v)).
  rewrite IH. reflexivity.
Qed.

Lemma parse_all_to_dec (vs : list Z) :
  Text.parse_all (map Text.to_dec vs) = Some vs.
Proof.
  induction vs as [| v vs IH]; [reflexivity |].
  cbn [map Text.parse_all]. rewrite parse_dec_to_dec, IH. reflexivity.
Qed.

Lemma parse_dec_file_render (vs : list Z) :
  Text.parse_dec_file (render dec_line vs) = Some vs.
Proof.
  unfold Text.parse_dec_file.
  rewrite lines_from_render. apply parse_all_to_dec.
Qed.

Section Recorder.

Context {G : Type} {EG : Engine64 G} {R : Type} {CR : CRand R}.

(** C7. When the recorder is on ([write_to_file = true]) the 64-bit
    generator leaves a decimal sidecar text that, cut at its newlines and
    read as decimal integers, gives back the column: the same values in the
    same order. *)
Theorem decimal_sidecar_round_trip
    (e : env R) (num_values run_length : Z) :
  run_length <> 0 ->
  exists r content,
    generate_int64_delta_varied_bit_width_table e num_values run_length true
    = Some r /\
    dec_check_file (final r) = Some content /\
    content = render dec_line (column (returned r)) /\
    Text.parse_dec_file content = Some (column (returned r)).
Proof.
  intro HL.
  destruct (generate_int64_run e num_values run_length true HL)
    as (r & Hgen & _ & _ & _ & _ & Hdec & _).
  cbn [Text.open] in Hdec. unfold Text.open in Hdec.
  rewrite record_all_open in Hdec. cbn [String.append] in Hdec.
  exists r, (render dec_line (column (returned r))).
  split; [exact Hgen |]. split; [exact Hdec |]. split; [reflexivity |].
  apply parse_dec_file_render.
Qed.

End Recorder.

(* ================================================================= *)
(** ** The hexadecimal sidecar file *)

Lemma string_length_app (a b : string) :
  String.length (a ++ b) = (String.length a + String.length b)%nat.
Proof. induction a as [| c a IH]; simpl; [reflexivity | now rewrite IH]. Qed.

Lemma replicate_length (k : nat) (c : ascii) :
  String.length (Text.replicate k c) = k.
Proof. induction k as [| k IH]; simpl; [reflexivity | now rewrite IH]. Qed.

Lemma digits_fuel_length (base : Z) (fuel : nat) :
  1 < base ->
  forall n k, 0 <= n < base ^ Z.of_nat k -> (1 <= k)%nat ->
  (String.length (Text.digits_fuel base fuel n EmptyString) <= k)%nat.
Proof.
  intro Hbase. induction fuel as [| fuel IH]; intros n k Hn Hk.
  - simpl. lia.
  - cbn [Text.digits_fuel].
    destruct (Z.eqb_spec (n / base) 0) as [E | E]; [simpl; lia |].
    rewrite digits_fuel_app, string_length_app. cbn [String.length].
    destruct k as [| k']; [lia |].
    rewrite Nat2Z.inj_succ, Z.pow_succ_r in Hn by lia.
    assert (Hq : 0 <= n / base < base ^ Z.of_nat k').
    { split; [apply Z.div_pos; lia |].
      apply Z.div_lt_upper_bound; lia. }
    assert (Hk' : (1 <= k')%nat).
    { destruct k' as [| k'']; [simpl in Hq; lia | lia]. }
    specialize (IH (n / base) k' Hq Hk'). lia.
Qed.

(** The sibling path: a value of the 32-bit generator has at most 8
    hexadecimal digits, so [std::setw(8)] gives every line the width 8. *)
Lemma hex32_width (v : Z) :
  String.length (Text.setw_fill 8 "0"%char (Text.to_hex32 v)) = 8%nat.
Proof.
  unfold Text.setw_fill, Text.to_hex32, Text.digits.
  rewrite string_length_app, replicate_length.
  assert (Hv : 0 <= to_uint32 v < 16 ^ Z.of_nat 8).
  { unfold to_uint32. change (16 ^ Z.of_nat 8) with (2 ^ 32).
    apply Z.mod_pos_bound. lia. }
  pose proof (digits_fuel_length 16 (S (Z.to_nat (Z.log2 (to_uint32 v))))
                ltac:(lia) (to_uint32 v) 8%nat Hv ltac:(lia)).
  lia.
Qed.

Section Recorder32.

Context {R : Type} {CR : CRand R}.

(** X1. When the recorder is on, every line of the hexadecimal sidecar text
    of the 32-bit generator is 8 characters wide (9 with its newline): an
    [int] has at most 8 hexadecimal digits and [std::setw(8)] fills the
    shorter ones with zeros. *)
Theorem hex_sidecar32_fixed_width (e : env R) (num_values run_length : Z) :
  run_length <> 0 ->
  exists r,
    generate_int32_delta_varied_bit_width_table e num_values run_length true
    = Some r /\
    hex_check_file (final r)
    = Some (render hex_line32 (column (returned r))) /\
    Forall (fun v => String.length (hex_line32 v) = 9%nat)
      (column (returned r)).
Proof.
  intro HL.
  destruct (generate_int32_run e num_values run_length true HL)
    as (r & Hgen & _ & _ & _ & _ & _ & Hhex).
  unfold Text.open in Hhex. rewrite record_all_open in Hhex.
  exists r. split; [exact Hgen |]. split; [exact Hhex |].
  apply Forall_forall. intros v _. unfold hex_line32.
  rewrite string_length_app, hex32_width. reflexivity.
Qed.

End Recorder32.

(* ================================================================= *)
(** ** The argument check of [main] *)

Lemma has_char_app (c : ascii) (a b : string) :
  has_char c (a ++ b) = has_char c a || has_char c b.
Proof.
  induction a as [| x a IH]; [reflexivity |].
  cbn [String.append has_char]. rewrite IH, orb_assoc. reflexivity.
Qed.

Lemma occurs_in_char (c : ascii) (part whole : string) :
  occurs_in part whole -> has_char c part = true -> has_char c whole = true.
Proof.
  intros (before & after & ->) Hc.
  rewrite !has_char_app, Hc, orb_true_r. reflexivity.
Qed.

Lemma parse_digits_has_no (c : ascii) (s : string) :
  Text.digit_value c = None ->
  forall acc v, Text.parse_digits s acc = Some v -> has_char c s = false.
Proof.
  intro Hc. induction s as [| x s IH]; intros acc v Hparse; [reflexivity |].
  cbn [Text.parse_digits] in Hparse. cbn [has_char].
  destruct (Text.digit_value x) as [d |] eqn:Ed; [| discriminate].
  rewrite (IH _ _ Hparse), orb_false_r.
  destruct (Ascii.eqb_spec c x) as [-> | _]; [congruence | reflexivity].
Qed.

(** A decimal text holds digits and, in front, at most a minus sign. *)
Lemma to_dec_has_no (c : ascii) (v : Z) :
  Text.digit_value c = None -> c <> "-"%char ->
  has_char c (Text.to_dec v) = false.
Proof.
  intros Hc Hminus. unfold Text.to_dec.
  destruct (Z.ltb_spec v 0) as [Hneg | Hpos].
  - cbn [has_char].
    destruct (Ascii.eqb_spec c "-"%char) as [-> | _]; [contradiction |].
    eapply parse_digits_has_no; [exact Hc |].
    apply parse_digits_digits. lia.
  - eapply parse_digits_has_no; [exact Hc |].
    apply parse_digits_digits. exact Hpos.
Qed.

Section DriverFacts.

Context {G : Type} {EG : Engine64 G} {R : Type} {CR : CRand R}.
Variable write_parquet_file : table -> string -> Z -> bool -> bool -> bool.

Lemma main_prints_no_U (e : env R) (argv : list string) :
  (2 <= List.length argv)%nat ->
  has_char "U" (cout (main write_parquet_file e argv)) = false.
Proof.
  intro Hargc. unfold main.
  destruct (Z.ltb_spec (Z.of_nat (List.length argv)) 2) as [Hlt | _];
    [lia |].
  destruct (atoi (nth 1 argv EmptyString)) as [num_values |];
    [| reflexivity].
  destruct (if 3 <=? Z.of_nat (List.length argv)
            then atoi (nth 2 argv EmptyString) else Some 1);
    [| reflexivity].
  destruct (if 4 <=? Z.of_nat (List.length argv)
            then atoi (nth 3 argv EmptyString) else Some 0);
    [| reflexivity].
  assert (Hdec : has_char "U" (Text.to_dec num_values) = false)
    by (apply to_dec_has_no; [reflexivity | discriminate]).
  destruct (generate_int64_delta_varied_bit_width_table e num_values 256
              false) as [r |];
    cbn [cout]; rewrite !has_char_app, Hdec; reflexivity.
Qed.

(** C9, as the code has it.  Called with fewer than 2 entries in [argv]
    (no argument after the program name), [prelim] writes the usage line on
    standard output, writes nothing on standard error and returns 1.  With
    [num_values] present the usage line is not written (it occurs nowhere in
    what the program prints) and 1 is not returned. *)
Theorem usage_on_standard_output (e : env R) (argv : list string) :
  ((List.length argv < 2)%nat ->
   cout (main write_parquet_file e argv) = usage_line /\
   cerr (main write_parquet_file e argv) = EmptyString /\
   ended (main write_parquet_file e argv) = Returned 1) /\
  ((2 <= List.length argv)%nat ->
   ~ occurs_in usage_line (cout (main write_parquet_file e argv)) /\
   cout (main write_parquet_file e argv) <> usage_line /\
   cerr (main write_parquet_file e argv) = EmptyString /\
   ended (main write_parquet_file e argv) <> Returned 1).
Proof.
  split; intro Hargc.
  - unfold main.
    destruct (Z.ltb_spec (Z.of_nat (List.length argv)) 2) as [_ | Hge];
      [| lia].
    cbn. auto.
  - assert (Hnot : ~ occurs_in usage_line
                       (cout (main write_parquet_file e argv))).
    { intro Hocc.
      apply (occurs_in_char "U") in Hocc; [| reflexivity].
      rewrite (main_prints_no_U e argv Hargc) in Hocc. discriminate. }
    split; [exact Hnot |].
    split.
    { intro Heq. apply Hnot. exists EmptyString, EmptyString.
      rewrite Heq, string_app_nil_r. reflexivity. }
    unfold main.
    destruct (Z.ltb_spec (Z.of_nat (List.length argv)) 2) as [Hlt | _];
      [lia |].
    destruct (atoi (nth 1 argv EmptyString)) as [num_values |];
      [| cbn; split; [reflexivity | discriminate]].
    destruct (if 3 <=? Z.of_nat (List.length argv)
              then atoi (nth 2 argv EmptyString) else Some 1);
      [| cbn; split; [reflexivity | discriminate]].
    destruct (if 4 <=? Z.of_nat (List.length argv)
              then atoi (nth 3 argv EmptyString) else Some 0);
      [| cbn; split; [reflexivity | discriminate]].
    destruct (generate_int64_delta_varied_bit_width_table e num_values 256
                false) as [r |];
      [| cbn; split; [reflexivity | discriminate]].
    cbn [cerr ended]. split; [reflexivity |].
    destruct (write_parquet_file _ _ _ _ _); discriminate.
Qed.

End DriverFacts.

(* ================================================================= *)
(** ** The code on concrete inputs *)

(** The check for a zero divisor is live: a pass that does not begin a run
    and finds [modulo = 0] stops. *)
Example body64_zero_modulo :
  body64 (EG := mt19937_64) 5 true 1 (init64 env_5489 true) = None.
Proof. vm_compute. reflexivity. Qed.

Example body32_zero_modulo :
  body32 (CR := iso_c_rand) 5 true 1 (init32 env_5489 true) = None.
Proof. vm_compute. reflexivity. Qed.

(** A [run_length] of zero is a remainder by zero at the first pass. *)
Example run_length_zero :
  generate_int64_delta_varied_bit_width_table (EG := mt19937_64)
    env_5489 3 0 true = None.
Proof. vm_compute. reflexivity. Qed.

(** The seed matters: other seeds give other columns. *)
Example other_seed_other_column :
  option_map (fun r => column (returned r))
    (generate_int64_delta_varied_bit_width_table (EG := mt19937_64)
       env_5489 2 1 false)
  = Some [32409915164; 25000889969873810] /\
  option_map (fun r => column (returned r))
    (generate_int64_delta_varied_bit_width_table (EG := mt19937_64)
       {| random_device := 1; rand_state := IsoCRand.initial |} 2 1 false)
  = Some [344186223182; 20299918].
Proof. split; vm_compute; reflexivity. Qed.

(** C8, at a failing input.  With the engine seeded with 5489,
    [num_values = 3], [run_length = 1] and the recorder on, the hexadecimal
    sidecar text has the lines [78bc80f1c], [58d22d4db91392] and [000002d6]:
    widths 9, 14 and 8.  [std::setw(8)] pads the values below [2^28] and
    leaves the longer ones as long as they are, so the lines have no common
    width. *)
Theorem hex_sidecar_width_varies :
  option_map (fun r => (column (returned r), hex_check_file (final r)))
    (generate_int64_delta_varied_bit_width_table (EG := mt19937_64)
       env_5489 3 1 true)
  = Some ([32409915164; 25000889969873810; 726],
          Some ("78bc80f1c" ++ Text.endl ++ "58d22d4db91392" ++ Text.endl
                ++ "000002d6" ++ Text.endl)%string) /\
  Text.lines_from
    ("78bc80f1c" ++ Text.endl ++ "58d22d4db91392" ++ Text.endl
     ++ "000002d6" ++ Text.endl)%string EmptyString
  = Some ["78bc80f1c"; "58d22d4db91392"; "000002d6"]%string /\
  map String.length ["78bc80f1c"; "58d22d4db91392"; "000002d6"]%string
  = [9; 14; 8]%nat /\
  ~ common_width ["78bc80f1c"; "58d22d4db91392"; "000002d6"]%string.
Proof.
  split; [vm_compute; reflexivity |].
  split; [vm_compute; reflexivity |].
  split; [reflexivity |].
  intros (w & Hw).
  inversion Hw as [| ? ? H1 Hw1]; subst.
  inversion Hw1 as [| ? ? H2 _]; subst.
  simpl in H2. discriminate H2.
Qed.

(** C5, refuted as stated: the 32-bit generator, run for one value, makes
    two draws, both from [rand()] and none from a 64-bit engine. *)
Lemma int32_generator_draws_from_rand :
  option_map (fun r => draws_of (trace (final r)))
    (generate_int32_delta_varied_bit_width_table (CR := iso_c_rand)
       env_5489 1 1 false)
  = Some [{| d_source := CStdlibRand; d_value := 16838 |};
          {| d_source := CStdlibRand; d_value := 5758 |}] /\
  ~ Forall (fun d => d_source d = Mt19937_64)
      [{| d_source := CStdlibRand; d_value := 16838 |};
       {| d_source := CStdlibRand; d_value := 5758 |}].
Proof.
  split; [vm_compute; reflexivity |].
  intro H. inversion H as [| ? ? H1 _]. discriminate H1.
Qed.

(** C9, refuted as stated: called with the program name alone, [prelim]
    writes the usage line on standard output and nothing on standard
    error. *)
Lemma usage_not_on_standard_error :
  cout (main (EG := mt19937_64) always_written env_5489 ["prelim"%string])
  = usage_line /\
  cerr (main (EG := mt19937_64) always_written env_5489 ["prelim"%string])
  = EmptyString /\
  cerr (main (EG := mt19937_64) always_written env_5489 ["prelim"%string])
  <> usage_line.
Proof. vm_compute. repeat split; try reflexivity. discriminate. Qed.

(** [prelim 3]: the usage line is not written. *)
Example main_with_num_values :
  cout (main (EG := mt19937_64) always_written env_5489
          ["prelim"; "3"]%string)
  = ("Size of Arrow table: 3 values." ++ Text.endl
     ++ "Finished Arrow table generation." ++ Text.endl
     ++ "Starting Parquet file writing." ++ Text.endl)%string /\
  ended (main (EG := mt19937_64) always_written env_5489
           ["prelim"; "3"]%string)
  = Returned 0.
Proof. split; vm_compute; reflexivity. Qed.

(* ================================================================= *)
(** ** The theorems at concrete inputs *)

Lemma value_below_active_modulus_witness :
  0 < 10 /\ 0 < 5 /\
  exists r,
    generate_int64_delta_varied_bit_width_table (EG := mt19937_64)
      env_5489 10 5 true = Some r /\
    forall i, 0 <= i < 10 ->
    exists it,
      nth_error (trace (final r)) (Z.to_nat i) = Some it /\
      nth_error (column (returned r)) (Z.to_nat i) = Some (it_number it) /\
      0 <= it_number it < divisor64 (it_modulo it).
Proof.
  split; [lia |]. split; [lia |].
  destruct (value_below_active_modulus (EG := mt19937_64) env_5489 10 5 true
              ltac:(lia) ltac:(lia)) as (r & Hgen & H).
  exists r. split; [exact Hgen |]. intros i Hi.
  destruct (H i Hi)
    as (it & _ & _ & _ & Hnth & Hcol & _ & _ & _ & _ & _ & _ & _ & _ & _
        & Hb).
  exists it. auto.
Defined.

Lemma modulus_drawn_exactly_at_run_boundaries_witness :
  0 < 5 /\
  exists r,
    generate_int64_delta_varied_bit_width_table (EG := mt19937_64)
      env_5489 10 5 true = Some r /\
    List.length (trace (final r)) = 10%nat /\
    forall i it, 0 <= i ->
      nth_error (trace (final r)) (Z.to_nat i) = Some it ->
      (is_fresh it = true <-> i mod 5 = 0).
Proof.
  split; [lia |].
  destruct (modulus_drawn_exactly_at_run_boundaries (EG := mt19937_64)
              env_5489 10 5 true ltac:(lia)) as (r & Hgen & Hlen & H).
  exists r. split; [exact Hgen |]. split; [exact Hlen |].
  intros i it Hi Hnth. destruct (H i it Hi Hnth) as (_ & Hf & _). exact Hf.
Defined.

Lemma column_length_and_moduli_drawn_witness :
  0 < 7 /\ 0 < 3 /\
  (exists r,
     generate_int64_delta_varied_bit_width_table (EG := mt19937_64)
       env_5489 7 3 true = Some r /\
     Z.of_nat (List.length (column (returned r))) = 7 /\
     Z.of_nat (moduli_drawn (trace (final r))) = 3) /\
  0 < 3 /\ 3 < 7 /\
  (exists r,
     generate_int64_delta_varied_bit_width_table (EG := mt19937_64)
       env_5489 3 7 true = Some r /\
     moduli_drawn (trace (final r)) = 1%nat).
Proof.
  destruct (column_length_and_moduli_drawn (EG := mt19937_64) env_5489 true)
    as (Hlen & _ & _ & Hone).
  split; [lia |]. split; [lia |]. split.
  - destruct (Hlen 7 3 ltac:(lia) ltac:(lia)) as (r & Hgen & Hl & Hc).
    exists r. split; [exact Hgen |]. split; [exact Hl | exact Hc].
  - split; [lia |]. split; [lia |].
    destruct (Hone 3 7 ltac:(lia) ltac:(lia)) as (r & _ & Hgen & Hc & _).
    exists r. split; [exact Hgen | exact Hc].
Defined.

Lemma modulus_is_power_of_two_witness :
  0 <= 14514284786278117030 < 2 ^ 64 /\
  divisor64 (new_modulo64 14514284786278117030) = 2 ^ 38 /\
  0 <= 16838 <= RAND_MAX (CRand := iso_c_rand) /\
  Z.abs (divisor32 (new_modulo32 16838)) = 2 ^ 6 /\
  (RAND_MAX (CRand := iso_c_rand) + 1) mod 32 = 0 /\
  (16838 mod 32 = 6 <->
   exists q, 0 <= q < (RAND_MAX (CRand := iso_c_rand) + 1) / 32 /\
             16838 = 32 * q + 6) /\
  0 < 5 /\
  exists r,
    generate_int32_delta_varied_bit_width_table (CR := iso_c_rand)
      env_5489 10 5 true = Some r.
Proof.
  destruct (modulus_is_power_of_two (EG := mt19937_64) (CR := iso_c_rand))
    as (H64 & _ & H32 & Hfibre & _ & Hgen32).
  change (RAND_MAX (CRand := iso_c_rand)) with 32767 in *.
  split; [lia |].
  split; [apply (H64 14514284786278117030); lia |].
  split; [lia |].
  split; [apply (H32 16838); lia |].
  split; [reflexivity |].
  split; [apply (Hfibre eq_refl 6 16838); lia |].
  split; [lia |].
  destruct (Hgen32 env_5489 10 5 true ltac:(lia)) as (r & Hgen & _).
  exists r. exact Hgen.
Defined.

Lemma random_source_of_each_generator_witness :
  0 < 5 /\
  (exists r,
     generate_int64_delta_varied_bit_width_table (EG := mt19937_64)
       env_5489 10 5 true = Some r /\
     Forall (fun d => d_source d = Mt19937_64 /\ 0 <= d_value d < 2 ^ 64)
       (draws_of (trace (final r))) /\
     draws invoke (List.length (draws_of (trace (final r))))
       (seed_engine 5489)
     = (map d_value (draws_of (trace (final r))), rng_state (final r)) /\
     column (returned r) = map it_number (trace (final r))) /\
  (exists r,
     generate_int32_delta_varied_bit_width_table (CR := iso_c_rand)
       env_5489 10 5 true = Some r /\
     Forall (fun d => d_source d = CStdlibRand /\
                      0 <= d_value d <= RAND_MAX /\ d_value d < 2 ^ 31)
       (draws_of (trace (final r))) /\
     draws rand (List.length (draws_of (trace (final r)))) IsoCRand.initial
     = (map d_value (draws_of (trace (final r))), rng_state (final r)) /\
     column (returned r) = map it_number (trace (final r))) /\
  random_device env_1 <> random_device env_5489 /\
  rand_state env_1 = rand_state env_5489 /\
  generate_int32_delta_varied_bit_width_table (CR := iso_c_rand)
    env_1 10 5 true
  = generate_int32_delta_varied_bit_width_table (CR := iso_c_rand)
      env_5489 10 5 true /\
  rand_state env_5489_later <> rand_state env_5489 /\
  option_map (fun r => column (returned r))
    (generate_int32_delta_varied_bit_width_table (CR := iso_c_rand)
       env_5489_later 10 5 true)
  <> option_map (fun r => column (returned r))
       (generate_int32_delta_varied_bit_width_table (CR := iso_c_rand)
          env_5489 10 5 true).
Proof.
  destruct (random_source_of_each_generator (EG := mt19937_64)
              (CR := iso_c_rand) env_5489 10 5 true ltac:(lia))
    as ((r64 & Hgen64 & Hsrc64 & Hdraws64 & Hcol64 & _)
        & (r32 & Hgen32 & Hsrc32 & Hdraws32 & Hcol32 & _) & Hindep).
  split; [lia |].
  split; [exists r64; auto |].
  split; [exists r32; auto |].
  split; [discriminate |]. split; [reflexivity |].
  split; [apply Hindep; reflexivity |].
  split; [discriminate |].
  vm_compute. discriminate.
Defined.

Lemma same_seed_same_output_witness :
  random_device env_5489 = random_device env_5489_later /\
  rand_state env_5489 <> rand_state env_5489_later /\
  generate_int64_delta_varied_bit_width_table (EG := mt19937_64)
    env_5489 10 5 true
  = generate_int64_delta_varied_bit_width_table (EG := mt19937_64)
      env_5489_later 10 5 true.
Proof.
  split; [reflexivity |]. split; [discriminate |].
  apply (same_seed_same_output (EG := mt19937_64) env_5489 env_5489_later
           10 5 true).
  reflexivity.
Defined.

Lemma decimal_sidecar_round_trip_witness :
  5 <> 0 /\
  exists r content,
    generate_int64_delta_varied_bit_width_table (EG := mt19937_64)
      env_5489 10 5 true = Some r /\
    dec_check_file (final r) = Some content /\
    Text.parse_dec_file content = Some (column (returned r)).
Proof.
  split; [lia |].
  destruct (decimal_sidecar_round_trip (EG := mt19937_64) env_5489 10 5
              ltac:(lia)) as (r & content & Hgen & Hdec & _ & Hparse).
  exists r, content. auto.
Defined.

Lemma usage_on_standard_output_witness :
  (List.length ["prelim"%string] < 2)%nat /\
  cout (main (EG := mt19937_64) always_written env_5489 ["prelim"%string])
  = usage_line /\
  (2 <= List.length ["prelim"; "3"]%string)%nat /\
  ~ occurs_in usage_line
      (cout (main (EG := mt19937_64) always_written env_5489
               ["prelim"; "3"]%string)) /\
  ended (main (EG := mt19937_64) always_written env_5489
           ["prelim"; "3"]%string)
  <> Returned 1.
Proof.
  split; [simpl; lia |]. split.
  - apply (usage_on_standard_output (EG := mt19937_64) always_written
             env_5489 ["prelim"%string]).
    simpl. lia.
  - split; [simpl; lia |].
    destruct (proj2 (usage_on_standard_output (EG := mt19937_64)
                       always_written env_5489 ["prelim"; "3"]%string))
      as (Hnot & _ & _ & Hend); [simpl; lia |].
    split; [exact Hnot | exact Hend].
Defined.

Lemma remainder_never_by_zero_witness :
  1 <= 10 /\ 0 < 5 /\
  (exists r,
     generate_int64_delta_varied_bit_width_table (EG := mt19937_64)
       env_5489 10 5 true = Some r) /\
  (exists r,
     generate_int32_delta_varied_bit_width_table (CR := iso_c_rand)
       env_5489 10 5 true = Some r).
Proof.
  destruct (remainder_never_by_zero (EG := mt19937_64) (CR := iso_c_rand)
              env_5489 10 5 true ltac:(lia) ltac:(lia))
    as (_ & _ & (r64 & _ & _ & H64 & _) & (r32 & _ & _ & H32 & _)).
  split; [lia |]. split; [lia |]. split; [exists r64 | exists r32]; auto.
Defined.

Lemma hex_sidecar32_fixed_width_witness :
  5 <> 0 /\
  exists r,
    generate_int32_delta_varied_bit_width_table (CR := iso_c_rand)
      env_5489 10 5 true = Some r /\
    Forall (fun v => String.length (hex_line32 v) = 9%nat)
      (column (returned r)).
Proof.
  split; [lia |].
  destruct (hex_sidecar32_fixed_width (CR := iso_c_rand) env_5489 10 5
              ltac:(lia)) as (r & Hgen & _ & Hw).
  exists r. auto.
Defined.

Lemma value32_below_active_modulus_witness :
  0 < 10 /\ 0 < 5 /\
  exists r,
    generate_int32_delta_varied_bit_width_table (CR := iso_c_rand)
      env_5489 10 5 true = Some r /\
    Z.of_nat (List.length (column (returned r))) = 10.
Proof.
  split; [lia |]. split; [lia |].
  destruct (value32_below_active_modulus (CR := iso_c_rand) env_5489 10 5
              true ltac:(lia) ltac:(lia)) as (r & Hgen & Hlen & _).
  exists r. auto.
Defined.

(* ================================================================= *)
(** ** The random strings and the plain integer tables *)

Lemma draws_length {S : Type} (step : S -> Z * S) (k : nat) :
  forall s, List.length (fst (draws step k s)) = k.
Proof.
  induction k as [| k IH]; intro s; [reflexivity |].
  cbn [draws]. destruct (step s) as [d s1].
  specialize (IH s1). destruct (draws step k s1) as [ds s2].
  cbn [fst List.length] in *. now rewrite IH.
Qed.

Lemma draws_Forall {S : Type} (step : S -> Z * S) (P : Z -> Prop) :
  (forall s, P (fst (step s))) ->
  forall k s, Forall P (fst (draws step k s)).
Proof.
  intros Hstep. induction k as [| k IH]; intro s; [constructor |].
  cbn [draws]. pose proof (Hstep s) as Hd. destruct (step s) as [d s1].
  specialize (IH s1). destruct (draws step k s1) as [ds s2].
  cbn [fst] in *. constructor; assumption.
Qed.

Lemma alphanum_get (k : nat) :
  (k < 62)%nat ->
  exists c, String.get k alphanum = Some c /\ is_alnum c = true.
Proof.
  intro Hk.
  assert (Hall : forallb
                   (fun j => match String.get j alphanum with
                             | Some c => is_alnum c
                             | None => false
                             end) (seq 0 62) = true)
    by (vm_compute; reflexivity).
  rewrite forallb_forall in Hall.
  specialize (Hall k ltac:(apply in_seq; lia)).
  destruct (String.get k alphanum) as [c |]; [eauto | discriminate].
Qed.

Lemma skipn_nth_error {A : Type} (l : list A) :
  forall n x, nth_error l n = Some x -> skipn n l = x :: skipn (S n) l.
Proof.
  induction l as [| y l IH]; intros [| n] x E; try discriminate.
  - injection E as ->. reflexivity.
  - cbn in E. apply IH in E. exact E.
Qed.

Lemma dump_loop_inside (buffer : list Z) (count : nat) :
  forall i check_file,
  0 <= i ->
  (Z.to_nat i + count <= List.length buffer)%nat ->
  i + Z.of_nat count <= INT_MAX ->
  for_loop (body_dump buffer) count i check_file
  = Some (check_file ++ firstn count (skipn (Z.to_nat i) buffer)).
Proof.
  induction count as [| count IH]; intros i check_file Hi Hlen Hmax.
  - cbn. rewrite app_nil_r. reflexivity.
  - cbn [for_loop]. unfold body_dump at 1.
    destruct (nth_error buffer (Z.to_nat i)) as [b |] eqn:E;
      [| apply nth_error_None in E; lia].
    assert (Hfit : fits_int (i + 1) = true).
    { unfold fits_int, INT_MIN, INT_MAX in *.
      apply andb_true_iff; split; apply Z.leb_le; lia. }
    rewrite Hfit, IH by lia.
    replace (Z.to_nat (i + 1)) with (S (Z.to_nat i)) by lia.
    rewrite (skipn_nth_error _ _ _ E). cbn [firstn].
    rewrite <- app_assoc. reflexivity.
Qed.

Lemma dump_loop_overflow (buffer : list Z) (count : nat) :
  forall i check_file,
  0 <= i <= INT_MAX ->
  INT_MAX < i + Z.of_nat count ->
  for_loop (body_dump buffer) count i check_file = None.
Proof.
  induction count as [| count IH]; intros i check_file Hi Hmax; [lia |].
  cbn [for_loop]. unfold body_dump at 1.
  destruct (nth_error buffer (Z.to_nat i)) as [b |]; [| reflexivity].
  destruct (fits_int (i + 1)) eqn:Hfit; [| reflexivity].
  unfold fits_int in Hfit. apply andb_true_iff in Hfit.
  destruct Hfit as [_ Hle]. apply Z.leb_le in Hle.
  apply IH; lia.
Qed.

(** The dump writes the whole buffer, or overflows its counter. *)
Lemma dump_buffer_spec (buffer : list Z) :
  dump_buffer buffer
  = if Z.of_nat (List.length buffer) <=? INT_MAX then Some buffer else None.
Proof.
  unfold dump_buffer.
  destruct (Z.leb_spec (Z.of_nat (List.length buffer)) INT_MAX) as [Hle | Hgt].
  - rewrite dump_loop_inside;
      [| lia | change (Z.to_nat 0) with 0%nat; lia | lia].
    change (Z.to_nat 0) with 0%nat. cbn [skipn app].
    rewrite firstn_all. reflexivity.
  - apply dump_loop_overflow; [unfold INT_MAX; lia | lia].
Qed.

Section OtherGeneratorFacts.

Context {G : Type} {EG : Engine64 G} {R : Type} {CR : CRand R}.
Variable values_buffer : Z -> list Z -> list Z.
Variable string_buffers : list string -> list Z * list Z.

Lemma rand_index (d : Z) :
  in_rand d -> (Z.to_nat (Z.rem (to_uint64 d) 62) < 62)%nat.
Proof.
  intros [Hd Hmax]. pose proof RAND_MAX_upper as Hu. unfold INT_MAX in Hu.
  rewrite to_uint64_small by lia.
  rewrite Z.rem_mod_nonneg by lia.
  pose proof (Z.mod_pos_bound d 62 ltac:(lia)). lia.
Qed.

Lemma gen_random_string_loop_spec (count : nat) :
  forall r,
  exists s,
    gen_random_string_loop count r = Some (s, snd (draws rand count r)) /\
    String.length s = count /\
    all_chars is_alnum s = true.
Proof.
  induction count as [| count IH]; intro r.
  - exists EmptyString. auto.
  - cbn [gen_random_string_loop draws].
    pose proof (rand_in_range r) as Hd.
    destruct (rand r) as [d r1]. cbn [fst] in Hd.
    destruct (alphanum_get _ (rand_index d Hd)) as (c & Hget & Hc).
    rewrite Hget.
    destruct (IH r1) as (s & Hloop & Hlen & Hall). rewrite Hloop.
    destruct (draws rand count r1) as [ds r2]. cbn [snd].
    exists (String c s). cbn [String.length all_chars].
    rewrite Hlen, Hc, Hall. auto.
Qed.

(** X3. [gen_random_string(length)] throws for a negative [length] before it
    draws anything; for [length >= 0] it returns a string of exactly
    [length] characters, every one a digit or an unaccented letter, and has
    called [rand()] exactly [length] times. *)
Theorem gen_random_string_alphanumeric (length : Z) (r : R) :
  (length < 0 -> gen_random_string length r = Throws) /\
  (0 <= length ->
   exists s,
     gen_random_string length r
     = Done (s, snd (draws rand (Z.to_nat length) r)) /\
     Z.of_nat (String.length s) = length /\
     all_chars is_alnum s = true).
Proof.
  unfold gen_random_string. split; intro Hlen.
  - destruct (Z.ltb_spec length 0); [reflexivity | lia].
  - destruct (Z.ltb_spec length 0); [lia |].
    destruct (gen_random_string_loop_spec (Z.to_nat length) r)
      as (s & Hloop & Hl & Hall).
    rewrite Hloop. exists s. split; [reflexivity |]. split; [lia | exact Hall].
Qed.

Lemma rand_number_range (modulo d : Z) :
  in_rand d ->
  0 <= rand_number modulo d <= RAND_MAX /\
  (0 < modulo -> rand_number modulo d < modulo).
Proof.
  intros [Hd Hmax]. unfold rand_number.
  destruct (Z.leb_spec modulo 0) as [Hm | Hm]; [split; lia |].
  rewrite Z.rem_mod_nonneg by lia.
  pose proof (Z.mod_pos_bound d modulo Hm).
  pose proof (Z.mod_le d modulo Hd Hm). split; lia.
Qed.

Lemma int32_table_loop (modulo : Z) (count : nat) :
  forall i l,
  for_loop (body_int32_table modulo) count i l
  = Some {| il_rng := snd (draws rand count (il_rng _ l));
            il_builder :=
              il_builder _ l
              ++ map (rand_number modulo)
                   (fst (draws rand count (il_rng _ l))) |}.
Proof.
  induction count as [| count IH]; intros i l.
  - cbn. rewrite app_nil_r. destruct l; reflexivity.
  - cbn [for_loop draws]. unfold body_int32_table at 1.
    destruct (rand (il_rng R l)) as [d r1].
    rewrite IH. cbn [il_rng il_builder].
    destruct (draws rand count r1) as [ds r2]. cbn [fst snd map].
    rewrite <- app_assoc. reflexivity.
Qed.

(** X4. [generate_int32_table] draws one [rand()] for each of its
    [num_values] values (none for a negative [num_values]), takes it modulo
    [modulo] when [modulo > 0] and as it is otherwise: every value lies in
    [0, RAND_MAX], so none is negative, whatever [modulo] is, and for
    [modulo > 0] every value is below [modulo].  The function returns the
    column of these values when the recorder is off, or when the values
    buffer it dumps has at most [INT_MAX] bytes; [check_file] then holds the
    bytes of the buffer.  With the recorder on and a larger buffer the [int]
    counter of the dump loop overflows. *)
Theorem generate_int32_table_values
    (e : env R) (num_values modulo : Z) (write_to_file : bool) :
  let values :=
    map (rand_number modulo)
      (fst (draws rand (Z.to_nat num_values) (rand_state e))) in
  let bytes := values_buffer 32 values in
  List.length values = Z.to_nat num_values /\
  Forall (fun v => 0 <= v <= RAND_MAX /\ (0 < modulo -> v < modulo)) values /\
  (write_to_file = false \/ Z.of_nat (List.length bytes) <= INT_MAX ->
   exists o,
     generate_int32_table values_buffer e num_values modulo write_to_file
     = Some o /\
     column (io_table _ o) = values /\
     io_check_file _ o = (if write_to_file then Some bytes else None) /\
     io_rng _ o = snd (draws rand (Z.to_nat num_values) (rand_state e))) /\
  (write_to_file = true -> INT_MAX < Z.of_nat (List.length bytes) ->
   generate_int32_table values_buffer e num_values modulo write_to_file
   = None).
Proof.
  intros values bytes.
  split; [unfold values; rewrite length_map; apply draws_length |].
  split.
  { unfold values. apply Forall_map.
    eapply Forall_impl; [| apply (draws_Forall rand in_rand rand_in_range)].
    intros d Hd. apply rand_number_range. exact Hd. }
  unfold generate_int32_table. rewrite int32_table_loop.
  cbn [il_rng il_builder app]. cbv zeta. fold values. fold bytes.
  rewrite (dump_buffer_spec bytes).
  split.
  - intros [-> | Hsize].
    + eexists. split; [reflexivity |]. cbn. auto.
    + destruct (Z.leb_spec (Z.of_nat (List.length bytes)) INT_MAX); [| lia].
      destruct write_to_file; eexists; (split; [reflexivity |]); cbn; auto.
  - intros -> Hsize.
    destruct (Z.leb_spec (Z.of_nat (List.length bytes)) INT_MAX);
      [lia | reflexivity].
Qed.

Lemma gen_number_range (modulo d : Z) :
  modulo <= INT_MAX -> in_uint64 d ->
  - 2 ^ 63 <= gen_number modulo d < 2 ^ 63 /\
  (0 < modulo ->
   gen_number modulo d = d mod modulo /\ 0 <= gen_number modulo d < modulo) /\
  (modulo <= 0 -> to_uint64 (gen_number modulo d) = d).
Proof.
  intros Hmax Hd. unfold INT_MAX in Hmax. unfold in_uint64 in Hd.
  unfold gen_number.
  destruct (Z.leb_spec modulo 0) as [Hm | Hm].
  - split; [| split; [lia |]].
    + unfold to_int64.
      pose proof (Z.mod_pos_bound (d + 2 ^ 63) (2 ^ 64) ltac:(lia)). lia.
    + intros _. rewrite to_uint64_to_int64. apply to_uint64_small. exact Hd.
  - rewrite (to_uint64_small modulo) by lia.
    rewrite Z.rem_mod_nonneg by lia.
    pose proof (Z.mod_pos_bound d modulo Hm) as Hb.
    rewrite to_int64_small by lia.
    split; [lia |]. split; [auto | lia].
Qed.

Lemma int64_table_loop (modulo : Z) (count : nat) :
  forall i l,
  for_loop (body_int64_table modulo) count i l
  = Some {| il_rng := snd (draws invoke count (il_rng _ l));
            il_builder :=
              il_builder _ l
              ++ map (gen_number modulo)
                   (fst (draws invoke count (il_rng _ l))) |}.
Proof.
  induction count as [| count IH]; intros i l.
  - cbn. rewrite app_nil_r. destruct l; reflexivity.
  - cbn [for_loop draws]. unfold body_int64_table at 1.
    destruct (invoke (il_rng G l)) as [d g1].
    rewrite IH. cbn [il_rng il_builder].
    destruct (draws invoke count g1) as [ds g2]. cbn [fst snd map].
    rewrite <- app_assoc. reflexivity.
Qed.

(** X5. [generate_int64_table] draws one result of an engine seeded with
    what [std::random_device] gave for each of its [num_values] values.  For
    [modulo > 0] every value is the draw modulo [modulo], at least 0 and
    below [modulo]; for [modulo <= 0] every value is the draw read as a
    signed 64-bit integer: all 64 bits are kept and the value may be
    negative.  The function returns the column of these values when the
    recorder is off, or when the values buffer it dumps has at most
    [INT_MAX] bytes; with the recorder on and a larger buffer the [int]
    counter of the dump loop overflows. *)
Theorem generate_int64_table_values
    (e : env R) (num_values modulo : Z) (write_to_file : bool) :
  modulo <= INT_MAX ->
  let drawn :=
    fst (draws invoke (Z.to_nat num_values)
           (seed_engine (random_device e))) in
  let values := map (gen_number modulo) drawn in
  let bytes := values_buffer 64 values in
  List.length values = Z.to_nat num_values /\
  Forall (fun v => - 2 ^ 63 <= v < 2 ^ 63 /\ (0 < modulo -> 0 <= v < modulo))
    values /\
  (modulo <= 0 -> map to_uint64 values = drawn) /\
  (write_to_file = false \/ Z.of_nat (List.length bytes) <= INT_MAX ->
   exists o,
     generate_int64_table values_buffer e num_values modulo write_to_file
     = Some o /\
     column (io_table _ o) = values /\
     io_check_file _ o = (if write_to_file then Some bytes else None)) /\
  (write_to_file = true -> INT_MAX < Z.of_nat (List.length bytes) ->
   generate_int64_table values_buffer e num_values modulo write_to_file
   = None).
Proof.
  intros Hmax drawn values bytes.
  pose proof (draws_Forall invoke in_uint64 invoke_in_range
                (Z.to_nat num_values) (seed_engine (random_device e)))
    as Hall.
  fold drawn in Hall.
  split; [unfold values, drawn; rewrite length_map; apply draws_length |].
  split.
  { unfold values. apply Forall_map. eapply Forall_impl; [| exact Hall].
    intros d Hd. destruct (gen_number_range modulo d Hmax Hd) as (H1 & H2 & _).
    split; [exact H1 |]. intro Hm. apply (H2 Hm). }
  split.
  { intro Hm. unfold values. rewrite map_map.
    induction Hall as [| d ds Hd _ IH]; [reflexivity |].
    cbn [map]. rewrite IH.
    destruct (gen_number_range modulo d Hmax Hd) as (_ & _ & H3).
    rewrite (H3 Hm). reflexivity. }
  unfold generate_int64_table. rewrite int64_table_loop.
  cbn [il_rng il_builder app]. cbv zeta. fold drawn. fold values. fold bytes.
  rewrite (dump_buffer_spec bytes).
  split.
  - intros [-> | Hsize].
    + eexists. split; [reflexivity |]. cbn. auto.
    + destruct (Z.leb_spec (Z.of_nat (List.length bytes)) INT_MAX); [| lia].
      destruct write_to_file; eexists; (split; [reflexivity |]); cbn; auto.
  - intros -> Hsize.
    destruct (Z.leb_spec (Z.of_nat (List.length bytes)) INT_MAX);
      [lia | reflexivity].
Qed.

End OtherGeneratorFacts.
(* ================================================================= *)
(** ** The hexadecimal sidecar files read back *)

Lemma hex_digit_value_digit_char (d : Z) :
  0 <= d < 16 -> hex_digit_value (Text.digit_char d) = Some d.
Proof.
  intro Hd.
  assert (H : d = 0 \/ d = 1 \/ d = 2 \/ d = 3 \/ d = 4 \/ d = 5 \/ d = 6 \/
              d = 7 \/ d = 8 \/ d = 9 \/ d = 10 \/ d = 11 \/ d = 12 \/
              d = 13 \/ d = 14 \/ d = 15) by lia.
  repeat (destruct H as [-> | H]; [reflexivity |]).
  subst d. reflexivity.
Qed.

Lemma parse_hex_digits_app (s1 s2 : string) :
  forall acc,
  parse_hex_digits (s1 ++ s2) acc
  = match parse_hex_digits s1 acc with
    | Some v => parse_hex_digits s2 v
    | None => None
    end.
Proof.
  induction s1 as [| c s1 IH]; intro acc; [reflexivity |].
  cbn [String.append parse_hex_digits].
  destruct (hex_digit_value c); [apply IH | reflexivity].
Qed.

Lemma parse_hex_digits_digits_fuel (fuel : nat) :
  forall n, 0 <= n < 16 ^ Z.of_nat fuel ->
  parse_hex_digits (Text.digits_fuel 16 fuel n EmptyString) 0 = Some n.
Proof.
  induction fuel as [| fuel IH]; intros n Hn.
  - simpl in Hn. assert (n = 0) by lia. subst n. reflexivity.
  - rewrite Nat2Z.inj_succ, Z.pow_succ_r in Hn by lia.
    pose proof (Z.div_mod n 16 ltac:(lia)) as Hdm.
    pose proof (Z.mod_pos_bound n 16 ltac:(lia)) as Hr.
    cbn [Text.digits_fuel].
    destruct (Z.eqb_spec (n / 16) 0) as [E | E].
    + cbn [parse_hex_digits].
      rewrite (hex_digit_value_digit_char _ Hr). f_equal. lia.
    + rewrite digits_fuel_app, parse_hex_digits_app.
      rewrite IH.
      * cbn [parse_hex_digits].
        rewrite (hex_digit_value_digit_char _ Hr). f_equal. lia.
      * split; [apply Z.div_pos; lia |].
        apply Z.div_lt_upper_bound; lia.
Qed.

Lemma parse_hex_digits_digits (n : Z) :
  0 <= n -> parse_hex_digits (Text.digits 16 n) 0 = Some n.
Proof.
  intro Hn. unfold Text.digits. apply parse_hex_digits_digits_fuel.
  split; [exact Hn |].
  pose proof (Z.log2_nonneg n) as Hl.
  rewrite Nat2Z.inj_succ, Z2Nat.id by lia.
  destruct (Z.eq_dec n 0) as [-> | Hnz]; [reflexivity |].
  destruct (Z.log2_spec n ltac:(lia)) as [_ Hup].
  assert (2 ^ Z.succ (Z.log2 n) <= 16 ^ Z.succ (Z.log2 n))
    by (apply Z.pow_le_mono_l; lia).
  lia.
Qed.

Lemma parse_hex_digits_zeros (k : nat) (s : string) :
  parse_hex_digits (Text.replicate k "0"%char ++ s) 0
  = parse_hex_digits s 0.
Proof.
  induction k as [| k IH]; [reflexivity |].
  cbn [Text.replicate String.append parse_hex_digits]. exact IH.
Qed.

(** A zero-filled field of hexadecimal digits reads back as the number. *)
Lemma parse_hex_setw_fill (w : nat) (n : Z) :
  0 <= n ->
  parse_hex (Text.setw_fill w "0"%char (Text.digits 16 n)) = Some n.
Proof.
  intro Hn. unfold Text.setw_fill, parse_hex.
  pose proof (digits_nonempty 16 n) as Hne.
  destruct (Text.replicate (w - String.length (Text.digits 16 n)) "0"%char
            ++ Text.digits 16 n)%string eqn:E.
  - destruct (Text.replicate _ _); [| discriminate E].
    cbn in E. contradiction.
  - rewrite <- E, parse_hex_digits_zeros. apply parse_hex_digits_digits.
    exact Hn.
Qed.

Lemma parse_hex_digits_no_newline (s : string) :
  forall acc v, parse_hex_digits s acc = Some v -> no_newline s.
Proof.
  induction s as [| c s IH]; intros acc v Hparse; [exact I |].
  cbn [parse_hex_digits] in Hparse. cbn [no_newline].
  destruct (hex_digit_value c) as [d |] eqn:Ed; [| discriminate].
  split; [| eapply IH; exact Hparse].
  destruct (Ascii.eqb_spec c (ascii_of_nat 10)) as [-> | _];
    [discriminate Ed | reflexivity].
Qed.

Lemma parse_hex_no_newline (s : string) (v : Z) :
  parse_hex s = Some v -> no_newline s.
Proof.
  destruct s as [| c s]; [discriminate |].
  apply parse_hex_digits_no_newline.
Qed.

(** Texts without newlines, written one per line, are the lines of what was
    written. *)
Lemma lines_from_lines_text (fields : list string) :
  Forall no_newline fields ->
  Text.lines_from (lines_text fields) EmptyString = Some fields.
Proof.
  induction 1 as [| f fields Hf Hrest IH]; [reflexivity |].
  cbn [lines_text]. rewrite (lines_from_line _ _ Hf), IH. reflexivity.
Qed.

Lemma render_lines_text (field : Z -> string) (vs : list Z) :
  render (fun v => (field v ++ Text.endl)%string) vs
  = lines_text (map field vs).
Proof.
  induction vs as [| v vs IH]; [reflexivity |].
  cbn [render map lines_text]. rewrite IH, string_app_assoc. reflexivity.
Qed.

(** A column of numbers that are not negative, written as zero-filled
    hexadecimal fields one per line, reads back as the column. *)
Lemma parse_hex_file_fields (w : nat) (vs : list Z) :
  Forall (fun v => 0 <= v) vs ->
  parse_hex_file
    (lines_text (map (fun v => Text.setw_fill w "0"%char (Text.digits 16 v))
                   vs))
  = Some vs.
Proof.
  intro Hvs. unfold parse_hex_file.
  rewrite lines_from_lines_text.
  - induction Hvs as [| v vs Hv _ IH]; [reflexivity |].
    cbn [map parse_all_hex]. rewrite (parse_hex_setw_fill w v Hv), IH.
    reflexivity.
  - apply Forall_map. eapply Forall_impl; [| exact Hvs].
    intros v Hv. eapply parse_hex_no_newline.
    apply parse_hex_setw_fill. exact Hv.
Qed.

Lemma Forall_of_nth_error {A : Type} (P : A -> Prop) (t : list A) :
  (forall i x, 0 <= i -> nth_error t (Z.to_nat i) = Some x -> P x) ->
  Forall P t.
Proof.
  intro H. apply Forall_forall. intros x Hin.
  destruct (In_nth_error _ _ Hin) as (j & Hj).
  apply (H (Z.of_nat j) x ltac:(lia)). rewrite Nat2Z.id. exact Hj.
Qed.

Section SidecarsReadBack.

Context {G : Type} {EG : Engine64 G} {R : Type} {CR : CRand R}.

Lemma column64_not_negative (e : env R) (n L : Z) (w : bool) :
  0 < L ->
  exists r,
    generate_int64_delta_varied_bit_width_table e n L w = Some r /\
    run_effect w hex_line64 64 n r /\
    Forall (fun v => 0 <= v < 2 ^ 63) (column (returned r)).
Proof.
  intro HL.
  destruct (generate_int64_run e n L w ltac:(lia))
    as (r & Hgen & Hrun & Heff).
  exists r. split; [exact Hgen |]. split; [exact Heff |].
  destruct Heff as (_ & Hcol & _). rewrite Hcol. apply Forall_map.
  apply Forall_of_nth_error. intros i it Hi Hnth.
  destruct (pass64_facts _ _ _ _ _ HL Hrun Hi Hnth)
    as (_ & x & _ & _ & _ & _ & _ & _ & Hdiv & _ & _ & _ & Hb).
  assert (Hk : 0 <= x mod 64 < 64) by (apply Z.mod_pos_bound; lia).
  pose proof (pow2_bounds _ 64 Hk) as Hp. simpl (64 - 1) in Hp.
  rewrite Hdiv in Hb. lia.
Qed.

Lemma column32_not_negative (e : env R) (n L : Z) (w : bool) :
  0 < L ->
  exists r,
    generate_int32_delta_varied_bit_width_table e n L w = Some r /\
    run_effect w hex_line32 32 n r /\
    Forall (fun v => 0 <= v < 2 ^ 31) (column (returned r)).
Proof.
  intro HL.
  destruct (generate_int32_run e n L w ltac:(lia))
    as (r & Hgen & Hrun & Heff).
  exists r. split; [exact Hgen |]. split; [exact Heff |].
  destruct Heff as (_ & Hcol & _). rewrite Hcol. apply Forall_map.
  apply Forall_of_nth_error. intros i it Hi Hnth.
  destruct (pass32_facts _ _ _ _ _ HL Hrun Hi Hnth)
    as (_ & x & _ & _ & _ & _ & _ & _ & _ & _ & _ & _ & Hb).
  assert (Hk : 0 <= x mod 32 < 32) by (apply Z.mod_pos_bound; lia).
  pose proof (pow2_bounds _ 32 Hk) as Hp. simpl (32 - 1) in Hp.
  lia.
Qed.

Lemma render_hex_line64 (vs : list Z) :
  Forall (fun v => 0 <= v < 2 ^ 63) vs ->
  render hex_line64 vs
  = lines_text
      (map (fun v => Text.setw_fill 8 "0"%char (Text.digits 16 v)) vs).
Proof.
  intro Hvs. unfold hex_line64.
  rewrite (render_lines_text
             (fun v => Text.setw_fill 8 "0"%char (Text.to_hex64 v))).
  f_equal. apply map_ext_Forall. eapply Forall_impl; [| exact Hvs].
  intros v Hv. cbv beta in Hv |- *. unfold Text.to_hex64.
  rewrite to_uint64_small; [reflexivity |].
  assert (2 ^ 63 < 2 ^ 64) by (apply Z.pow_lt_mono_r; lia). lia.
Qed.

Lemma render_hex_line32 (vs : list Z) :
  Forall (fun v => 0 <= v < 2 ^ 31) vs ->
  render hex_line32 vs
  = lines_text
      (map (fun v => Text.setw_fill 8 "0"%char (Text.digits 16 v)) vs).
Proof.
  intro Hvs. unfold hex_line32.
  rewrite (render_lines_text
             (fun v => Text.setw_fill 8 "0"%char (Text.to_hex32 v))).
  f_equal. apply map_ext_Forall. eapply Forall_impl; [| exact Hvs].
  intros v Hv. cbv beta in Hv |- *. unfold Text.to_hex32.
  rewrite to_uint32_small; [reflexivity |].
  assert (2 ^ 31 < 2 ^ 32) by (apply Z.pow_lt_mono_r; lia). lia.
Qed.

(** X6. When the recorder is on, the hexadecimal sidecar text of the 64-bit
    generator, cut at its newlines and read as hexadecimal numbers, gives
    back the column: the lines differ in width, but each ends with a newline
    and no value is negative, so nothing is lost. *)
Theorem hex_sidecar64_round_trip
    (e : env R) (num_values run_length : Z) :
  0 < run_length ->
  exists r content,
    generate_int64_delta_varied_bit_width_table e num_values run_length true
    = Some r /\
    hex_check_file (final r) = Some content /\
    parse_hex_file content = Some (column (returned r)).
Proof.
  intro HL.
  destruct (column64_not_negative e num_values run_length true HL)
    as (r & Hgen & (_ & _ & _ & _ & Hhex) & Hpos).
  unfold Text.open in Hhex. rewrite record_all_open in Hhex.
  cbn [String.append] in Hhex.
  exists r, (render hex_line64 (column (returned r))).
  split; [exact Hgen |]. split; [exact Hhex |].
  rewrite (render_hex_line64 _ Hpos). apply parse_hex_file_fields.
  eapply Forall_impl; [| exact Hpos]. intros v Hv. cbv beta in Hv. lia.
Qed.

(** X7. When the recorder is on, both sidecar texts of the 32-bit generator
    read back as the column: the decimal one as decimal numbers, the
    hexadecimal one as hexadecimal numbers. *)
Theorem sidecars32_round_trip
    (e : env R) (num_values run_length : Z) :
  0 < run_length ->
  exists r dec_content hex_content,
    generate_int32_delta_varied_bit_width_table e num_values run_length true
    = Some r /\
    dec_check_file (final r) = Some dec_content /\
    Text.parse_dec_file dec_content = Some (column (returned r)) /\
    hex_check_file (final r) = Some hex_content /\
    parse_hex_file hex_content = Some (column (returned r)).
Proof.
  intro HL.
  destruct (column32_not_negative e num_values run_length true HL)
    as (r & Hgen & (_ & _ & _ & Hdec & Hhex) & Hpos).
  unfold Text.open in Hdec, Hhex. rewrite record_all_open in Hdec, Hhex.
  cbn [String.append] in Hdec, Hhex.
  exists r, (render dec_line (column (returned r))),
    (render hex_line32 (column (returned r))).
  split; [exact Hgen |]. split; [exact Hdec |].
  split; [apply parse_dec_file_render |]. split; [exact Hhex |].
  rewrite (render_hex_line32 _ Hpos). apply parse_hex_file_fields.
  eapply Forall_impl; [| exact Hpos]. intros v Hv. cbv beta in Hv. lia.
Qed.

End SidecarsReadBack.

(* ================================================================= *)
(** ** The string tables *)

Lemma lines_text_app (a b : list string) :
  lines_text (a ++ b) = (lines_text a ++ lines_text b)%string.
Proof.
  induction a as [| f a IH]; [reflexivity |].
  cbn [app lines_text]. rewrite IH, !string_app_assoc. reflexivity.
Qed.

Lemma put_chars_open (s : string) :
  forall content,
  put_chars (Some content) s
  = Some (content ++ lines_text (map char_field (chars_of s)))%string.
Proof.
  induction s as [| c s IH]; intro content.
  - cbn. now rewrite string_app_nil_r.
  - cbn [put_chars Text.put option_map chars_of map lines_text].
    rewrite IH. unfold hex_char_line, char_field.
    rewrite !string_app_assoc. reflexivity.
Qed.

Lemma record_lengths_open (strs : list string) :
  forall content,
  record_lengths true (Some content) strs
  = Some (content ++ lines_text (map length_field strs))%string.
Proof.
  induction strs as [| s strs IH]; intro content.
  - cbn. now rewrite string_app_nil_r.
  - unfold record_lengths in *.
    cbn [fold_left Text.put option_map map lines_text].
    rewrite IH. unfold hex_line32, length_field.
    rewrite !string_app_assoc. reflexivity.
Qed.

Lemma record_chars_open (strs : list string) :
  forall content,
  record_chars true (Some content) strs
  = Some (content
          ++ lines_text (map char_field (flat_map chars_of strs)))%string.
Proof.
  induction strs as [| s strs IH]; intro content.
  - cbn. now rewrite string_app_nil_r.
  - unfold record_chars in *. cbn [fold_left flat_map].
    rewrite put_chars_open, IH, map_app, lines_text_app, string_app_assoc.
    reflexivity.
Qed.

Lemma record_lengths_off (strs : list string) (os : Text.ofstream) :
  record_lengths false os strs = os.
Proof.
  revert os. induction strs as [| s strs IH]; intro os; [reflexivity |].
  unfold record_lengths in *. cbn [fold_left]. apply IH.
Qed.

Lemma record_chars_off (strs : list string) (os : Text.ofstream) :
  record_chars false os strs = os.
Proof.
  revert os. induction strs as [| s strs IH]; intro os; [reflexivity |].
  unfold record_chars in *. cbn [fold_left]. apply IH.
Qed.

Section StringTables.

Context {R : Type} {CR : CRand R}.
Variable values_buffer : Z -> list Z -> list Z.
Variable string_buffers : list string -> list Z * list Z.

Variables min_length max_length : Z.
Hypothesis min_not_negative : 0 <= min_length.
Hypothesis min_max : min_length <= max_length.
Hypothesis span_fits : max_length - min_length < INT_MAX.
Hypothesis max_fits : max_length <= INT_MAX.

Lemma random_string_between_spec (r : R) :
  exists s,
    random_string_between min_length max_length r
    = Done (Z.of_nat (String.length s), s,
            snd (draws rand (S (String.length s)) r)) /\
    string_between min_length max_length s.
Proof.
  unfold random_string_between, fits_int, INT_MIN, INT_MAX in *.
  set (k := max_length - min_length + 1).
  assert (Hk : 0 < k <= 2 ^ 31 - 1) by (unfold k; lia).
  destruct (Z.leb_spec (- 2 ^ 31) (max_length - min_length)); [| lia].
  destruct (Z.leb_spec (max_length - min_length) (2 ^ 31 - 1)); [| lia].
  destruct (Z.leb_spec (- 2 ^ 31) k); [| lia].
  destruct (Z.leb_spec k (2 ^ 31 - 1)); [| lia].
  cbn [andb negb orb].
  destruct (Z.eqb_spec k 0); [lia |].
  cbn [draws].
  pose proof (rand_in_range r) as Hd.
  destruct (rand r) as [d r1]. cbn [fst] in Hd. destruct Hd as [Hd _].
  rewrite Z.rem_mod_nonneg by lia.
  pose proof (Z.mod_pos_bound d k ltac:(lia)) as Hm.
  set (len := d mod k + min_length) in *.
  assert (Hlen : min_length <= len <= max_length) by (unfold len, k in *; lia).
  destruct (Z.leb_spec (- 2 ^ 31) len); [| lia].
  destruct (Z.leb_spec len (2 ^ 31 - 1)); [| lia].
  cbn [andb negb].
  unfold gen_random_string.
  destruct (Z.ltb_spec len 0); [lia |].
  destruct (gen_random_string_loop_spec (Z.to_nat len) r1)
    as (s & Hloop & Hl & Hall).
  rewrite Hloop. exists s.
  destruct (draws rand (String.length s) r1) as [ds r2] eqn:Edraws.
  rewrite Hl in Edraws |- *. rewrite Edraws. cbn [snd].
  rewrite Z2Nat.id by lia.
  split; [reflexivity |]. split; [lia | exact Hall].
Qed.

Lemma str_table_loop (w : bool) (count : nat) :
  forall i l,
  exists strs,
    for_loop_res (body_str_table min_length max_length w) count i l
    = Done {| sl_rng :=
                snd (draws rand (count + total_length strs) (sl_rng l));
              sl_builder := sl_builder l ++ strs;
              hex_length_file := record_lengths w (hex_length_file l) strs;
              hex_char_file := record_chars w (hex_char_file l) strs |} /\
    List.length strs = count /\
    Forall (string_between min_length max_length) strs.
Proof.
  induction count as [| count IH]; intros i l.
  - exists []. cbn. rewrite app_nil_r. destruct l; auto.
  - cbn [for_loop_res]. unfold body_str_table at 1.
    destruct (random_string_between_spec (sl_rng l)) as (s & Hs & Hok).
    rewrite Hs.
    match goal with
    | |- context [for_loop_res _ count (i + 1) ?l1] =>
        destruct (IH (i + 1) l1) as (strs & Hloop & Hlen & Hall)
    end.
    rewrite Hloop. cbn [sl_rng sl_builder hex_length_file hex_char_file].
    exists (s :: strs).
    split; [| split; [simpl; congruence | constructor; assumption]].
    f_equal. f_equal.
    + pose proof (draws_add rand (S (String.length s))
                    (count + total_length strs) (sl_rng l)) as Hadd.
      replace (S count + total_length (s :: strs))%nat
        with (S (String.length s) + (count + total_length strs))%nat
        by (unfold total_length; simpl; lia).
      rewrite Hadd. reflexivity.
    + rewrite <- app_assoc. reflexivity.
Qed.

(** X8. For [0 <= min_length <= max_length] (and [max_length - min_length
    + 1] an [int]), and for tables within the sizes given below,
    [generate_str_table] returns one column of [num_values] strings; each is
    between [min_length] and [max_length] characters long and made of digits
    and unaccented letters only; [rand()] was called once for every string
    and once for every character.

    The two bounds on the size keep the run where the embedding follows the
    source: with at most [INT_MAX - 1] characters in all, the strings fit
    Arrow's [StringBuilder] and its data buffer has at most [INT_MAX] bytes;
    with the recorder on, the offsets buffer ([num_values + 1] offsets of 4
    bytes) has at most [INT_MAX] bytes too.  Past them the [int] counters of
    the dump loops of lines 280-285 overflow, which the embedding, taking the
    dumped bytes from [string_buffers], does not show. *)
Theorem generate_str_table_strings
    (e : env R) (num_values : Z) (write_to_file : bool) :
  num_values * max_length <= INT_MAX - 1 ->
  write_to_file = false \/ 4 * (num_values + 1) <= INT_MAX ->
  exists o strs,
    generate_str_table string_buffers e num_values min_length max_length
      write_to_file = Done o /\
    at_strings (so_table o) = [strs] /\
    at_ints (so_table o) = [] /\
    List.length strs = Z.to_nat num_values /\
    Forall (string_between min_length max_length) strs /\
    so_rng o
    = snd (draws rand (Z.to_nat num_values + total_length strs)
             (rand_state e)).
Proof.
  intros _ _. unfold generate_str_table.
  match goal with
  | |- context [for_loop_res _ _ 0 ?l0] =>
      destruct (str_table_loop write_to_file (Z.to_nat num_values) 0 l0)
        as (strs & Hloop & Hlen & Hall)
  end.
  rewrite Hloop. eexists. exists strs. split; [reflexivity |].
  cbn. auto.
Qed.

Lemma alnum_code (c : ascii) :
  is_alnum c = true -> char_to_int c = Z.of_nat (nat_of_ascii c) /\
                       48 <= char_to_int c <= 122.
Proof.
  unfold is_alnum, char_to_int. intro H.
  assert (Hk : (48 <= nat_of_ascii c <= 122)%nat).
  { repeat (apply orb_true_iff in H; destruct H as [H | H]);
      apply andb_true_iff in H; destruct H as [H1 H2];
      apply Nat.leb_le in H1; apply Nat.leb_le in H2; lia. }
  destruct (Z.ltb_spec (Z.of_nat (nat_of_ascii c)) 128); lia.
Qed.

Lemma all_chars_Forall (p : ascii -> bool) (s : string) :
  all_chars p s = true -> Forall (fun c => p c = true) (chars_of s).
Proof.
  induction s as [| c s IH]; intro H; [constructor |].
  cbn [all_chars] in H. apply andb_true_iff in H. destruct H as [Hc Hs].
  constructor; auto.
Qed.

Lemma char_field_width (c : ascii) :
  is_alnum c = true -> String.length (char_field c) = 2%nat.
Proof.
  intro Hc. destruct (alnum_code c Hc) as [_ Hk].
  unfold char_field, Text.setw_fill, Text.to_hex32, Text.digits.
  rewrite string_length_app, replicate_length.
  rewrite to_uint32_small by lia.
  pose proof (digits_fuel_length 16 (S (Z.to_nat (Z.log2 (char_to_int c))))
                ltac:(lia) (char_to_int c) 2%nat
                ltac:(change (16 ^ Z.of_nat 2) with 256; lia) ltac:(lia)).
  lia.
Qed.

(** X9. With the recorder on, [generate_str_table] leaves two hexadecimal
    texts that read back as what it generated: [lengths_small_strarray.hex]
    has one line of exactly 8 digits for every string and reads back as the
    lengths of the strings; [chars_small_strarray.hex] has one line of
    exactly 2 digits for every character and reads back as the codes of the
    characters of all strings, in order. *)
Theorem generate_str_table_hex_files (e : env R) (num_values : Z) :
  exists o strs lengths_text chars_text,
    generate_str_table string_buffers e num_values min_length max_length
      true = Done o /\
    at_strings (so_table o) = [strs] /\
    so_hex_length_file o = Some lengths_text /\
    Text.lines_from lengths_text EmptyString
    = Some (map length_field strs) /\
    Forall (fun l => String.length l = 8%nat) (map length_field strs) /\
    parse_hex_file lengths_text
    = Some (map (fun s => Z.of_nat (String.length s)) strs) /\
    so_hex_char_file o = Some chars_text /\
    Text.lines_from chars_text EmptyString
    = Some (map char_field (flat_map chars_of strs)) /\
    Forall (fun l => String.length l = 2%nat)
      (map char_field (flat_map chars_of strs)) /\
    parse_hex_file chars_text
    = Some (map char_to_int (flat_map chars_of strs)).
Proof.
  unfold generate_str_table.
  match goal with
  | |- context [for_loop_res _ _ 0 ?l0] =>
      destruct (str_table_loop true (Z.to_nat num_values) 0 l0)
        as (strs & Hloop & Hlen & Hall)
  end.
  rewrite Hloop. cbn [hex_length_file hex_char_file sl_builder app].
  unfold Text.open. rewrite record_lengths_open, record_chars_open.
  cbn [String.append].
  eexists. exists strs. do 2 eexists.
  cbn [so_table so_hex_length_file so_hex_char_file at_strings].
  assert (Hlens : map length_field strs
                  = map (fun v => Text.setw_fill 8 "0"%char
                                    (Text.digits 16 v))
                      (map (fun s => Z.of_nat (String.length s)) strs)).
  { rewrite map_map. apply map_ext_Forall.
    eapply Forall_impl; [| exact Hall].
    intros s [Hs _]. unfold length_field, Text.to_hex32.
    unfold INT_MAX in max_fits.
    rewrite to_uint32_small by lia. reflexivity. }
  assert (Halnum : Forall (fun c => is_alnum c = true)
                     (flat_map chars_of strs)).
  { apply Forall_flat_map. eapply Forall_impl; [| exact Hall].
    intros s [_ Hs]. apply all_chars_Forall. exact Hs. }
  assert (Hchars : map char_field (flat_map chars_of strs)
                   = map (fun v => Text.setw_fill 2 "0"%char
                                     (Text.digits 16 v))
                       (map char_to_int (flat_map chars_of strs))).
  { rewrite map_map. apply map_ext_Forall.
    eapply Forall_impl; [| exact Halnum].
    intros c Hc. destruct (alnum_code c Hc) as [_ Hk].
    unfold char_field, Text.to_hex32.
    rewrite to_uint32_small by lia. reflexivity. }
  split; [reflexivity |]. split; [reflexivity |]. split; [reflexivity |].
  assert (Hnn1 : Forall (fun v => 0 <= v)
                   (map (fun s => Z.of_nat (String.length s)) strs)).
  { apply Forall_map. apply Forall_forall. intros s _. lia. }
  assert (Hnn2 : Forall (fun v => 0 <= v)
                   (map char_to_int (flat_map chars_of strs))).
  { apply Forall_map. eapply Forall_impl; [| exact Halnum].
    intros c Hc. destruct (alnum_code c Hc) as [_ Hk]. lia. }
  pose proof (parse_hex_file_fields 8 _ Hnn1) as Hp1.
  pose proof (parse_hex_file_fields 2 _ Hnn2) as Hp2.
  rewrite <- Hlens in Hp1. rewrite <- Hchars in Hp2.
  assert (Hl1 : Text.lines_from (lines_text (map length_field strs))
                  EmptyString = Some (map length_field strs)).
  { unfold parse_hex_file in Hp1.
    destruct (Text.lines_from (lines_text (map length_field strs))
                EmptyString) as [ls |] eqn:E; [| discriminate].
    rewrite lines_from_lines_text in E; [congruence |].
    rewrite Hlens. apply Forall_map. eapply Forall_impl; [| exact Hnn1].
    intros v Hv. eapply parse_hex_no_newline.
    apply parse_hex_setw_fill. exact Hv. }
  assert (Hl2 : Text.lines_from
                  (lines_text (map char_field (flat_map chars_of strs)))
                  EmptyString
                = Some (map char_field (flat_map chars_of strs))).
  { apply lines_from_lines_text.
    rewrite Hchars. apply Forall_map. eapply Forall_impl; [| exact Hnn2].
    intros v Hv. eapply parse_hex_no_newline.
    apply parse_hex_setw_fill. exact Hv. }
  split; [exact Hl1 |].
  split; [apply Forall_map, Forall_forall; intros s _; apply hex32_width |].
  split; [exact Hp1 |]. split; [reflexivity |]. split; [exact Hl2 |].
  split; [| exact Hp2].
  apply Forall_map. eapply Forall_impl; [| exact Halnum].
  intros c Hc. apply char_field_width. exact Hc.
Qed.

End StringTables.

Section IntStringTable.

Context {R : Type} {CR : CRand R}.
Variable values_buffer : Z -> list Z -> list Z.
Variable string_buffers : list string -> list Z * list Z.

Lemma int64_str_ints_loop (modulo : Z) (count : nat) :
  forall i l,
  for_loop_res (body_int64_str_ints modulo) count i l
  = match for_loop (body_int32_table modulo) count i l with
    | Some l' => Done l'
    | None => Undef
    end.
Proof.
  induction count as [| count IH]; intros i l; [reflexivity |].
  cbn [for_loop_res for_loop].
  unfold body_int64_str_ints at 1, body_int32_table at 1.
  destruct (rand (il_rng R l)) as [d r1]. apply IH.
Qed.

Lemma int64_str_strings_loop (min_length max_length : Z) (count : nat) :
  forall i l,
  for_loop_res (body_int64_str_strings min_length max_length) count i
    (sl_rng l, sl_builder l)
  = match for_loop_res (body_str_table min_length max_length false)
            count i l with
    | Done l' => Done (sl_rng l', sl_builder l')
    | Throws => Throws
    | Undef => Undef
    end.
Proof.
  induction count as [| count IH]; intros i l; [reflexivity |].
  cbn [for_loop_res].
  unfold body_int64_str_strings at 1, body_str_table at 1. cbn [fst snd].
  destruct (random_string_between min_length max_length (sl_rng l))
    as [[[len s] r2] | |]; [| reflexivity | reflexivity].
  match goal with
  | |- context [for_loop_res (body_str_table _ _ _) count (i + 1) ?l1] =>
      exact (IH (i + 1) l1)
  end.
Qed.

(** X10. [generate_int64_str_table] draws as [generate_int32_table]
    followed by [generate_str_table] with the recorder off would: its
    integer column is the column [generate_int32_table] returns for the same
    [num_values] and [modulo], its string column the one
    [generate_str_table] returns when it starts from the state the integers
    left [rand()] in, and it throws or is undefined exactly when the latter
    is. *)
Theorem generate_int64_str_table_composition
    (e : env R) (num_values min_length max_length modulo : Z) :
  generate_int64_str_table e num_values min_length max_length modulo
  = match generate_int32_table values_buffer e num_values modulo false with
    | Some ints =>
        match generate_str_table string_buffers
                {| random_device := random_device e;
                   rand_state := io_rng _ ints |}
                num_values min_length max_length false with
        | Done strs =>
            Done ({| at_schema :=
                       [{| af_name := "int"; af_type := arrow_int64;
                           af_nullable := true |};
                        {| af_name := "str"; af_type := arrow_utf8;
                           af_nullable := true |}];
                     at_ints := [column (io_table _ ints)];
                     at_strings := at_strings (so_table strs) |},
                  so_rng strs)
        | Throws => Throws
        | Undef => Undef
        end
    | None => Undef
    end.
Proof.
  unfold generate_int64_str_table, generate_int32_table, generate_str_table.
  rewrite int64_str_ints_loop.
  destruct (for_loop (body_int32_table modulo) (Z.to_nat num_values) 0 _)
    as [l |]; [| reflexivity].
  cbn [io_rng io_table column rand_state].
  match goal with
  | |- context [for_loop_res (body_str_table _ _ _) _ 0 ?l0] =>
      pose proof (int64_str_strings_loop min_length max_length
                    (Z.to_nat num_values) 0 l0) as Hs
  end.
  cbn [sl_rng sl_builder] in Hs. rewrite Hs.
  match goal with
  | |- context [for_loop_res (body_str_table ?a ?b ?c) ?n 0 ?l0] =>
      destruct (for_loop_res (body_str_table a b c) n 0 l0)
  end; reflexivity.
Qed.

End IntStringTable.

(* ================================================================= *)
(** ** More on the variable-bit-width generators *)

Lemma for_loop_ext {S : Type} (b1 b2 : Z -> S -> option S) :
  (forall i s, b1 i s = b2 i s) ->
  forall count i s, for_loop b1 count i s = for_loop b2 count i s.
Proof.
  intro Hext. induction count as [| count IH]; intros i s; [reflexivity |].
  cbn [for_loop]. rewrite Hext. destruct (b2 i s); [apply IH | reflexivity].
Qed.

(** Two runs of a loop whose bodies keep a relation between their states. *)
Lemma for_loop_related {S : Type} (rel : S -> S -> Prop)
    (b1 b2 : Z -> S -> option S) :
  (forall i s1 s2, rel s1 s2 ->
     match b1 i s1, b2 i s2 with
     | Some t1, Some t2 => rel t1 t2
     | None, None => True
     | _, _ => False
     end) ->
  forall count i s1 s2, rel s1 s2 ->
    match for_loop b1 count i s1, for_loop b2 count i s2 with
    | Some t1, Some t2 => rel t1 t2
    | None, None => True
    | _, _ => False
    end.
Proof.
  intro Hbody. induction count as [| count IH]; intros i s1 s2 Hrel;
    [exact Hrel |].
  cbn [for_loop]. specialize (Hbody i s1 s2 Hrel).
  destruct (b1 i s1) as [t1 |], (b2 i s2) as [t2 |]; try contradiction.
  - apply IH. exact Hbody.
  - exact I.
Qed.

Lemma draws_of_length (t : list iteration) :
  List.length (draws_of t) = (List.length t + moduli_drawn t)%nat.
Proof.
  unfold moduli_drawn. induction t as [| it t IH]; [reflexivity |].
  change (it :: t) with ([it] ++ t) at 1.
  rewrite draws_of_app, length_app, IH. unfold draws_of, is_fresh. cbn.
  destruct (it_new_modulo it); cbn; lia.
Qed.

Section GeneratorsMore.

Context {G : Type} {EG : Engine64 G} {R : Type} {CR : CRand R}.

Lemma body64_recorder (L : Z) (i : Z) (l1 l2 : locals G) :
  same_but_streams l1 l2 ->
  match body64 L true i l1, body64 L false i l2 with
  | Some t1, Some t2 => same_but_streams t1 t2
  | None, None => True
  | _, _ => False
  end.
Proof.
  intros (Hr & Hm & Hb & Ht). unfold body64. rewrite Hr, Hm, Hb, Ht.
  destruct (L =? 0); [exact I |].
  destruct (Z.rem i L =? 0).
  - destruct (invoke (rng_state l2)) as [d g1].
    destruct (invoke g1) as [d2 g2].
    destruct (divisor64 (new_modulo64 d) =? 0); [exact I |].
    repeat split.
  - destruct (invoke (rng_state l2)) as [d2 g2].
    destruct (divisor64 (modulo l2) =? 0); [exact I |].
    repeat split.
Qed.

Lemma body32_recorder (L : Z) (i : Z) (l1 l2 : locals R) :
  same_but_streams l1 l2 ->
  match body32 L true i l1, body32 L false i l2 with
  | Some t1, Some t2 => same_but_streams t1 t2
  | None, None => True
  | _, _ => False
  end.
Proof.
  intros (Hr & Hm & Hb & Ht). unfold body32. rewrite Hr, Hm, Hb, Ht.
  destruct (L =? 0); [exact I |].
  destruct (Z.rem i L =? 0).
  - destruct (rand (rng_state l2)) as [d g1].
    destruct (rand g1) as [d2 g2].
    destruct (divisor32 (new_modulo32 d) =? 0); [exact I |].
    repeat split.
  - destruct (rand (rng_state l2)) as [d2 g2].
    destruct (divisor32 (modulo l2) =? 0); [exact I |].
    repeat split.
Qed.

Lemma body64_streams_off (L : Z) (i : Z) (l l1 : locals G) :
  body64 L false i l = Some l1 ->
  dec_check_file l1 = dec_check_file l /\
  hex_check_file l1 = hex_check_file l.
Proof.
  unfold body64. destruct (L =? 0); [discriminate |].
  destruct (Z.rem i L =? 0).
  - destruct (invoke (rng_state l)) as [d g1].
    destruct (invoke g1) as [d2 g2].
    destruct (divisor64 (new_modulo64 d) =? 0); [discriminate |].
    intros [= <-]. auto.
  - destruct (invoke (rng_state l)) as [d2 g2].
    destruct (divisor64 (modulo l) =? 0); [discriminate |].
    intros [= <-]. auto.
Qed.

Lemma body32_streams_off (L : Z) (i : Z) (l l1 : locals R) :
  body32 L false i l = Some l1 ->
  dec_check_file l1 = dec_check_file l /\
  hex_check_file l1 = hex_check_file l.
Proof.
  unfold body32. destruct (L =? 0); [discriminate |].
  destruct (Z.rem i L =? 0).
  - destruct (rand (rng_state l)) as [d g1].
    destruct (rand g1) as [d2 g2].
    destruct (divisor32 (new_modulo32 d) =? 0); [discriminate |].
    intros [= <-]. auto.
  - destruct (rand (rng_state l)) as [d2 g2].
    destruct (divisor32 (modulo l) =? 0); [discriminate |].
    intros [= <-]. auto.
Qed.

Lemma for_loop_streams_off {S : Type}
    (body : Z -> locals S -> option (locals S)) :
  (forall i l l1, body i l = Some l1 ->
     dec_check_file l1 = dec_check_file l /\
     hex_check_file l1 = hex_check_file l) ->
  forall count i l l', for_loop body count i l = Some l' ->
    dec_check_file l' = dec_check_file l /\
    hex_check_file l' = hex_check_file l.
Proof.
  intro Hbody. induction count as [| count IH]; intros i l l' Hloop.
  - injection Hloop as <-. auto.
  - cbn [for_loop] in Hloop.
    destruct (body i l) as [l1 |] eqn:E; [| discriminate].
    destruct (Hbody _ _ _ E) as [Hd Hh].
    destruct (IH _ _ _ Hloop) as [Hd' Hh']. split; congruence.
Qed.

(** The passes with the recorder on and with it off: same table, same
    draws, same state of the random source, and the same passes are
    undefined; with the recorder off the two text streams stay closed. *)
Lemma recorder_passes
    (e : env R) (num_values run_length : Z) :
  option_map (fun r => (returned r, trace (final r), rng_state (final r)))
    (generate_int64_delta_varied_bit_width_table (G := G) e num_values
       run_length true)
  = option_map (fun r => (returned r, trace (final r), rng_state (final r)))
      (generate_int64_delta_varied_bit_width_table e num_values run_length
         false) /\
  option_map (fun r => (returned r, trace (final r), rng_state (final r)))
    (generate_int32_delta_varied_bit_width_table e num_values run_length
       true)
  = option_map (fun r => (returned r, trace (final r), rng_state (final r)))
      (generate_int32_delta_varied_bit_width_table e num_values run_length
         false) /\
  (forall r,
     generate_int64_delta_varied_bit_width_table (G := G) e num_values
       run_length false = Some r ->
     dec_check_file (final r) = None /\ hex_check_file (final r) = None) /\
  (forall r,
     generate_int32_delta_varied_bit_width_table e num_values run_length
       false = Some r ->
     dec_check_file (final r) = None /\ hex_check_file (final r) = None).
Proof.
  split; [| split; [| split]].
  - unfold generate_int64_delta_varied_bit_width_table.
    pose proof (for_loop_related same_but_streams
                  (body64 run_length true) (body64 run_length false)
                  (body64_recorder run_length) (Z.to_nat num_values) 0
                  (init64 e true) (init64 e false)
                  ltac:(repeat split)) as H.
    destruct (for_loop (body64 run_length true) _ 0 _) as [t1 |],
      (for_loop (body64 run_length false) _ 0 _) as [t2 |];
      try contradiction; [| reflexivity].
    destruct H as (Hr & _ & Hb & Ht). cbn. rewrite Hr, Hb, Ht. reflexivity.
  - unfold generate_int32_delta_varied_bit_width_table.
    pose proof (for_loop_related same_but_streams
                  (body32 run_length true) (body32 run_length false)
                  (body32_recorder run_length) (Z.to_nat num_values) 0
                  (init32 e true) (init32 e false)
                  ltac:(repeat split)) as H.
    destruct (for_loop (body32 run_length true) _ 0 _) as [t1 |],
      (for_loop (body32 run_length false) _ 0 _) as [t2 |];
      try contradiction; [| reflexivity].
    destruct H as (Hr & _ & Hb & Ht). cbn. rewrite Hr, Hb, Ht. reflexivity.
  - intros r. unfold generate_int64_delta_varied_bit_width_table.
    destruct (for_loop (body64 run_length false) _ 0 _) as [l |] eqn:E;
      [| discriminate].
    intros [= <-]. cbn [final].
    apply (for_loop_streams_off _ (body64_streams_off run_length)) in E.
    exact E.
  - intros r. unfold generate_int32_delta_varied_bit_width_table.
    destruct (for_loop (body32 run_length false) _ 0 _) as [l |] eqn:E;
      [| discriminate].
    intros [= <-]. cbn [final].
    apply (for_loop_streams_off _ (body32_streams_off run_length)) in E.
    exact E.
Qed.

Lemma with_check_file_run {S : Type}
    (values_buffer : Z -> list Z -> list Z) (bits : Z)
    (run_on run_off : option (outcome S)) :
  option_map (fun r => (returned r, trace (final r), rng_state (final r)))
    run_on
  = option_map (fun r => (returned r, trace (final r), rng_state (final r)))
      run_off ->
  (forall off, run_off = Some off ->
     let bytes := values_buffer bits (column (returned off)) in
     with_check_file values_buffer bits false run_off = Some (off, None) /\
     (Z.of_nat (List.length bytes) <= INT_MAX ->
      exists on,
        with_check_file values_buffer bits true run_on
        = Some (on, Some bytes) /\
        returned on = returned off /\
        trace (final on) = trace (final off) /\
        rng_state (final on) = rng_state (final off)) /\
     (INT_MAX < Z.of_nat (List.length bytes) ->
      with_check_file values_buffer bits true run_on = None)) /\
  (run_off = None ->
   with_check_file values_buffer bits true run_on = None /\
   with_check_file values_buffer bits false run_off = None).
Proof.
  intro Hsame. split.
  - intros off ->. destruct run_on as [on |]; [| discriminate].
    cbn [option_map] in Hsame. injection Hsame as Hr Ht Hg.
    cbv zeta. split; [reflexivity |].
    unfold with_check_file. rewrite Hr, dump_buffer_spec.
    split.
    + intro Hsize.
      destruct (Z.leb_spec
                  (Z.of_nat
                     (List.length
                        (values_buffer bits (column (returned off)))))
                  INT_MAX); [| lia].
      exists on. auto.
    + intro Hsize.
      destruct (Z.leb_spec
                  (Z.of_nat
                     (List.length
                        (values_buffer bits (column (returned off)))))
                  INT_MAX); [lia | reflexivity].
  - intros ->. destruct run_on; [discriminate |]. split; reflexivity.
Qed.

(** X11. Whether the recorder is on does not change what the
    variable-bit-width generators generate, as long as the values buffer of
    the column has at most [INT_MAX] bytes: the function, with the dump that
    ends it, then returns the same table with [write_to_file] true as with
    it false, after the same draws and leaving its random source in the same
    state, and [check_file] holds the bytes of the buffer.  With a larger
    buffer the function still returns with the recorder off and is undefined
    with it on (the [int] counter of the dump loop overflows).  Where it is
    undefined with the recorder off, it is with it on.  With the recorder
    off the two text streams are never opened and nothing is dumped. *)
Theorem recorder_does_not_change_the_column
    (values_buffer : Z -> list Z -> list Z)
    (e : env R) (num_values run_length : Z) :
  let run64 :=
    generate_int64_delta_varied_bit_width_table (G := G) e num_values
      run_length in
  let run32 :=
    generate_int32_delta_varied_bit_width_table e num_values run_length in
  (forall off, run64 false = Some off ->
     let bytes := values_buffer 64 (column (returned off)) in
     dec_check_file (final off) = None /\ hex_check_file (final off) = None /\
     with_check_file values_buffer 64 false (run64 false)
     = Some (off, None) /\
     (Z.of_nat (List.length bytes) <= INT_MAX ->
      exists on,
        with_check_file values_buffer 64 true (run64 true)
        = Some (on, Some bytes) /\
        returned on = returned off /\
        trace (final on) = trace (final off) /\
        rng_state (final on) = rng_state (final off)) /\
     (INT_MAX < Z.of_nat (List.length bytes) ->
      with_check_file values_buffer 64 true (run64 true) = None)) /\
  (run64 false = None ->
   with_check_file values_buffer 64 true (run64 true) = None /\
   with_check_file values_buffer 64 false (run64 false) = None) /\
  (forall off, run32 false = Some off ->
     let bytes := values_buffer 32 (column (returned off)) in
     dec_check_file (final off) = None /\ hex_check_file (final off) = None /\
     with_check_file values_buffer 32 false (run32 false)
     = Some (off, None) /\
     (Z.of_nat (List.length bytes) <= INT_MAX ->
      exists on,
        with_check_file values_buffer 32 true (run32 true)
        = Some (on, Some bytes) /\
        returned on = returned off /\
        trace (final on) = trace (final off) /\
        rng_state (final on) = rng_state (final off)) /\
     (INT_MAX < Z.of_nat (List.length bytes) ->
      with_check_file values_buffer 32 true (run32 true) = None)) /\
  (run32 false = None ->
   with_check_file values_buffer 32 true (run32 true) = None /\
   with_check_file values_buffer 32 false (run32 false) = None).
Proof.
  intros run64 run32.
  destruct (recorder_passes e num_values run_length)
    as (H64 & H32 & Hoff64 & Hoff32).
  fold (run64 true) (run64 false) in H64.
  fold (run32 true) (run32 false) in H32.
  fold (run64 false) in Hoff64. fold (run32 false) in Hoff32.
  destruct (with_check_file_run values_buffer 64 _ _ H64) as [Hs64 Hn64].
  destruct (with_check_file_run values_buffer 32 _ _ H32) as [Hs32 Hn32].
  split; [| split; [exact Hn64 | split; [| exact Hn32]]].
  - intros off Hoff bytes.
    destruct (Hoff64 off Hoff) as [Hd Hh].
    destruct (Hs64 off Hoff) as (H1 & H2 & H3).
    split; [exact Hd |]. split; [exact Hh |]. split; [exact H1 |].
    split; [exact H2 | exact H3].
  - intros off Hoff bytes.
    destruct (Hoff32 off Hoff) as [Hd Hh].
    destruct (Hs32 off Hoff) as (H1 & H2 & H3).
    split; [exact Hd |]. split; [exact Hh |]. split; [exact H1 |].
    split; [exact H2 | exact H3].
Qed.

(** X12. A negative [run_length] behaves as its absolute value: [i %
    run_length] is zero for the same [i], so both generators return for
    [- run_length] exactly what they return for [run_length]. *)
Theorem negative_run_length
    (e : env R) (num_values run_length : Z) (write_to_file : bool) :
  generate_int64_delta_varied_bit_width_table (G := G) e num_values
    (- run_length) write_to_file
  = generate_int64_delta_varied_bit_width_table e num_values run_length
      write_to_file /\
  generate_int32_delta_varied_bit_width_table e num_values (- run_length)
    write_to_file
  = generate_int32_delta_varied_bit_width_table e num_values run_length
      write_to_file.
Proof.
  assert (Hz : (- run_length =? 0) = (run_length =? 0)).
  { destruct (Z.eqb_spec (- run_length) 0), (Z.eqb_spec run_length 0);
      try reflexivity; lia. }
  assert (Hrem : forall i, run_length <> 0 ->
                   Z.rem i (- run_length) = Z.rem i run_length)
    by (intros i Hnz; apply Z.rem_opp_r; exact Hnz).
  split.
  - unfold generate_int64_delta_varied_bit_width_table.
    rewrite (for_loop_ext (body64 (- run_length) write_to_file)
               (body64 run_length write_to_file)); [reflexivity |].
    intros i l. unfold body64. rewrite Hz.
    destruct (Z.eqb_spec run_length 0) as [| Hnz]; [reflexivity |].
    rewrite (Hrem i Hnz). reflexivity.
  - unfold generate_int32_delta_varied_bit_width_table.
    rewrite (for_loop_ext (body32 (- run_length) write_to_file)
               (body32 run_length write_to_file)); [reflexivity |].
    intros i l. unfold body32. rewrite Hz.
    destruct (Z.eqb_spec run_length 0) as [| Hnz]; [reflexivity |].
    rewrite (Hrem i Hnz). reflexivity.
Qed.

(** X13. A run of a variable-bit-width generator over [num_values >= 0]
    values with [run_length > 0] makes exactly
    [num_values + ceil(num_values / run_length)] draws: one for every value
    and one for every run.  They are the first so many results of its random
    source (the freshly seeded engine; for the 32-bit generator the
    process-wide [rand()], which is left advanced by that many calls), used
    in the order they were drawn. *)
Theorem draws_of_a_run
    (e : env R) (num_values run_length : Z) (write_to_file : bool) :
  0 <= num_values -> 0 < run_length ->
  (exists r,
     generate_int64_delta_varied_bit_width_table e num_values run_length
       write_to_file = Some r /\
     draws invoke
       (Z.to_nat (num_values + (num_values + run_length - 1) / run_length))
       (seed_engine (random_device e))
     = (map d_value (draws_of (trace (final r))), rng_state (final r))) /\
  (exists r,
     generate_int32_delta_varied_bit_width_table e num_values run_length
       write_to_file = Some r /\
     draws rand
       (Z.to_nat (num_values + (num_values + run_length - 1) / run_length))
       (rand_state e)
     = (map d_value (draws_of (trace (final r))), rng_state (final r))).
Proof.
  intros Hn HL.
  assert (Hceil : 0 <= (num_values + run_length - 1) / run_length)
    by (apply Z.div_pos; lia).
  assert (Hsmall : (0 + run_length - 1) / run_length = 0)
    by (apply Z.div_small; lia).
  split.
  - destruct (generate_int64_run e num_values run_length write_to_file
                ltac:(lia)) as (r & Hgen & Hrun & Hlen & _).
    exists r. split; [exact Hgen |].
    unfold generate_int64_delta_varied_bit_width_table in Hgen.
    destruct (for_loop (body64 run_length write_to_file) _ 0 _)
      as [l |] eqn:E; [| discriminate].
    injection Hgen as <-. cbn [final] in *.
    destruct (for_loop_draws invoke _ (body64_draws run_length write_to_file)
                _ _ _ _ E) as (t & Ht & Hd).
    cbn [init64 trace rng_state app] in Ht, Hd. subst t.
    rewrite <- Hd. f_equal. rewrite draws_of_length.
    pose proof (moduli_drawn_passes run_length _ _ _ _ _ HL _ _ _ Hrun
                  ltac:(lia)) as Hcount.
    rewrite Hlen, Z2Nat.id, Hsmall in Hcount by lia.
    replace (0 + num_values + run_length - 1)
      with (num_values + run_length - 1) in Hcount by lia.
    lia.
  - destruct (generate_int32_run e num_values run_length write_to_file
                ltac:(lia)) as (r & Hgen & Hrun & Hlen & _).
    exists r. split; [exact Hgen |].
    unfold generate_int32_delta_varied_bit_width_table in Hgen.
    destruct (for_loop (body32 run_length write_to_file) _ 0 _)
      as [l |] eqn:E; [| discriminate].
    injection Hgen as <-. cbn [final] in *.
    destruct (for_loop_draws rand _ (body32_draws run_length write_to_file)
                _ _ _ _ E) as (t & Ht & Hd).
    cbn [init32 trace rng_state app] in Ht, Hd. subst t.
    rewrite <- Hd. f_equal. rewrite draws_of_length.
    pose proof (moduli_drawn_passes run_length _ _ _ _ _ HL _ _ _ Hrun
                  ltac:(lia)) as Hcount.
    rewrite Hlen, Z2Nat.id, Hsmall in Hcount by lia.
    replace (0 + num_values + run_length - 1)
      with (num_values + run_length - 1) in Hcount by lia.
    lia.
Qed.

End GeneratorsMore.

(* ================================================================= *)
(** ** [atoi] and the arguments of [main] *)

Lemma digit_is_no_space_or_sign (c : ascii) (d : Z) :
  Text.digit_value c = Some d ->
  is_space c = false /\ Ascii.eqb c "-"%char = false /\
  Ascii.eqb c "+"%char = false.
Proof.
  unfold Text.digit_value, is_space. intro H.
  destruct (Z.leb_spec 48 (Z.of_nat (nat_of_ascii c))) as [H1 |];
    [| discriminate].
  destruct (Z.leb_spec (Z.of_nat (nat_of_ascii c)) 57) as [H2 |];
    [| discriminate].
  split; [| split].
  - destruct (Nat.eqb_spec (nat_of_ascii c) 32); [lia |].
    destruct (Nat.leb_spec 9 (nat_of_ascii c)); [| reflexivity].
    destruct (Nat.leb_spec (nat_of_ascii c) 13); [lia | reflexivity].
  - destruct (Ascii.eqb_spec c "-"%char) as [-> |]; [| reflexivity].
    cbn in H1. lia.
  - destruct (Ascii.eqb_spec c "+"%char) as [-> |]; [| reflexivity].
    cbn in H1. lia.
Qed.

Lemma leading_digits_app (s : string) :
  forall acc v, Text.parse_digits s acc = Some v ->
  forall rest, no_digit_next rest -> leading_digits (s ++ rest) acc = v.
Proof.
  induction s as [| c s IH]; intros acc v Hparse rest Hrest.
  - injection Hparse as <-. cbn [String.append].
    destruct rest as [| c r]; [reflexivity |].
    cbn [leading_digits]. cbn in Hrest. rewrite Hrest. reflexivity.
  - cbn [Text.parse_digits] in Hparse.
    cbn [String.append leading_digits].
    destruct (Text.digit_value c) as [d |]; [| discriminate].
    apply IH; assumption.
Qed.

Lemma skip_spaces_app (ws s : string) :
  all_chars is_space ws = true -> skip_spaces (ws ++ s) = skip_spaces s.
Proof.
  induction ws as [| c ws IH]; intro H; [reflexivity |].
  cbn [all_chars] in H. apply andb_true_iff in H. destruct H as [Hc Hws].
  cbn [String.append skip_spaces]. rewrite Hc. apply IH. exact Hws.
Qed.

Lemma atoi_after_spaces (ws s : string) :
  all_chars is_space ws = true -> atoi (ws ++ s) = atoi s.
Proof.
  intro Hws. unfold atoi. rewrite (skip_spaces_app _ _ Hws). reflexivity.
Qed.

Lemma atoi_of_decimal (rest : string) (n : Z) :
  INT_MIN <= n <= INT_MAX ->
  no_digit_next rest ->
  atoi (Text.to_dec n ++ rest) = Some n.
Proof.
  intros Hn Hrest. unfold atoi.
  assert (Hfits : (INT_MIN <=? n) && (n <=? INT_MAX) = true).
  { apply andb_true_iff. split; apply Z.leb_le; lia. }
  unfold Text.to_dec. destruct (Z.ltb_spec n 0) as [Hneg | Hpos].
  - cbn [String.append skip_spaces].
    change (is_space "-"%char) with false. cbv iota.
    rewrite Ascii.eqb_refl.
    rewrite (leading_digits_app _ 0 (- n)
               (parse_digits_digits (- n) ltac:(lia)) rest Hrest).
    rewrite Z.opp_involutive, Hfits. reflexivity.
  - pose proof (parse_digits_digits n Hpos) as Hparse.
    pose proof (digits_nonempty 10 n) as Hne.
    destruct (Text.digits 10 n) as [| c s] eqn:E; [contradiction |].
    assert (Hc : exists d, Text.digit_value c = Some d).
    { cbn [Text.parse_digits] in Hparse.
      destruct (Text.digit_value c) as [d |]; [eauto | discriminate]. }
    destruct Hc as (d & Hd).
    destruct (digit_is_no_space_or_sign c d Hd) as (Hs & Hminus & Hplus).
    cbn [String.append skip_spaces]. rewrite Hs, Hminus, Hplus.
    change (String c (s ++ rest)) with (String c s ++ rest)%string.
    rewrite (leading_digits_app _ 0 n Hparse rest Hrest), Hfits.
    reflexivity.
Qed.

(** X14. [atoi] reads back what [operator<<] prints: for every [int] [n],
    white space, then the decimal text of [n], then nothing or anything that
    does not begin with a digit, is read as [n]. *)
Theorem atoi_reads_decimal (ws rest : string) (n : Z) :
  all_chars is_space ws = true ->
  INT_MIN <= n <= INT_MAX ->
  no_digit_next rest ->
  atoi (ws ++ Text.to_dec n ++ rest) = Some n.
Proof.
  intros Hws Hn Hrest.
  rewrite (atoi_after_spaces _ _ Hws).
  apply atoi_of_decimal; assumption.
Qed.

Section DriverMore.

Context {G : Type} {EG : Engine64 G} {R : Type} {CR : CRand R}.
Variable write_parquet_file : table -> string -> Z -> bool -> bool -> bool.

(** X15. [prelim] ignores its [iterations] and [modulo] arguments: when they
    are there and are [int]s, what the program prints, generates, writes
    and returns is what it does with [num_values] alone. *)
Theorem main_ignores_iterations_and_modulo
    (e : env R) (program num_values : string) (more : list string) :
  (forall a, nth_error more 0 = Some a -> atoi a <> None) ->
  (forall a, nth_error more 1 = Some a -> atoi a <> None) ->
  main write_parquet_file e (program :: num_values :: more)
  = main write_parquet_file e [program; num_values].
Proof.
  intros H2 H3. unfold main.
  cbn [List.length nth].
  destruct (Z.ltb_spec (Z.of_nat (S (S (List.length more)))) 2); [lia |].
  change (Z.of_nat 2 <? 2) with false. cbv iota.
  change (3 <=? Z.of_nat 2) with false.
  change (4 <=? Z.of_nat 2) with false. cbv iota.
  destruct (atoi num_values) as [n |]; [| reflexivity].
  assert (E2 : exists x,
             (if 3 <=? Z.of_nat (S (S (List.length more)))
              then atoi (nth 0 more EmptyString) else Some 1) = Some x).
  { destruct (Z.leb_spec 3 (Z.of_nat (S (S (List.length more)))));
      [| eauto].
    destruct more as [| a more']; [simpl in *; lia |].
    cbn [nth]. specialize (H2 a eq_refl).
    destruct (atoi a); [eauto | contradiction]. }
  assert (E3 : exists x,
             (if 4 <=? Z.of_nat (S (S (List.length more)))
              then atoi (nth 1 more EmptyString) else Some 0) = Some x).
  { destruct (Z.leb_spec 4 (Z.of_nat (S (S (List.length more)))));
      [| eauto].
    destruct more as [| a [| b more']]; [simpl in *; lia .. |].
    cbn [nth]. specialize (H3 b eq_refl).
    destruct (atoi b); [eauto | contradiction]. }
  destruct E2 as (x2 & ->). destruct E3 as (x3 & ->). reflexivity.
Qed.

(** X16. Called with the decimal text of a number [n] that is an [int] and
    not negative, [prelim] prints [n] back in its first line, generates a
    table of exactly [n] values with runs of 256 and the recorder off (no
    sidecar stream is opened), and hands it to [write_parquet_file] with the
    chunk size [n], no compression and no dictionary; it returns 0 when the
    file is written and ends by an uncaught exception otherwise. *)
Theorem main_writes_num_values (e : env R) (program : string) (n : Z) :
  0 <= n <= INT_MAX ->
  exists r,
    generate_int64_delta_varied_bit_width_table e n 256 false = Some r /\
    Z.of_nat (List.length (column (returned r))) = n /\
    dec_check_file (final r) = None /\
    hex_check_file (final r) = None /\
    main write_parquet_file e [program; Text.to_dec n]
    = {| cout :=
           ("Size of Arrow table: " ++ Text.to_dec n ++ " values."
            ++ Text.endl ++ "Finished Arrow table generation." ++ Text.endl
            ++ "Starting Parquet file writing." ++ Text.endl)%string;
         cerr := EmptyString;
         ended :=
           if write_parquet_file (returned r)
                "../../gen-input/ref_delta_varied_int64.parquet" n false
                false
           then Returned 0 else Terminated |}.
Proof.
  intro Hn.
  destruct (generate_int64_run e n 256 false ltac:(lia))
    as (r & Hgen & _ & Hlen & Hcol & _ & Hdec & Hhex).
  exists r. split; [exact Hgen |].
  split; [rewrite Hcol, length_map, Hlen; lia |].
  rewrite record_all_off in Hdec, Hhex.
  split; [exact Hdec |]. split; [exact Hhex |].
  unfold main. cbn [List.length nth].
  change (Z.of_nat 2 <? 2) with false. cbv iota.
  change (3 <=? Z.of_nat 2) with false.
  change (4 <=? Z.of_nat 2) with false. cbv iota.
  pose proof (atoi_of_decimal EmptyString n
                ltac:(unfold INT_MIN, INT_MAX in *; lia) I) as Hatoi.
  rewrite string_app_nil_r in Hatoi.
  rewrite Hatoi, Hgen.
  rewrite !string_app_assoc. reflexivity.
Qed.

End DriverMore.

(* ================================================================= *)
(** ** [prim64.cpp] *)

Lemma register_snoc (writes : list (Z * Z)) (o v k : Z) :
  register (writes ++ [(o, v)]) k
  = if o =? k then Some v else register writes k.
Proof.
  induction writes as [| [o' v'] ws IH].
  - cbn. destruct (o =? k); reflexivity.
  - cbn [app register]. rewrite IH.
    destruct (o =? k); [reflexivity |].
    destruct (register ws k); reflexivity.
Qed.

Lemma dau_halves (full : Z) :
  0 <= full < 2 ^ 64 ->
  0 <= dau_lo full < 2 ^ 32 /\ 0 <= dau_hi full < 2 ^ 32 /\
  dau_hi full * 2 ^ 32 + dau_lo full = full.
Proof.
  intro Hf. unfold dau_lo, dau_hi. rewrite (to_uint64_small full Hf).
  unfold to_uint32.
  pose proof (Z.div_mod full (2 ^ 32) ltac:(lia)) as Hdm.
  pose proof (Z.mod_pos_bound full (2 ^ 32) ltac:(lia)) as Hlo.
  assert (Hq : 0 <= full / 2 ^ 32 < 2 ^ 32).
  { split; [apply Z.div_pos; lia |].
    apply Z.div_lt_upper_bound; [lia |].
    change (2 ^ 32 * 2 ^ 32) with (2 ^ 64). lia. }
  rewrite (Z.mod_small (full / 2 ^ 32)) by exact Hq.
  split; [exact Hlo |]. split; [exact Hq | lia].
Qed.

(** X17. [setPtoaArguments] writes the registers 10 to 14 and no other:
    register 10 holds [num_val]; registers 11 and 12 hold the low and the
    high half of the device address, registers 13 and 14 those of
    [max_size], each half a 32-bit value, and [high * 2^32 + low] gives the
    64-bit value back. *)
Theorem setPtoaArguments_registers
    (platform : list (Z * Z)) (num_val max_size device_parquet_address : Z) :
  0 <= num_val < 2 ^ 32 ->
  0 <= max_size < 2 ^ 64 ->
  0 <= device_parquet_address < 2 ^ 64 ->
  let after :=
    setPtoaArguments platform num_val max_size device_parquet_address in
  register after 10 = Some num_val /\
  (exists lo hi,
     register after 11 = Some lo /\ register after 12 = Some hi /\
     0 <= lo < 2 ^ 32 /\ 0 <= hi < 2 ^ 32 /\
     hi * 2 ^ 32 + lo = device_parquet_address) /\
  (exists lo hi,
     register after 13 = Some lo /\ register after 14 = Some hi /\
     0 <= lo < 2 ^ 32 /\ 0 <= hi < 2 ^ 32 /\
     hi * 2 ^ 32 + lo = max_size) /\
  (forall k, k < 10 \/ 14 < k -> register after k = register platform k) /\
  List.length after = (List.length platform + 5)%nat.
Proof.
  intros Hn Hs Ha after. subst after.
  destruct (dau_halves _ Ha) as (Hal & Hah & Hae).
  destruct (dau_halves _ Hs) as (Hsl & Hsh & Hse).
  unfold setPtoaArguments, WriteMMIO, REG_BASE.
  rewrite (to_uint32_small num_val Hn),
    (to_uint32_small _ Hal), (to_uint32_small _ Hah),
    (to_uint32_small _ Hsl), (to_uint32_small _ Hsh).
  split; [| split; [| split; [| split]]].
  - rewrite !register_snoc. reflexivity.
  - exists (dau_lo device_parquet_address), (dau_hi device_parquet_address).
    rewrite !register_snoc. cbn. auto.
  - exists (dau_lo max_size), (dau_hi max_size).
    rewrite !register_snoc. cbn. auto.
  - intros k Hk. rewrite !register_snoc.
    repeat match goal with
           | |- context [?a =? k] =>
               destruct (Z.eqb_spec a k); [lia |]
           end.
    reflexivity.
  - rewrite !length_app. cbn. lia.
Qed.

Lemma checksum_loop_overrun (file_data : list Z) (count : nat) :
  forall i checksum,
  (Z.to_nat i <= List.length file_data)%nat ->
  (List.length file_data < Z.to_nat i + count)%nat -> 0 <= i ->
  for_loop (checksum_step file_data) count i checksum = None.
Proof.
  induction count as [| count IH]; intros i checksum Hin Hlen Hi; [lia |].
  cbn [for_loop]. unfold checksum_step at 1.
  destruct (nth_error file_data (Z.to_nat i)) as [b |] eqn:E;
    [| reflexivity].
  assert ((Z.to_nat i < List.length file_data)%nat)
    by (apply nth_error_Some; congruence).
  apply IH; lia.
Qed.

Lemma checksum_loop_inside (file_data : list Z) (count : nat) :
  forall i checksum,
  (Z.to_nat i + count <= List.length file_data)%nat -> 0 <= i ->
  for_loop (checksum_step file_data) count i checksum
  = Some (fold_left (fun sum b => to_uint32 (sum + b))
            (firstn count (skipn (Z.to_nat i) file_data)) checksum).
Proof.
  induction count as [| count IH]; intros i checksum Hlen Hi; [reflexivity |].
  cbn [for_loop]. unfold checksum_step at 1.
  destruct (nth_error file_data (Z.to_nat i)) as [b |] eqn:E.
  - rewrite IH by lia.
    replace (Z.to_nat (i + 1)) with (S (Z.to_nat i)) by lia.
    rewrite (skipn_nth_error _ _ _ E). reflexivity.
  - apply nth_error_None in E. lia.
Qed.

(** X18. The checksum loop of [prim64] reads past its buffer: for every
    Parquet file of 4 bytes or more, [file_data] holds the [file_size - 4]
    bytes after the magic number and the loop runs over [file_size]
    indices, so it sums the bytes of the buffer (modulo [2^32]) and then
    reads [file_data[file_size - 4]], which is outside the buffer. *)
Theorem parquet_checksum_reads_past_the_buffer (file : list Z) :
  (4 <= List.length file)%nat ->
  for_loop (checksum_step (skipn 4 file)) (List.length file - 4) 0 0
  = Some (fold_left (fun sum b => to_uint32 (sum + b)) (skipn 4 file) 0) /\
  nth_error (skipn 4 file) (List.length file - 4) = None /\
  parquet_checksum file = None.
Proof.
  intro Hlen.
  assert (Hdata : List.length (skipn 4 file) = (List.length file - 4)%nat)
    by apply length_skipn.
  split; [| split].
  - rewrite checksum_loop_inside;
      [| change (Z.to_nat 0) with 0%nat; lia | lia].
    change (Z.to_nat 0) with 0%nat. cbn [skipn].
    rewrite <- Hdata, firstn_all. reflexivity.
  - apply nth_error_None. lia.
  - unfold parquet_checksum.
    destruct (Z.ltb_spec (Z.of_nat (List.length file)) 4); [lia |].
    apply checksum_loop_overrun;
      change (Z.to_nat 0) with 0%nat; lia.
Qed.

Lemma differences_bounds (xs ys : list Z) :
  0 <= differences xs ys <= Z.of_nat (List.length xs).
Proof.
  revert ys. induction xs as [| x xs IH]; intros [| y ys]; cbn [differences];
    cbn [List.length]; try lia.
  specialize (IH ys). destruct (x =? y); lia.
Qed.

Lemma differences_none (xs ys : list Z) :
  (List.length xs <= List.length ys)%nat ->
  differences xs ys = 0 <-> xs = firstn (List.length xs) ys.
Proof.
  revert ys. induction xs as [| x xs IH]; intros [| y ys] Hlen;
    cbn [differences List.length firstn] in *; try lia.
  - split; reflexivity.
  - split; reflexivity.
  - pose proof (differences_bounds xs ys) as Hb.
    specialize (IH ys ltac:(lia)).
    destruct (Z.eqb_spec x y) as [-> | Hne]; split; intro H.
    + f_equal. apply IH. lia.
    + injection H as H. apply IH in H. lia.
    + lia.
    + injection H as H _. contradiction.
Qed.

Lemma check_loop (result_array correct_array : list Z) (count : nat) :
  forall i l,
  0 <= i -> 0 <= error_count l <= i ->
  (Z.to_nat i + count <= List.length result_array)%nat ->
  (Z.to_nat i + count <= List.length correct_array)%nat ->
  i + Z.of_nat count <= INT_MAX ->
  for_loop (body_check result_array correct_array) count i l
  = Some
      {| error_count :=
           error_count l
           + differences (firstn count (skipn (Z.to_nat i) result_array))
               (skipn (Z.to_nat i) correct_array);
         check_cout :=
           (check_cout l
            ++ comparison_lines (Z.to_nat (20 - i))
                 (firstn count (skipn (Z.to_nat i) result_array))
                 (skipn (Z.to_nat i) correct_array))%string |}.
Proof.
  induction count as [| count IH]; intros i l Hi He Hr Hc Hmax.
  - cbn [for_loop firstn differences].
    replace (comparison_lines (Z.to_nat (20 - i)) []
               (skipn (Z.to_nat i) correct_array)) with EmptyString
      by (destruct (Z.to_nat (20 - i)); reflexivity).
    rewrite string_app_nil_r, Z.add_0_r. destruct l; reflexivity.
  - cbn [for_loop]. unfold body_check at 1.
    destruct (nth_error result_array (Z.to_nat i)) as [r |] eqn:Er;
      [| apply nth_error_None in Er; lia].
    destruct (nth_error correct_array (Z.to_nat i)) as [c |] eqn:Ec;
      [| apply nth_error_None in Ec; lia].
    cbv zeta.
    assert (Hfit :
      fits_int (if negb (r =? c) then error_count l + 1 else error_count l)
      && fits_int (i + 1) = true).
    { unfold fits_int, INT_MIN, INT_MAX in *.
      destruct (negb (r =? c)); apply andb_true_iff; split;
        apply andb_true_iff; split; apply Z.leb_le; lia. }
    rewrite Hfit.
    rewrite IH; cbn [error_count check_cout];
      [| lia | destruct (negb (r =? c)); lia | lia | lia | lia].
    replace (Z.to_nat (i + 1)) with (S (Z.to_nat i)) by lia.
    rewrite (skipn_nth_error _ _ _ Er), (skipn_nth_error _ _ _ Ec).
    cbn [firstn differences]. f_equal. f_equal.
    + destruct (r =? c); cbn [negb]; lia.
    + destruct (Z.ltb_spec i 20) as [Hlt | Hge].
      * replace (Z.to_nat (20 - i)) with (S (Z.to_nat (20 - (i + 1))))
          by lia.
        cbn [comparison_lines]. rewrite !string_app_assoc. reflexivity.
      * replace (Z.to_nat (20 - i)) with 0%nat by lia.
        replace (Z.to_nat (20 - (i + 1))) with 0%nat by lia.
        cbn [comparison_lines].
        replace (comparison_lines 0
                   (firstn count (skipn (S (Z.to_nat i)) result_array))
                   (skipn (S (Z.to_nat i)) correct_array))
          with EmptyString by reflexivity.
        reflexivity.
Qed.

Lemma check_loop_outside (result_array correct_array : list Z) (count : nat) :
  forall i l,
  0 <= i ->
  (Z.to_nat i <= List.length correct_array)%nat ->
  (List.length correct_array < Z.to_nat i + count)%nat ->
  for_loop (body_check result_array correct_array) count i l = None.
Proof.
  induction count as [| count IH]; intros i l Hi Hin Hc; [lia |].
  cbn [for_loop]. unfold body_check at 1.
  destruct (nth_error result_array (Z.to_nat i)) as [r |]; [| reflexivity].
  destruct (nth_error correct_array (Z.to_nat i)) as [c |] eqn:Ec;
    [| reflexivity].
  assert ((Z.to_nat i < List.length correct_array)%nat)
    by (apply nth_error_Some; congruence).
  cbv zeta.
  destruct (fits_int _ && fits_int _); [| reflexivity].
  apply IH; lia.
Qed.

(** X19. The check of the result of [prim64] when [Equals] answers false:
    with a reference array at least as long as the result (fewer than
    [INT_MAX] values), it prints one comparison line for each of the first
    20 indices and then the verdict; the number of errors is the number of
    indices at which the two arrays differ, plus one when the result has
    not [num_val] values, and the verdict is [Test passed!] exactly when the
    result has [num_val] values that are the first values of the reference
    (values of the reference past the length of the result are not
    looked at).  With a reference array shorter than the result, the loop
    reads outside the reference array. *)
Theorem check_result_counts_differences
    (result_array correct_array : list Z) (num_val : Z) :
  Z.of_nat (List.length result_array) < INT_MAX ->
  let errors :=
    differences result_array correct_array
    + (if Z.of_nat (List.length result_array) =? to_uint32 num_val
       then 0 else 1) in
  let verdict := if errors =? 0 then test_passed else test_failed errors in
  ((List.length result_array <= List.length correct_array)%nat ->
   check_result false result_array correct_array num_val
   = Some (comparison_lines 20 result_array correct_array ++ verdict)%string
   /\ (errors = 0 <->
       result_array = firstn (List.length result_array) correct_array /\
       Z.of_nat (List.length result_array) = to_uint32 num_val)) /\
  ((List.length correct_array < List.length result_array)%nat ->
   check_result false result_array correct_array num_val = None).
Proof.
  intros Hmax errors verdict. split.
  - intro Hlen. split.
    + unfold check_result.
      rewrite check_loop; cbn [error_count check_cout];
        try (change (Z.to_nat 0) with 0%nat); try lia.
      change (Z.to_nat 0) with 0%nat. change (Z.to_nat (20 - 0)) with 20%nat.
      cbn [skipn]. rewrite firstn_all. cbn [append].
      pose proof (differences_bounds result_array correct_array) as Hb.
      assert (Herr :
        (if negb (Z.of_nat (List.length result_array) =? to_uint32 num_val)
         then 0 + differences result_array correct_array + 1
         else 0 + differences result_array correct_array) = errors).
      { subst errors.
        destruct (Z.of_nat (List.length result_array) =? to_uint32 num_val);
          cbn [negb]; lia. }
      rewrite Herr.
      assert (Hfit : fits_int errors = true).
      { subst errors. unfold fits_int, INT_MIN, INT_MAX in *.
        apply andb_true_iff; split; apply Z.leb_le;
          destruct (Z.of_nat (List.length result_array) =? to_uint32 num_val);
          lia. }
      rewrite Hfit. reflexivity.
    + pose proof (differences_bounds result_array correct_array) as Hb.
      pose proof (differences_none result_array correct_array Hlen) as Hn.
      subst errors.
      destruct (Z.eqb_spec (Z.of_nat (List.length result_array))
                  (to_uint32 num_val)) as [He | Hne].
      * rewrite Z.add_0_r. split.
        -- intro H. split; [apply Hn; exact H | exact He].
        -- intros [H _]. apply Hn. exact H.
      * split; [lia |]. intros [_ H]. contradiction.
  - intro Hlen. unfold check_result.
    rewrite check_loop_outside; [reflexivity | lia | |];
      change (Z.to_nat 0) with 0%nat; lia.
Qed.

(* ================================================================= *)
(** ** More theorems at concrete inputs *)

Lemma gen_random_string_alphanumeric_witness :
  0 <= 3 /\
  exists s,
    gen_random_string (CR := iso_c_rand) 3 IsoCRand.initial
    = Done (s, snd (draws rand 3 IsoCRand.initial)) /\
    Z.of_nat (String.length s) = 3 /\
    all_chars is_alnum s = true.
Proof.
  split; [lia |].
  apply (proj2 (gen_random_string_alphanumeric (CR := iso_c_rand) 3
                  IsoCRand.initial)).
  lia.
Defined.

Lemma generate_int32_table_values_witness :
  Z.of_nat
    (List.length
       (plain_values 32
          (map (rand_number 10)
             (fst (draws (rand (CRand := iso_c_rand)) (Z.to_nat 4)
                     (rand_state env_5489))))))
  <= INT_MAX /\
  exists o,
    generate_int32_table (CR := iso_c_rand) plain_values env_5489 4 10 true
    = Some o /\
    List.length (column (io_table _ o)) = 4%nat /\
    io_check_file _ o = Some (column (io_table _ o)).
Proof.
  assert (H : Z.of_nat
                (List.length
                   (plain_values 32
                      (map (rand_number 10)
                         (fst (draws (rand (CRand := iso_c_rand)) (Z.to_nat 4)
                                 (rand_state env_5489))))))
              <= INT_MAX) by (vm_compute; discriminate).
  split; [exact H |].
  destruct (generate_int32_table_values (CR := iso_c_rand) plain_values
              env_5489 4 10 true) as (Hlen & _ & Hdone & _).
  destruct (Hdone (or_intror H)) as (o & Hgen & Hcol & Hfile & _).
  exists o. split; [exact Hgen |].
  split; [rewrite Hcol; exact Hlen |].
  rewrite Hfile, Hcol. reflexivity.
Defined.

Lemma generate_int64_table_values_witness :
  10 <= INT_MAX /\
  Z.of_nat
    (List.length
       (plain_values 64
          (map (gen_number 10)
             (fst (draws (invoke (Engine64 := mt19937_64)) (Z.to_nat 4)
                     (seed_engine (random_device env_5489)))))))
  <= INT_MAX /\
  exists o,
    generate_int64_table (EG := mt19937_64) plain_values env_5489 4 10 true
    = Some o /\
    List.length (column (io_table _ o)) = 4%nat /\
    Forall (fun v => - 2 ^ 63 <= v < 2 ^ 63 /\ (0 < 10 -> 0 <= v < 10))
      (column (io_table _ o)).
Proof.
  assert (H : 10 <= INT_MAX) by (unfold INT_MAX; lia).
  assert (H' : Z.of_nat
                 (List.length
                    (plain_values 64
                       (map (gen_number 10)
                          (fst (draws (invoke (Engine64 := mt19937_64))
                                  (Z.to_nat 4)
                                  (seed_engine (random_device env_5489)))))))
               <= INT_MAX) by (vm_compute; discriminate).
  split; [exact H |]. split; [exact H' |].
  destruct (generate_int64_table_values (EG := mt19937_64) plain_values
              env_5489 4 10 true H) as (Hlen & Hall & _ & Hdone & _).
  destruct (Hdone (or_intror H')) as (o & Hgen & Hcol & _).
  exists o. split; [exact Hgen |]. rewrite Hcol.
  split; [exact Hlen | exact Hall].
Defined.

Lemma hex_sidecar64_round_trip_witness :
  0 < 5 /\
  exists r content,
    generate_int64_delta_varied_bit_width_table (EG := mt19937_64)
      env_5489 10 5 true = Some r /\
    hex_check_file (final r) = Some content /\
    parse_hex_file content = Some (column (returned r)).
Proof.
  split; [lia |].
  apply (hex_sidecar64_round_trip (EG := mt19937_64) env_5489 10 5). lia.
Defined.

Lemma sidecars32_round_trip_witness :
  0 < 5 /\
  exists r dec_content hex_content,
    generate_int32_delta_varied_bit_width_table (CR := iso_c_rand)
      env_5489 10 5 true = Some r /\
    dec_check_file (final r) = Some dec_content /\
    Text.parse_dec_file dec_content = Some (column (returned r)) /\
    hex_check_file (final r) = Some hex_content /\
    parse_hex_file hex_content = Some (column (returned r)).
Proof.
  split; [lia |].
  apply (sidecars32_round_trip (CR := iso_c_rand) env_5489 10 5). lia.
Defined.

Lemma generate_str_table_strings_witness :
  0 <= 2 /\ 2 <= 5 /\ 5 - 2 < INT_MAX /\ 5 <= INT_MAX /\
  4 * 5 <= INT_MAX - 1 /\ (true = false \/ 4 * (4 + 1) <= INT_MAX) /\
  exists o strs,
    generate_str_table (CR := iso_c_rand) plain_strings env_5489 4 2 5 true
    = Done o /\
    at_strings (so_table o) = [strs] /\
    at_ints (so_table o) = [] /\
    List.length strs = Z.to_nat 4 /\
    Forall (string_between 2 5) strs /\
    so_rng o
    = snd (draws rand (Z.to_nat 4 + total_length strs) (rand_state env_5489)).
Proof.
  assert (H1 : 0 <= 2) by lia.
  assert (H2 : 2 <= 5) by lia.
  assert (H3 : 5 - 2 < INT_MAX) by (unfold INT_MAX; lia).
  assert (H4 : 5 <= INT_MAX) by (unfold INT_MAX; lia).
  split; [exact H1 |]. split; [exact H2 |]. split; [exact H3 |].
  split; [exact H4 |].
  assert (H5 : 4 * 5 <= INT_MAX - 1) by (unfold INT_MAX; lia).
  assert (H6 : true = false \/ 4 * (4 + 1) <= INT_MAX)
    by (right; unfold INT_MAX; lia).
  split; [exact H5 |]. split; [exact H6 |].
  exact (generate_str_table_strings (CR := iso_c_rand) plain_strings 2 5
           H1 H2 H3 H4 env_5489 4 true H5 H6).
Defined.

Lemma generate_str_table_hex_files_witness :
  0 <= 2 /\ 2 <= 5 /\ 5 - 2 < INT_MAX /\ 5 <= INT_MAX /\
  exists o strs lengths_text chars_text,
    generate_str_table (CR := iso_c_rand) plain_strings env_5489 4 2 5 true
    = Done o /\
    at_strings (so_table o) = [strs] /\
    so_hex_length_file o = Some lengths_text /\
    parse_hex_file lengths_text
    = Some (map (fun s => Z.of_nat (String.length s)) strs) /\
    so_hex_char_file o = Some chars_text /\
    parse_hex_file chars_text
    = Some (map char_to_int (flat_map chars_of strs)).
Proof.
  assert (H1 : 0 <= 2) by lia.
  assert (H2 : 2 <= 5) by lia.
  assert (H3 : 5 - 2 < INT_MAX) by (unfold INT_MAX; lia).
  assert (H4 : 5 <= INT_MAX) by (unfold INT_MAX; lia).
  split; [exact H1 |]. split; [exact H2 |]. split; [exact H3 |].
  split; [exact H4 |].
  destruct (generate_str_table_hex_files (CR := iso_c_rand) plain_strings 2 5
              H1 H2 H3 H4 env_5489 4)
    as (o & strs & lt & ct & Hgen & Hs & Hl & _ & _ & Hpl & Hc & _ & _ & Hpc).
  exists o, strs, lt, ct. auto 10.
Defined.

Lemma recorder_does_not_change_the_column_witness :
  exists off on,
    generate_int64_delta_varied_bit_width_table (EG := mt19937_64)
      env_5489 10 5 false = Some off /\
    Z.of_nat (List.length (plain_values 64 (column (returned off))))
    <= INT_MAX /\
    with_check_file plain_values 64 true
      (generate_int64_delta_varied_bit_width_table (EG := mt19937_64)
         env_5489 10 5 true)
    = Some (on, Some (column (returned off))) /\
    returned on = returned off.
Proof.
  destruct (generate_int64_run (EG := mt19937_64) env_5489 10 5 false
              ltac:(lia)) as (off & Hgen & _ & Hlen & Hcol & _).
  assert (Hsize : Z.of_nat
                    (List.length (plain_values 64 (column (returned off))))
                  <= INT_MAX).
  { unfold plain_values, INT_MAX. rewrite Hcol, length_map, Hlen.
    simpl. lia. }
  destruct (recorder_does_not_change_the_column (EG := mt19937_64)
              (CR := iso_c_rand) plain_values env_5489 10 5)
    as (H64 & _).
  destruct (H64 off Hgen) as (_ & _ & _ & Hon & _).
  destruct (Hon Hsize) as (on & Hfull & Hret & _).
  exists off, on. auto.
Defined.

Lemma draws_of_a_run_witness :
  0 <= 10 /\ 0 < 3 /\
  (exists r,
     generate_int64_delta_varied_bit_width_table (EG := mt19937_64)
       env_5489 10 3 false = Some r /\
     draws invoke 14 (seed_engine 5489)
     = (map d_value (draws_of (trace (final r))), rng_state (final r))) /\
  (exists r,
     generate_int32_delta_varied_bit_width_table (CR := iso_c_rand)
       env_5489 10 3 false = Some r /\
     draws rand 14 IsoCRand.initial
     = (map d_value (draws_of (trace (final r))), rng_state (final r))).
Proof.
  split; [lia |]. split; [lia |].
  exact (draws_of_a_run (EG := mt19937_64) (CR := iso_c_rand) env_5489 10 3
           false ltac:(lia) ltac:(lia)).
Defined.

Lemma atoi_reads_decimal_witness :
  all_chars is_space " " = true /\
  INT_MIN <= -42 <= INT_MAX /\
  no_digit_next "abc" /\
  atoi " -42abc" = Some (-42).
Proof.
  assert (H1 : all_chars is_space " " = true) by reflexivity.
  assert (H2 : INT_MIN <= -42 <= INT_MAX) by (unfold INT_MIN, INT_MAX; lia).
  assert (H3 : no_digit_next "abc") by reflexivity.
  split; [exact H1 |]. split; [exact H2 |]. split; [exact H3 |].
  exact (atoi_reads_decimal " " "abc" (-42) H1 H2 H3).
Defined.

Lemma main_ignores_iterations_and_modulo_witness :
  (forall a, nth_error ["3"%string; "7"%string] 0 = Some a ->
             atoi a <> None) /\
  (forall a, nth_error ["3"%string; "7"%string] 1 = Some a ->
             atoi a <> None) /\
  main (EG := mt19937_64) always_written env_5489
    ["prelim"%string; "10"%string; "3"%string; "7"%string]
  = main (EG := mt19937_64) always_written env_5489
      ["prelim"%string; "10"%string].
Proof.
  assert (H1 : forall a, nth_error ["3"%string; "7"%string] 0 = Some a ->
                         atoi a <> None).
  { intros a H. injection H as <-. vm_compute. discriminate. }
  assert (H2 : forall a, nth_error ["3"%string; "7"%string] 1 = Some a ->
                         atoi a <> None).
  { intros a H. injection H as <-. vm_compute. discriminate. }
  split; [exact H1 |]. split; [exact H2 |].
  exact (main_ignores_iterations_and_modulo (EG := mt19937_64) always_written env_5489 "prelim" "10"
           ["3"%string; "7"%string] H1 H2).
Defined.

Lemma main_writes_num_values_witness :
  0 <= 3 <= INT_MAX /\
  exists r,
    generate_int64_delta_varied_bit_width_table (EG := mt19937_64)
      env_5489 3 256 false = Some r /\
    Z.of_nat (List.length (column (returned r))) = 3 /\
    ended (main (EG := mt19937_64) always_written
             env_5489 ["prelim"%string; Text.to_dec 3])
    = Returned 0.
Proof.
  assert (H : 0 <= 3 <= INT_MAX) by (unfold INT_MAX; lia).
  split; [exact H |].
  destruct (main_writes_num_values (EG := mt19937_64)
              always_written env_5489 "prelim" 3 H)
    as (r & Hgen & Hlen & _ & _ & Hmain).
  exists r. split; [exact Hgen |]. split; [exact Hlen |].
  rewrite Hmain. reflexivity.
Defined.

Lemma setPtoaArguments_registers_witness :
  0 <= 1000 < 2 ^ 32 /\
  0 <= 2 ^ 33 + 5 < 2 ^ 64 /\
  0 <= 2 ^ 40 + 7 < 2 ^ 64 /\
  register (setPtoaArguments [] 1000 (2 ^ 33 + 5) (2 ^ 40 + 7)) 10
  = Some 1000 /\
  List.length (setPtoaArguments [] 1000 (2 ^ 33 + 5) (2 ^ 40 + 7)) = 5%nat.
Proof.
  assert (H1 : 0 <= 1000 < 2 ^ 32) by lia.
  assert (H2 : 0 <= 2 ^ 33 + 5 < 2 ^ 64) by lia.
  assert (H3 : 0 <= 2 ^ 40 + 7 < 2 ^ 64) by lia.
  split; [exact H1 |]. split; [exact H2 |]. split; [exact H3 |].
  destruct (setPtoaArguments_registers [] 1000 (2 ^ 33 + 5) (2 ^ 40 + 7)
              H1 H2 H3) as (H10 & _ & _ & _ & Hlen).
  split; [exact H10 | exact Hlen].
Defined.

Lemma parquet_checksum_reads_past_the_buffer_witness :
  (4 <= List.length [80; 65; 82; 49; 1; 2; 3])%nat /\
  parquet_checksum [80; 65; 82; 49; 1; 2; 3] = None.
Proof.
  assert (H : (4 <= List.length [80; 65; 82; 49; 1; 2; 3])%nat)
    by (simpl; lia).
  split; [exact H |].
  exact (proj2 (proj2 (parquet_checksum_reads_past_the_buffer
                         [80; 65; 82; 49; 1; 2; 3] H))).
Defined.

Lemma check_result_counts_differences_witness :
  Z.of_nat (List.length [1; 2; 3]) < INT_MAX /\
  (List.length [1; 2; 3] <= List.length [1; 5; 3; 9])%nat /\
  check_result false [1; 2; 3] [1; 5; 3; 9] 3
  = Some (comparison_lines 20 [1; 2; 3] [1; 5; 3; 9] ++ test_failed 1)%string.
Proof.
  assert (H1 : Z.of_nat (List.length [1; 2; 3]) < INT_MAX)
    by (unfold INT_MAX; simpl; lia).
  assert (H2 : (List.length [1; 2; 3] <= List.length [1; 5; 3; 9])%nat)
    by (simpl; lia).
  split; [exact H1 |]. split; [exact H2 |].
  exact (proj1 (proj1 (check_result_counts_differences [1; 2; 3]
                         [1; 5; 3; 9] 3 H1) H2)).
Defined.
